(** * CryptoMiniSat: the solver front end ([solver.cpp]) and the XOR
      subsumption helper ([XorSubsumer.h])

    A shallow embedding of the clause-adding path, the variable
    renumbering, the minimisation-effectiveness checks, the inprocessing
    schedule interpreter, [set_max_confl] and [XorSubsumer::subset],
    followed by the properties established about them.

    Conventions.
    - Unsigned machine integers are [Z] values with the wrap-around
      written where the source computes ([wrap64], [wrap32]).
    - [double] values are IEEE-754 binary64 numbers, computed with the
      Standard Library's executable specification [SpecFloat]
      (round to nearest, ties to even).
    - Vectors are lists; a vector indexed by a variable is read and
      written through stdpp's list lookup and insert.
    - A function that may throw, call [exit] or fail an [assert] returns
      an [Outcome].
    - Subsystems whose code lives in other translation units (propagator,
      occurrence simplifier, variable replacer, the inprocessing passes,
      the clock) are the fields of an [Env] record that every model
      function takes as its first argument.
    - Console output ([cout], [verb_print]) and the FRAT proof stream are
      not part of the state. *)

From Stdlib Require Import ZArith List Bool String Ascii Lia SpecFloat DecimalString.
From Stdlib Require Import Sorting.Sorted Sorting.Permutation.
From stdpp Require Import base list sorting.
Import ListNotations.

Local Open Scope Z_scope.

(* ================================================================== *)
(** * Part I: the embedding                                            *)
(* ================================================================== *)

(** ** Machine integers *)

Definition wrap64 (z : Z) : Z := z mod 2 ^ 64.
Definition wrap32 (z : Z) : Z := z mod 2 ^ 32.
Definition uint64_max : Z := 2 ^ 64 - 1.

(** ** Doubles *)

Abbreviation double := spec_float (only parsing).

Definition d_prec : Z := 53.
Definition d_emax : Z := 1024.

(** [(double)z] for an integer [z]. *)
Definition d_of_Z (z : Z) : double := binary_normalize d_prec d_emax z 0 false.
Definition d_div (a b : double) : double := SFdiv d_prec d_emax a b.
Definition d_mul (a b : double) : double := SFmul d_prec d_emax a b.
Definition d_sub (a b : double) : double := SFsub d_prec d_emax a b.
Definition d_lt (a b : double) : bool := SFltb a b.
Definition d_gt (a b : double) : bool := SFltb b a.

Definition d_zero : double := S754_zero false.
(** The literals [1.0], [7.0], [100.0] and [0.2] of the source. [0.2] is
    the double nearest to 1/5, [0x3FC999999999999A]. *)
Definition d_1_0 : double := d_of_Z 1.
Definition d_7_0 : double := d_of_Z 7.
Definition d_100_0 : double := d_of_Z 100.
Definition d_0_2 : double := S754_finite false 7205759403792794 (-55).


(** Modelled from the spec: [float_div] is declared in a header outside
    the two files at hand. It is the quotient behind the spec's
    "cost-per-gain" and "gain" percentages, taken in double precision,
    and 0 when the divisor is 0. The template is used at two pairs of
    argument types in [solver.cpp]: two unsigned 64-bit counters, and a
    counter over a double. *)
Definition float_div_uu (a b : Z) : double :=
  if b =? 0 then d_zero else d_div (d_of_Z a) (d_of_Z b).

Definition float_div_ud (a : Z) (b : double) : double :=
  if SFeqb b d_zero then d_zero else d_div (d_of_Z a) b.

(** ** Literals, truth values, removal states *)

(** Modelled from the spec: the literal type is declared in
    [solvertypesmini.h]. A literal is a variable with a sign bit,
    encoded as [2 * var + sign]; the operations are negation, variable
    extraction and ordering by encoding. *)
Abbreviation Lit := Z (only parsing).

Definition mkLit (v : nat) (sgn : bool) : Lit := 2 * Z.of_nat v + Z.b2z sgn.
Definition var (l : Lit) : nat := Z.to_nat (Z.shiftr l 1).
Definition sign (l : Lit) : bool := Z.testbit l 0.
(** [~l] *)
Definition lit_neg (l : Lit) : Lit := Z.lxor l 1.
(** [l ^ b] *)
Definition lit_xor (l : Lit) (b : bool) : Lit := Z.lxor l (Z.b2z b).

Inductive lbool : Type := l_True | l_False | l_Undef.

Definition lbool_eqb (a b : lbool) : bool :=
  match a, b with
  | l_True, l_True | l_False, l_False | l_Undef, l_Undef => true
  | _, _ => false
  end.

(** [v ^ b] on a truth value: flips a defined value when [b] holds. *)
Definition lbool_xor (v : lbool) (b : bool) : lbool :=
  match v with
  | l_True => if b then l_False else l_True
  | l_False => if b then l_True else l_False
  | l_Undef => l_Undef
  end.

(** Modelled from the spec: the removal state of a variable, "none,
    eliminated-by-resolution, replaced-by-equivalent, set-at-level-0";
    the enum is declared outside the files at hand, and [solver.cpp]
    names the first three. *)
Inductive Removed : Type :=
| Removed_none | Removed_elimed | Removed_replaced | Removed_set.

Definition Removed_eqb (a b : Removed) : bool :=
  match a, b with
  | Removed_none, Removed_none | Removed_elimed, Removed_elimed
  | Removed_replaced, Removed_replaced | Removed_set, Removed_set => true
  | _, _ => false
  end.

(** ** Configuration *)

Record SolverConf : Type := mkSolverConf {
  max_confl : Z;  (* uint64 *)
  doRecursiveMinim : bool;
  doMinimRedMore : bool;
  more_red_minim_limit_binary : Z;  (* uint32 *)
  perform_occur_based_simp : bool;
  max_glue_cutoff_gluehistltlimited : Z;
  shortTermHistorySize : Z;
  blocking_restart_trail_hist_length : Z;
  xor_var_per_cut : Z;
  simulate_frat : bool;
  do_hyperbin_and_transred : bool;
  sampling_vars : option (list nat);  (* null pointer: [None] *)
  do_simplify_problem : bool;
  simplify_at_startup : bool;
  simplify_at_every_startup : bool;
  full_simplify_at_startup : bool;
  simplify_schedule_startup : string;
  simplify_schedule_nonstartup : string;
  conf_needed : bool;
  doSaveMem : bool;
  doFindAndReplaceEqLits : bool;
  doFindCard : bool;
  doStrSubImplicit : bool;
  doIntreeProbe : bool;
  do_distill_clauses : bool;
  do_distill_bin_clauses : bool;
  must_always_conslidate : bool;
  doRenumberVars : bool;
  must_renumber : bool
}.

Definition conf_set_max_confl (x : Z) (s : SolverConf) : SolverConf :=
  {| max_confl := x; doRecursiveMinim := doRecursiveMinim s; doMinimRedMore := doMinimRedMore s;
     more_red_minim_limit_binary := more_red_minim_limit_binary s;
     perform_occur_based_simp := perform_occur_based_simp s;
     max_glue_cutoff_gluehistltlimited := max_glue_cutoff_gluehistltlimited s;
     shortTermHistorySize := shortTermHistorySize s;
     blocking_restart_trail_hist_length := blocking_restart_trail_hist_length s;
     xor_var_per_cut := xor_var_per_cut s; simulate_frat := simulate_frat s;
     do_hyperbin_and_transred := do_hyperbin_and_transred s; sampling_vars := sampling_vars s;
     do_simplify_problem := do_simplify_problem s; simplify_at_startup := simplify_at_startup s;
     simplify_at_every_startup := simplify_at_every_startup s;
     full_simplify_at_startup := full_simplify_at_startup s;
     simplify_schedule_startup := simplify_schedule_startup s;
     simplify_schedule_nonstartup := simplify_schedule_nonstartup s; conf_needed := conf_needed s;
     doSaveMem := doSaveMem s; doFindAndReplaceEqLits := doFindAndReplaceEqLits s;
     doFindCard := doFindCard s; doStrSubImplicit := doStrSubImplicit s;
     doIntreeProbe := doIntreeProbe s; do_distill_clauses := do_distill_clauses s;
     do_distill_bin_clauses := do_distill_bin_clauses s;
     must_always_conslidate := must_always_conslidate s; doRenumberVars := doRenumberVars s;
     must_renumber := must_renumber s |}.

Definition conf_set_doRecursiveMinim (x : bool) (s : SolverConf) : SolverConf :=
  {| max_confl := max_confl s; doRecursiveMinim := x; doMinimRedMore := doMinimRedMore s;
     more_red_minim_limit_binary := more_red_minim_limit_binary s;
     perform_occur_based_simp := perform_occur_based_simp s;
     max_glue_cutoff_gluehistltlimited := max_glue_cutoff_gluehistltlimited s;
     shortTermHistorySize := shortTermHistorySize s;
     blocking_restart_trail_hist_length := blocking_restart_trail_hist_length s;
     xor_var_per_cut := xor_var_per_cut s; simulate_frat := simulate_frat s;
     do_hyperbin_and_transred := do_hyperbin_and_transred s; sampling_vars := sampling_vars s;
     do_simplify_problem := do_simplify_problem s; simplify_at_startup := simplify_at_startup s;
     simplify_at_every_startup := simplify_at_every_startup s;
     full_simplify_at_startup := full_simplify_at_startup s;
     simplify_schedule_startup := simplify_schedule_startup s;
     simplify_schedule_nonstartup := simplify_schedule_nonstartup s; conf_needed := conf_needed s;
     doSaveMem := doSaveMem s; doFindAndReplaceEqLits := doFindAndReplaceEqLits s;
     doFindCard := doFindCard s; doStrSubImplicit := doStrSubImplicit s;
     doIntreeProbe := doIntreeProbe s; do_distill_clauses := do_distill_clauses s;
     do_distill_bin_clauses := do_distill_bin_clauses s;
     must_always_conslidate := must_always_conslidate s; doRenumberVars := doRenumberVars s;
     must_renumber := must_renumber s |}.

Definition conf_set_doMinimRedMore (x : bool) (s : SolverConf) : SolverConf :=
  {| max_confl := max_confl s; doRecursiveMinim := doRecursiveMinim s; doMinimRedMore := x;
     more_red_minim_limit_binary := more_red_minim_limit_binary s;
     perform_occur_based_simp := perform_occur_based_simp s;
     max_glue_cutoff_gluehistltlimited := max_glue_cutoff_gluehistltlimited s;
     shortTermHistorySize := shortTermHistorySize s;
     blocking_restart_trail_hist_length := blocking_restart_trail_hist_length s;
     xor_var_per_cut := xor_var_per_cut s; simulate_frat := simulate_frat s;
     do_hyperbin_and_transred := do_hyperbin_and_transred s; sampling_vars := sampling_vars s;
     do_simplify_problem := do_simplify_problem s; simplify_at_startup := simplify_at_startup s;
     simplify_at_every_startup := simplify_at_every_startup s;
     full_simplify_at_startup := full_simplify_at_startup s;
     simplify_schedule_startup := simplify_schedule_startup s;
     simplify_schedule_nonstartup := simplify_schedule_nonstartup s; conf_needed := conf_needed s;
     doSaveMem := doSaveMem s; doFindAndReplaceEqLits := doFindAndReplaceEqLits s;
     doFindCard := doFindCard s; doStrSubImplicit := doStrSubImplicit s;
     doIntreeProbe := doIntreeProbe s; do_distill_clauses := do_distill_clauses s;
     do_distill_bin_clauses := do_distill_bin_clauses s;
     must_always_conslidate := must_always_conslidate s; doRenumberVars := doRenumberVars s;
     must_renumber := must_renumber s |}.

Definition conf_set_do_hyperbin_and_transred (x : bool) (s : SolverConf) : SolverConf :=
  {| max_confl := max_confl s; doRecursiveMinim := doRecursiveMinim s;
     doMinimRedMore := doMinimRedMore s;
     more_red_minim_limit_binary := more_red_minim_limit_binary s;
     perform_occur_based_simp := perform_occur_based_simp s;
     max_glue_cutoff_gluehistltlimited := max_glue_cutoff_gluehistltlimited s;
     shortTermHistorySize := shortTermHistorySize s;
     blocking_restart_trail_hist_length := blocking_restart_trail_hist_length s;
     xor_var_per_cut := xor_var_per_cut s; simulate_frat := simulate_frat s;
     do_hyperbin_and_transred := x; sampling_vars := sampling_vars s;
     do_simplify_problem := do_simplify_problem s; simplify_at_startup := simplify_at_startup s;
     simplify_at_every_startup := simplify_at_every_startup s;
     full_simplify_at_startup := full_simplify_at_startup s;
     simplify_schedule_startup := simplify_schedule_startup s;
     simplify_schedule_nonstartup := simplify_schedule_nonstartup s; conf_needed := conf_needed s;
     doSaveMem := doSaveMem s; doFindAndReplaceEqLits := doFindAndReplaceEqLits s;
     doFindCard := doFindCard s; doStrSubImplicit := doStrSubImplicit s;
     doIntreeProbe := doIntreeProbe s; do_distill_clauses := do_distill_clauses s;
     do_distill_bin_clauses := do_distill_bin_clauses s;
     must_always_conslidate := must_always_conslidate s; doRenumberVars := doRenumberVars s;
     must_renumber := must_renumber s |}.

Definition conf_set_conf_needed (x : bool) (s : SolverConf) : SolverConf :=
  {| max_confl := max_confl s; doRecursiveMinim := doRecursiveMinim s;
     doMinimRedMore := doMinimRedMore s;
     more_red_minim_limit_binary := more_red_minim_limit_binary s;
     perform_occur_based_simp := perform_occur_based_simp s;
     max_glue_cutoff_gluehistltlimited := max_glue_cutoff_gluehistltlimited s;
     shortTermHistorySize := shortTermHistorySize s;
     blocking_restart_trail_hist_length := blocking_restart_trail_hist_length s;
     xor_var_per_cut := xor_var_per_cut s; simulate_frat := simulate_frat s;
     do_hyperbin_and_transred := do_hyperbin_and_transred s; sampling_vars := sampling_vars s;
     do_simplify_problem := do_simplify_problem s; simplify_at_startup := simplify_at_startup s;
     simplify_at_every_startup := simplify_at_every_startup s;
     full_simplify_at_startup := full_simplify_at_startup s;
     simplify_schedule_startup := simplify_schedule_startup s;
     simplify_schedule_nonstartup := simplify_schedule_nonstartup s; conf_needed := x;
     doSaveMem := doSaveMem s; doFindAndReplaceEqLits := doFindAndReplaceEqLits s;
     doFindCard := doFindCard s; doStrSubImplicit := doStrSubImplicit s;
     doIntreeProbe := doIntreeProbe s; do_distill_clauses := do_distill_clauses s;
     do_distill_bin_clauses := do_distill_bin_clauses s;
     must_always_conslidate := must_always_conslidate s; doRenumberVars := doRenumberVars s;
     must_renumber := must_renumber s |}.

(** ** Solver state *)

(** The counters of [SearchStats] that [solver.cpp] reads; unsigned
    64-bit. *)
Record SearchStats : Type := mkSearchStats {
  conflicts : Z;
  recMinLitRem : Z;
  litsRedNonMin : Z;
  recMinimCost : Z;
  moreMinimLitsStart : Z;
  moreMinimLitsEnd : Z
}.

Record LitStats : Type := mkLitStats { irredLits : Z; redLits : Z }.
Record BinTriStats : Type := mkBinTriStats { irredBins : Z; redBins : Z }.
Record SolveStats : Type := mkSolveStats {
  num_simplify : Z;
  num_solve_calls : Z;
  num_simplify_this_solve_call : Z
}.

(** What the solver asks of the occurrence simplifier's bookkeeping. *)
Record OccSimplifier : Type := mkOccSimplifier {
  anythingHasBeenElimed : bool;  (* [getAnythingHasBeenElimed()] *)
  num_elimed_vars : Z            (* [get_num_elimed_vars()] *)
}.

Record ClauseStats : Type := mkClauseStats { ID : Z; which_red_array : Z }.

Abbreviation ClOffset := nat (only parsing).

(** A long clause in the arena. *)
Record Clause : Type := mkClause {
  cl_lits : list Lit;
  isRed : bool;
  cl_stats : ClauseStats;
  introduced_at_conflict : Z;
  distilled : bool;
  tried_to_remove : bool
}.

Record Xor : Type := mkXor { xor_vars : list Lit; xor_rhs : bool }.

Record Solver : Type := mkSolver {
  conf : SolverConf;
  ok : bool;  (* false once UNSAT is established *)
  unsat_cl_ID : Z;  (* ID of the empty clause, 0 while there is none *)
  clauseID : Z;  (* last clause ID handed out *)
  minNumVars : nat;  (* [nVars()] *)
  assigns : list lbool;  (* by variable; its size is [nVarsOuter()] *)
  varData : list Removed;  (* [varData[v].removed] *)
  interToOuterMain : list nat;
  outerToInterMain : list nat;
  trail : list Lit;  (* assigned literals, oldest first *)
  trail_lim : list nat;  (* decision-level separators *)
  qhead : nat;
  cl_alloc : list Clause;  (* clause arena; a handle is a position *)
  longIrredCls : list ClOffset;
  longRedCls : list (list ClOffset);  (* by tier *)
  xorclauses : list Xor;
  xorclauses_updated : bool;
  num_bnns : nat;  (* [bnns.size()] *)
  undef_must_set_vars : list bool;  (* by outer variable *)
  litStats : LitStats;
  binTri : BinTriStats;
  sumConflicts : Z;  (* uint64 *)
  zeroLevAssignsByCNF : Z;
  stats : SearchStats;  (* [Searcher::get_stats()] *)
  more_red_minim_limit_binary_actual : Z;
  occsimplifier : OccSimplifier;
  assumptions : list Lit;
  conflict : list Lit;
  frat_enabled : bool;  (* [frat->enabled()] *)
  solveStats : SolveStats
}.

Definition upd_conf (x : SolverConf) (s : Solver) : Solver :=
  {| conf := x; ok := ok s; unsat_cl_ID := unsat_cl_ID s; clauseID := clauseID s;
     minNumVars := minNumVars s; assigns := assigns s; varData := varData s;
     interToOuterMain := interToOuterMain s; outerToInterMain := outerToInterMain s;
     trail := trail s; trail_lim := trail_lim s; qhead := qhead s; cl_alloc := cl_alloc s;
     longIrredCls := longIrredCls s; longRedCls := longRedCls s; xorclauses := xorclauses s;
     xorclauses_updated := xorclauses_updated s; num_bnns := num_bnns s;
     undef_must_set_vars := undef_must_set_vars s; litStats := litStats s; binTri := binTri s;
     sumConflicts := sumConflicts s; zeroLevAssignsByCNF := zeroLevAssignsByCNF s;
     stats := stats s; more_red_minim_limit_binary_actual := more_red_minim_limit_binary_actual s;
     occsimplifier := occsimplifier s; assumptions := assumptions s; conflict := conflict s;
     frat_enabled := frat_enabled s; solveStats := solveStats s |}.

Definition upd_ok (x : bool) (s : Solver) : Solver :=
  {| conf := conf s; ok := x; unsat_cl_ID := unsat_cl_ID s; clauseID := clauseID s;
     minNumVars := minNumVars s; assigns := assigns s; varData := varData s;
     interToOuterMain := interToOuterMain s; outerToInterMain := outerToInterMain s;
     trail := trail s; trail_lim := trail_lim s; qhead := qhead s; cl_alloc := cl_alloc s;
     longIrredCls := longIrredCls s; longRedCls := longRedCls s; xorclauses := xorclauses s;
     xorclauses_updated := xorclauses_updated s; num_bnns := num_bnns s;
     undef_must_set_vars := undef_must_set_vars s; litStats := litStats s; binTri := binTri s;
     sumConflicts := sumConflicts s; zeroLevAssignsByCNF := zeroLevAssignsByCNF s;
     stats := stats s; more_red_minim_limit_binary_actual := more_red_minim_limit_binary_actual s;
     occsimplifier := occsimplifier s; assumptions := assumptions s; conflict := conflict s;
     frat_enabled := frat_enabled s; solveStats := solveStats s |}.

Definition upd_unsat_cl_ID (x : Z) (s : Solver) : Solver :=
  {| conf := conf s; ok := ok s; unsat_cl_ID := x; clauseID := clauseID s;
     minNumVars := minNumVars s; assigns := assigns s; varData := varData s;
     interToOuterMain := interToOuterMain s; outerToInterMain := outerToInterMain s;
     trail := trail s; trail_lim := trail_lim s; qhead := qhead s; cl_alloc := cl_alloc s;
     longIrredCls := longIrredCls s; longRedCls := longRedCls s; xorclauses := xorclauses s;
     xorclauses_updated := xorclauses_updated s; num_bnns := num_bnns s;
     undef_must_set_vars := undef_must_set_vars s; litStats := litStats s; binTri := binTri s;
     sumConflicts := sumConflicts s; zeroLevAssignsByCNF := zeroLevAssignsByCNF s;
     stats := stats s; more_red_minim_limit_binary_actual := more_red_minim_limit_binary_actual s;
     occsimplifier := occsimplifier s; assumptions := assumptions s; conflict := conflict s;
     frat_enabled := frat_enabled s; solveStats := solveStats s |}.

Definition upd_clauseID (x : Z) (s : Solver) : Solver :=
  {| conf := conf s; ok := ok s; unsat_cl_ID := unsat_cl_ID s; clauseID := x;
     minNumVars := minNumVars s; assigns := assigns s; varData := varData s;
     interToOuterMain := interToOuterMain s; outerToInterMain := outerToInterMain s;
     trail := trail s; trail_lim := trail_lim s; qhead := qhead s; cl_alloc := cl_alloc s;
     longIrredCls := longIrredCls s; longRedCls := longRedCls s; xorclauses := xorclauses s;
     xorclauses_updated := xorclauses_updated s; num_bnns := num_bnns s;
     undef_must_set_vars := undef_must_set_vars s; litStats := litStats s; binTri := binTri s;
     sumConflicts := sumConflicts s; zeroLevAssignsByCNF := zeroLevAssignsByCNF s;
     stats := stats s; more_red_minim_limit_binary_actual := more_red_minim_limit_binary_actual s;
     occsimplifier := occsimplifier s; assumptions := assumptions s; conflict := conflict s;
     frat_enabled := frat_enabled s; solveStats := solveStats s |}.

Definition upd_minNumVars (x : nat) (s : Solver) : Solver :=
  {| conf := conf s; ok := ok s; unsat_cl_ID := unsat_cl_ID s; clauseID := clauseID s;
     minNumVars := x; assigns := assigns s; varData := varData s;
     interToOuterMain := interToOuterMain s; outerToInterMain := outerToInterMain s;
     trail := trail s; trail_lim := trail_lim s; qhead := qhead s; cl_alloc := cl_alloc s;
     longIrredCls := longIrredCls s; longRedCls := longRedCls s; xorclauses := xorclauses s;
     xorclauses_updated := xorclauses_updated s; num_bnns := num_bnns s;
     undef_must_set_vars := undef_must_set_vars s; litStats := litStats s; binTri := binTri s;
     sumConflicts := sumConflicts s; zeroLevAssignsByCNF := zeroLevAssignsByCNF s;
     stats := stats s; more_red_minim_limit_binary_actual := more_red_minim_limit_binary_actual s;
     occsimplifier := occsimplifier s; assumptions := assumptions s; conflict := conflict s;
     frat_enabled := frat_enabled s; solveStats := solveStats s |}.

Definition upd_assigns (x : list lbool) (s : Solver) : Solver :=
  {| conf := conf s; ok := ok s; unsat_cl_ID := unsat_cl_ID s; clauseID := clauseID s;
     minNumVars := minNumVars s; assigns := x; varData := varData s;
     interToOuterMain := interToOuterMain s; outerToInterMain := outerToInterMain s;
     trail := trail s; trail_lim := trail_lim s; qhead := qhead s; cl_alloc := cl_alloc s;
     longIrredCls := longIrredCls s; longRedCls := longRedCls s; xorclauses := xorclauses s;
     xorclauses_updated := xorclauses_updated s; num_bnns := num_bnns s;
     undef_must_set_vars := undef_must_set_vars s; litStats := litStats s; binTri := binTri s;
     sumConflicts := sumConflicts s; zeroLevAssignsByCNF := zeroLevAssignsByCNF s;
     stats := stats s; more_red_minim_limit_binary_actual := more_red_minim_limit_binary_actual s;
     occsimplifier := occsimplifier s; assumptions := assumptions s; conflict := conflict s;
     frat_enabled := frat_enabled s; solveStats := solveStats s |}.

Definition upd_trail (x : list Lit) (s : Solver) : Solver :=
  {| conf := conf s; ok := ok s; unsat_cl_ID := unsat_cl_ID s; clauseID := clauseID s;
     minNumVars := minNumVars s; assigns := assigns s; varData := varData s;
     interToOuterMain := interToOuterMain s; outerToInterMain := outerToInterMain s; trail := x;
     trail_lim := trail_lim s; qhead := qhead s; cl_alloc := cl_alloc s;
     longIrredCls := longIrredCls s; longRedCls := longRedCls s; xorclauses := xorclauses s;
     xorclauses_updated := xorclauses_updated s; num_bnns := num_bnns s;
     undef_must_set_vars := undef_must_set_vars s; litStats := litStats s; binTri := binTri s;
     sumConflicts := sumConflicts s; zeroLevAssignsByCNF := zeroLevAssignsByCNF s;
     stats := stats s; more_red_minim_limit_binary_actual := more_red_minim_limit_binary_actual s;
     occsimplifier := occsimplifier s; assumptions := assumptions s; conflict := conflict s;
     frat_enabled := frat_enabled s; solveStats := solveStats s |}.

Definition upd_trail_lim (x : list nat) (s : Solver) : Solver :=
  {| conf := conf s; ok := ok s; unsat_cl_ID := unsat_cl_ID s; clauseID := clauseID s;
     minNumVars := minNumVars s; assigns := assigns s; varData := varData s;
     interToOuterMain := interToOuterMain s; outerToInterMain := outerToInterMain s;
     trail := trail s; trail_lim := x; qhead := qhead s; cl_alloc := cl_alloc s;
     longIrredCls := longIrredCls s; longRedCls := longRedCls s; xorclauses := xorclauses s;
     xorclauses_updated := xorclauses_updated s; num_bnns := num_bnns s;
     undef_must_set_vars := undef_must_set_vars s; litStats := litStats s; binTri := binTri s;
     sumConflicts := sumConflicts s; zeroLevAssignsByCNF := zeroLevAssignsByCNF s;
     stats := stats s; more_red_minim_limit_binary_actual := more_red_minim_limit_binary_actual s;
     occsimplifier := occsimplifier s; assumptions := assumptions s; conflict := conflict s;
     frat_enabled := frat_enabled s; solveStats := solveStats s |}.

Definition upd_qhead (x : nat) (s : Solver) : Solver :=
  {| conf := conf s; ok := ok s; unsat_cl_ID := unsat_cl_ID s; clauseID := clauseID s;
     minNumVars := minNumVars s; assigns := assigns s; varData := varData s;
     interToOuterMain := interToOuterMain s; outerToInterMain := outerToInterMain s;
     trail := trail s; trail_lim := trail_lim s; qhead := x; cl_alloc := cl_alloc s;
     longIrredCls := longIrredCls s; longRedCls := longRedCls s; xorclauses := xorclauses s;
     xorclauses_updated := xorclauses_updated s; num_bnns := num_bnns s;
     undef_must_set_vars := undef_must_set_vars s; litStats := litStats s; binTri := binTri s;
     sumConflicts := sumConflicts s; zeroLevAssignsByCNF := zeroLevAssignsByCNF s;
     stats := stats s; more_red_minim_limit_binary_actual := more_red_minim_limit_binary_actual s;
     occsimplifier := occsimplifier s; assumptions := assumptions s; conflict := conflict s;
     frat_enabled := frat_enabled s; solveStats := solveStats s |}.

Definition upd_cl_alloc (x : list Clause) (s : Solver) : Solver :=
  {| conf := conf s; ok := ok s; unsat_cl_ID := unsat_cl_ID s; clauseID := clauseID s;
     minNumVars := minNumVars s; assigns := assigns s; varData := varData s;
     interToOuterMain := interToOuterMain s; outerToInterMain := outerToInterMain s;
     trail := trail s; trail_lim := trail_lim s; qhead := qhead s; cl_alloc := x;
     longIrredCls := longIrredCls s; longRedCls := longRedCls s; xorclauses := xorclauses s;
     xorclauses_updated := xorclauses_updated s; num_bnns := num_bnns s;
     undef_must_set_vars := undef_must_set_vars s; litStats := litStats s; binTri := binTri s;
     sumConflicts := sumConflicts s; zeroLevAssignsByCNF := zeroLevAssignsByCNF s;
     stats := stats s; more_red_minim_limit_binary_actual := more_red_minim_limit_binary_actual s;
     occsimplifier := occsimplifier s; assumptions := assumptions s; conflict := conflict s;
     frat_enabled := frat_enabled s; solveStats := solveStats s |}.

Definition upd_longIrredCls (x : list ClOffset) (s : Solver) : Solver :=
  {| conf := conf s; ok := ok s; unsat_cl_ID := unsat_cl_ID s; clauseID := clauseID s;
     minNumVars := minNumVars s; assigns := assigns s; varData := varData s;
     interToOuterMain := interToOuterMain s; outerToInterMain := outerToInterMain s;
     trail := trail s; trail_lim := trail_lim s; qhead := qhead s; cl_alloc := cl_alloc s;
     longIrredCls := x; longRedCls := longRedCls s; xorclauses := xorclauses s;
     xorclauses_updated := xorclauses_updated s; num_bnns := num_bnns s;
     undef_must_set_vars := undef_must_set_vars s; litStats := litStats s; binTri := binTri s;
     sumConflicts := sumConflicts s; zeroLevAssignsByCNF := zeroLevAssignsByCNF s;
     stats := stats s; more_red_minim_limit_binary_actual := more_red_minim_limit_binary_actual s;
     occsimplifier := occsimplifier s; assumptions := assumptions s; conflict := conflict s;
     frat_enabled := frat_enabled s; solveStats := solveStats s |}.

Definition upd_longRedCls (x : list (list ClOffset)) (s : Solver) : Solver :=
  {| conf := conf s; ok := ok s; unsat_cl_ID := unsat_cl_ID s; clauseID := clauseID s;
     minNumVars := minNumVars s; assigns := assigns s; varData := varData s;
     interToOuterMain := interToOuterMain s; outerToInterMain := outerToInterMain s;
     trail := trail s; trail_lim := trail_lim s; qhead := qhead s; cl_alloc := cl_alloc s;
     longIrredCls := longIrredCls s; longRedCls := x; xorclauses := xorclauses s;
     xorclauses_updated := xorclauses_updated s; num_bnns := num_bnns s;
     undef_must_set_vars := undef_must_set_vars s; litStats := litStats s; binTri := binTri s;
     sumConflicts := sumConflicts s; zeroLevAssignsByCNF := zeroLevAssignsByCNF s;
     stats := stats s; more_red_minim_limit_binary_actual := more_red_minim_limit_binary_actual s;
     occsimplifier := occsimplifier s; assumptions := assumptions s; conflict := conflict s;
     frat_enabled := frat_enabled s; solveStats := solveStats s |}.

Definition upd_xorclauses (x : list Xor) (s : Solver) : Solver :=
  {| conf := conf s; ok := ok s; unsat_cl_ID := unsat_cl_ID s; clauseID := clauseID s;
     minNumVars := minNumVars s; assigns := assigns s; varData := varData s;
     interToOuterMain := interToOuterMain s; outerToInterMain := outerToInterMain s;
     trail := trail s; trail_lim := trail_lim s; qhead := qhead s; cl_alloc := cl_alloc s;
     longIrredCls := longIrredCls s; longRedCls := longRedCls s; xorclauses := x;
     xorclauses_updated := xorclauses_updated s; num_bnns := num_bnns s;
     undef_must_set_vars := undef_must_set_vars s; litStats := litStats s; binTri := binTri s;
     sumConflicts := sumConflicts s; zeroLevAssignsByCNF := zeroLevAssignsByCNF s;
     stats := stats s; more_red_minim_limit_binary_actual := more_red_minim_limit_binary_actual s;
     occsimplifier := occsimplifier s; assumptions := assumptions s; conflict := conflict s;
     frat_enabled := frat_enabled s; solveStats := solveStats s |}.

Definition upd_xorclauses_updated (x : bool) (s : Solver) : Solver :=
  {| conf := conf s; ok := ok s; unsat_cl_ID := unsat_cl_ID s; clauseID := clauseID s;
     minNumVars := minNumVars s; assigns := assigns s; varData := varData s;
     interToOuterMain := interToOuterMain s; outerToInterMain := outerToInterMain s;
     trail := trail s; trail_lim := trail_lim s; qhead := qhead s; cl_alloc := cl_alloc s;
     longIrredCls := longIrredCls s; longRedCls := longRedCls s; xorclauses := xorclauses s;
     xorclauses_updated := x; num_bnns := num_bnns s; undef_must_set_vars := undef_must_set_vars s;
     litStats := litStats s; binTri := binTri s; sumConflicts := sumConflicts s;
     zeroLevAssignsByCNF := zeroLevAssignsByCNF s; stats := stats s;
     more_red_minim_limit_binary_actual := more_red_minim_limit_binary_actual s;
     occsimplifier := occsimplifier s; assumptions := assumptions s; conflict := conflict s;
     frat_enabled := frat_enabled s; solveStats := solveStats s |}.

Definition upd_undef_must_set_vars (x : list bool) (s : Solver) : Solver :=
  {| conf := conf s; ok := ok s; unsat_cl_ID := unsat_cl_ID s; clauseID := clauseID s;
     minNumVars := minNumVars s; assigns := assigns s; varData := varData s;
     interToOuterMain := interToOuterMain s; outerToInterMain := outerToInterMain s;
     trail := trail s; trail_lim := trail_lim s; qhead := qhead s; cl_alloc := cl_alloc s;
     longIrredCls := longIrredCls s; longRedCls := longRedCls s; xorclauses := xorclauses s;
     xorclauses_updated := xorclauses_updated s; num_bnns := num_bnns s; undef_must_set_vars := x;
     litStats := litStats s; binTri := binTri s; sumConflicts := sumConflicts s;
     zeroLevAssignsByCNF := zeroLevAssignsByCNF s; stats := stats s;
     more_red_minim_limit_binary_actual := more_red_minim_limit_binary_actual s;
     occsimplifier := occsimplifier s; assumptions := assumptions s; conflict := conflict s;
     frat_enabled := frat_enabled s; solveStats := solveStats s |}.

Definition upd_litStats (x : LitStats) (s : Solver) : Solver :=
  {| conf := conf s; ok := ok s; unsat_cl_ID := unsat_cl_ID s; clauseID := clauseID s;
     minNumVars := minNumVars s; assigns := assigns s; varData := varData s;
     interToOuterMain := interToOuterMain s; outerToInterMain := outerToInterMain s;
     trail := trail s; trail_lim := trail_lim s; qhead := qhead s; cl_alloc := cl_alloc s;
     longIrredCls := longIrredCls s; longRedCls := longRedCls s; xorclauses := xorclauses s;
     xorclauses_updated := xorclauses_updated s; num_bnns := num_bnns s;
     undef_must_set_vars := undef_must_set_vars s; litStats := x; binTri := binTri s;
     sumConflicts := sumConflicts s; zeroLevAssignsByCNF := zeroLevAssignsByCNF s;
     stats := stats s; more_red_minim_limit_binary_actual := more_red_minim_limit_binary_actual s;
     occsimplifier := occsimplifier s; assumptions := assumptions s; conflict := conflict s;
     frat_enabled := frat_enabled s; solveStats := solveStats s |}.

Definition upd_binTri (x : BinTriStats) (s : Solver) : Solver :=
  {| conf := conf s; ok := ok s; unsat_cl_ID := unsat_cl_ID s; clauseID := clauseID s;
     minNumVars := minNumVars s; assigns := assigns s; varData := varData s;
     interToOuterMain := interToOuterMain s; outerToInterMain := outerToInterMain s;
     trail := trail s; trail_lim := trail_lim s; qhead := qhead s; cl_alloc := cl_alloc s;
     longIrredCls := longIrredCls s; longRedCls := longRedCls s; xorclauses := xorclauses s;
     xorclauses_updated := xorclauses_updated s; num_bnns := num_bnns s;
     undef_must_set_vars := undef_must_set_vars s; litStats := litStats s; binTri := x;
     sumConflicts := sumConflicts s; zeroLevAssignsByCNF := zeroLevAssignsByCNF s;
     stats := stats s; more_red_minim_limit_binary_actual := more_red_minim_limit_binary_actual s;
     occsimplifier := occsimplifier s; assumptions := assumptions s; conflict := conflict s;
     frat_enabled := frat_enabled s; solveStats := solveStats s |}.

Definition upd_zeroLevAssignsByCNF (x : Z) (s : Solver) : Solver :=
  {| conf := conf s; ok := ok s; unsat_cl_ID := unsat_cl_ID s; clauseID := clauseID s;
     minNumVars := minNumVars s; assigns := assigns s; varData := varData s;
     interToOuterMain := interToOuterMain s; outerToInterMain := outerToInterMain s;
     trail := trail s; trail_lim := trail_lim s; qhead := qhead s; cl_alloc := cl_alloc s;
     longIrredCls := longIrredCls s; longRedCls := longRedCls s; xorclauses := xorclauses s;
     xorclauses_updated := xorclauses_updated s; num_bnns := num_bnns s;
     undef_must_set_vars := undef_must_set_vars s; litStats := litStats s; binTri := binTri s;
     sumConflicts := sumConflicts s; zeroLevAssignsByCNF := x; stats := stats s;
     more_red_minim_limit_binary_actual := more_red_minim_limit_binary_actual s;
     occsimplifier := occsimplifier s; assumptions := assumptions s; conflict := conflict s;
     frat_enabled := frat_enabled s; solveStats := solveStats s |}.

Definition upd_more_red_minim_limit_binary_actual (x : Z) (s : Solver) : Solver :=
  {| conf := conf s; ok := ok s; unsat_cl_ID := unsat_cl_ID s; clauseID := clauseID s;
     minNumVars := minNumVars s; assigns := assigns s; varData := varData s;
     interToOuterMain := interToOuterMain s; outerToInterMain := outerToInterMain s;
     trail := trail s; trail_lim := trail_lim s; qhead := qhead s; cl_alloc := cl_alloc s;
     longIrredCls := longIrredCls s; longRedCls := longRedCls s; xorclauses := xorclauses s;
     xorclauses_updated := xorclauses_updated s; num_bnns := num_bnns s;
     undef_must_set_vars := undef_must_set_vars s; litStats := litStats s; binTri := binTri s;
     sumConflicts := sumConflicts s; zeroLevAssignsByCNF := zeroLevAssignsByCNF s;
     stats := stats s; more_red_minim_limit_binary_actual := x; occsimplifier := occsimplifier s;
     assumptions := assumptions s; conflict := conflict s; frat_enabled := frat_enabled s;
     solveStats := solveStats s |}.

Definition upd_occsimplifier (x : OccSimplifier) (s : Solver) : Solver :=
  {| conf := conf s; ok := ok s; unsat_cl_ID := unsat_cl_ID s; clauseID := clauseID s;
     minNumVars := minNumVars s; assigns := assigns s; varData := varData s;
     interToOuterMain := interToOuterMain s; outerToInterMain := outerToInterMain s;
     trail := trail s; trail_lim := trail_lim s; qhead := qhead s; cl_alloc := cl_alloc s;
     longIrredCls := longIrredCls s; longRedCls := longRedCls s; xorclauses := xorclauses s;
     xorclauses_updated := xorclauses_updated s; num_bnns := num_bnns s;
     undef_must_set_vars := undef_must_set_vars s; litStats := litStats s; binTri := binTri s;
     sumConflicts := sumConflicts s; zeroLevAssignsByCNF := zeroLevAssignsByCNF s;
     stats := stats s; more_red_minim_limit_binary_actual := more_red_minim_limit_binary_actual s;
     occsimplifier := x; assumptions := assumptions s; conflict := conflict s;
     frat_enabled := frat_enabled s; solveStats := solveStats s |}.

Definition upd_assumptions (x : list Lit) (s : Solver) : Solver :=
  {| conf := conf s; ok := ok s; unsat_cl_ID := unsat_cl_ID s; clauseID := clauseID s;
     minNumVars := minNumVars s; assigns := assigns s; varData := varData s;
     interToOuterMain := interToOuterMain s; outerToInterMain := outerToInterMain s;
     trail := trail s; trail_lim := trail_lim s; qhead := qhead s; cl_alloc := cl_alloc s;
     longIrredCls := longIrredCls s; longRedCls := longRedCls s; xorclauses := xorclauses s;
     xorclauses_updated := xorclauses_updated s; num_bnns := num_bnns s;
     undef_must_set_vars := undef_must_set_vars s; litStats := litStats s; binTri := binTri s;
     sumConflicts := sumConflicts s; zeroLevAssignsByCNF := zeroLevAssignsByCNF s;
     stats := stats s; more_red_minim_limit_binary_actual := more_red_minim_limit_binary_actual s;
     occsimplifier := occsimplifier s; assumptions := x; conflict := conflict s;
     frat_enabled := frat_enabled s; solveStats := solveStats s |}.

Definition upd_conflict (x : list Lit) (s : Solver) : Solver :=
  {| conf := conf s; ok := ok s; unsat_cl_ID := unsat_cl_ID s; clauseID := clauseID s;
     minNumVars := minNumVars s; assigns := assigns s; varData := varData s;
     interToOuterMain := interToOuterMain s; outerToInterMain := outerToInterMain s;
     trail := trail s; trail_lim := trail_lim s; qhead := qhead s; cl_alloc := cl_alloc s;
     longIrredCls := longIrredCls s; longRedCls := longRedCls s; xorclauses := xorclauses s;
     xorclauses_updated := xorclauses_updated s; num_bnns := num_bnns s;
     undef_must_set_vars := undef_must_set_vars s; litStats := litStats s; binTri := binTri s;
     sumConflicts := sumConflicts s; zeroLevAssignsByCNF := zeroLevAssignsByCNF s;
     stats := stats s; more_red_minim_limit_binary_actual := more_red_minim_limit_binary_actual s;
     occsimplifier := occsimplifier s; assumptions := assumptions s; conflict := x;
     frat_enabled := frat_enabled s; solveStats := solveStats s |}.

Definition upd_solveStats (x : SolveStats) (s : Solver) : Solver :=
  {| conf := conf s; ok := ok s; unsat_cl_ID := unsat_cl_ID s; clauseID := clauseID s;
     minNumVars := minNumVars s; assigns := assigns s; varData := varData s;
     interToOuterMain := interToOuterMain s; outerToInterMain := outerToInterMain s;
     trail := trail s; trail_lim := trail_lim s; qhead := qhead s; cl_alloc := cl_alloc s;
     longIrredCls := longIrredCls s; longRedCls := longRedCls s; xorclauses := xorclauses s;
     xorclauses_updated := xorclauses_updated s; num_bnns := num_bnns s;
     undef_must_set_vars := undef_must_set_vars s; litStats := litStats s; binTri := binTri s;
     sumConflicts := sumConflicts s; zeroLevAssignsByCNF := zeroLevAssignsByCNF s;
     stats := stats s; more_red_minim_limit_binary_actual := more_red_minim_limit_binary_actual s;
     occsimplifier := occsimplifier s; assumptions := assumptions s; conflict := conflict s;
     frat_enabled := frat_enabled s; solveStats := x |}.

Definition upd_stats (x : SearchStats) (s : Solver) : Solver :=
  {| conf := conf s; ok := ok s; unsat_cl_ID := unsat_cl_ID s; clauseID := clauseID s;
     minNumVars := minNumVars s; assigns := assigns s; varData := varData s;
     interToOuterMain := interToOuterMain s; outerToInterMain := outerToInterMain s;
     trail := trail s; trail_lim := trail_lim s; qhead := qhead s; cl_alloc := cl_alloc s;
     longIrredCls := longIrredCls s; longRedCls := longRedCls s; xorclauses := xorclauses s;
     xorclauses_updated := xorclauses_updated s; num_bnns := num_bnns s;
     undef_must_set_vars := undef_must_set_vars s; litStats := litStats s; binTri := binTri s;
     sumConflicts := sumConflicts s; zeroLevAssignsByCNF := zeroLevAssignsByCNF s; stats := x;
     more_red_minim_limit_binary_actual := more_red_minim_limit_binary_actual s;
     occsimplifier := occsimplifier s; assumptions := assumptions s; conflict := conflict s;
     frat_enabled := frat_enabled s; solveStats := solveStats s |}.


(** ** Outcomes *)

(** What a call can end in: a normal return with the state it leaves, a
    thrown [CMSat::TooLongClauseError] (the state at the throw is what
    the caller's handler sees), a call of [exit] with its status and the
    diagnostic written before it, or a failed [assert]. *)
Inductive Outcome (A : Type) : Type :=
| Returns (a : A) (s : Solver)
| Throws (s : Solver)
| Exits (code : Z) (msg : string)
| AssertFails.

Arguments Returns {A} a s.
Arguments Throws {A} s.
Arguments Exits {A} code msg.
Arguments AssertFails {A}.

Definition bind {A B : Type} (m : Outcome A) (k : A -> Solver -> Outcome B)
  : Outcome B :=
  match m with
  | Returns a s => k a s
  | Throws s => Throws s
  | Exits c msg => Exits c msg
  | AssertFails => AssertFails
  end.

Notation "'let*' ( x , s ) := m 'in' k" := (bind m (fun x s => k))
  (at level 10, x name, s name, m at level 200, k at level 200).

(** [assert(c); k] *)
Definition assert_then {A : Type} (c : bool) (k : Outcome A) : Outcome A :=
  if c then k else AssertFails.

(** ** Collaborators *)

(** The code that [solver.cpp] calls into and that lives in other
    translation units. A field that returns a [bool] next to the state
    models a call whose result the caller tests. *)
Record Env : Type := mkEnv {
  (* constants of headers *)
  lit_Undef : Lit;
  MAX_XOR_RECOVER_SIZE : Z;
  default_ClauseStats : ClauseStats;          (* a default-constructed [ClauseStats] *)
  (* the environment: wall clock and interrupt flag *)
  cpuTime_gt_maxTime : Solver -> bool;        (* [cpuTime() > conf.maxTime] *)
  must_interrupt_asap : Solver -> bool;
  (* propagator *)
  propagate : Solver -> bool * Solver;        (* [propagate<true>().isNULL()] *)
  PropEngine_attachClause : Clause -> Solver -> Solver;
  PropEngine_attach_bin_clause : Lit -> Lit -> bool -> Z -> Solver -> Solver;
  attach_xor_clause : nat -> Solver -> Solver;
  (* new variables *)
  Searcher_new_var : bool -> Z -> bool -> Solver -> Solver;
  varReplacer_new_var : Z -> Solver -> Solver;
  occsimplifier_new_var : Z -> Solver -> Solver;
  datasync_new_var : bool -> Solver -> Solver;
  (* variable replacement and elimination *)
  get_lit_replaced_with_outer : Solver -> Lit -> Lit;
  uneliminate : nat -> Solver -> bool * Solver;
  (* XOR cleaning *)
  clean_xor_no_prop : Solver -> list Lit -> bool -> list Lit * bool;
  (* assumptions *)
  copy_assumptions : option (list Lit) -> Solver -> Solver;
  fill_assumptions_set : Solver -> Solver;
  unfill_assumptions_set : Solver -> Solver;
  var_inside_assumptions : Solver -> nat -> lbool;
  update_assump_conflict_to_orig_outer : Solver -> Solver;
  extend_solution : bool -> Solver -> Solver;
  (* renumbering *)
  clear_gauss_matrices : Solver -> bool * Solver;
  remove_and_clean_all : Solver -> bool * Solver;
  updateVars : list nat -> list nat -> Solver -> Solver;
  save_on_var_memory : nat -> Solver -> Solver;
  (* inprocessing passes *)
  occsimplifier_simplify : bool -> string -> Solver -> Solver;
  replace_if_enough_is_found : bool -> Solver -> Solver;
  oracle_vivif : Solver -> bool * bool * Solver;        (* result, [finished] *)
  oracle_sparsify : Solver -> Solver;
  backbone_simpl : Solver -> bool * Solver;             (* [finished] *)
  full_probe : Solver -> bool * Solver;
  subsume_implicit : Solver -> Solver;
  intree_probe : Solver -> Solver;
  distill_long_with_implicit : bool -> Solver -> Solver;
  distill_bin : Solver -> Solver;
  distill_lit_rem : Solver -> Solver;
  distill_long : bool -> bool -> Solver -> Solver;
  str_impl_w_impl : Solver -> Solver;
  consolidate : Solver -> Solver
}.

(** ** Reading the state *)

Definition okay (s : Solver) : bool := ok s.
Definition nVars (s : Solver) : nat := minNumVars s.
Definition nVarsOuter (s : Solver) : nat := length (assigns s).
Definition decisionLevel (s : Solver) : nat := length (trail_lim s).

(** [value(v)] and [value(lit)]. The source indexes [assigns] without a
    bounds check; a variable beyond the vector reads as [l_Undef] here. *)
Definition value_var (s : Solver) (v : nat) : lbool := nth v (assigns s) l_Undef.
Definition value (s : Solver) (l : Lit) : lbool :=
  lbool_xor (value_var s (var l)) (sign l).

Definition removed (s : Solver) (v : nat) : Removed := nth v (varData s) Removed_none.

Definition map_inter_to_outer (s : Solver) (v : nat) : nat :=
  nth v (interToOuterMain s) v.
Definition map_outer_to_inter (s : Solver) (l : Lit) : Lit :=
  mkLit (nth (var l) (outerToInterMain s) (var l)) (sign l).

Definition get_num_vars_elimed (s : Solver) : Z :=
  if perform_occur_based_simp (conf s) then num_elimed_vars (occsimplifier s) else 0.

(** The size of a vector, as the unsigned number the source compares. *)
Definition size {A : Type} (v : list A) : Z := Z.of_nat (length v).

(** Decimal rendering of a number in a diagnostic. *)
Definition show_nat (n : nat) : string := NilZero.string_of_uint (Nat.to_uint n).

(** ** Adding clauses *)

(** [std::sort] on literals, which are ordered by their encoding. *)
Definition sort_lits (ps : list Lit) : list Lit := merge_sort Z.le ps.

(** Modelled from the spec: [enqueue] belongs to the propagation engine.
    "precondition [value(lit) = undef]; postcondition [value(lit) = true],
    entry appended". *)
Definition enqueue (l : Lit) (s : Solver) : Solver :=
  upd_trail (trail s ++ [l])
    (upd_assigns (<[var l := if sign l then l_False else l_True]> (assigns s)) s).

(** Modelled from the spec: [Clause_new] belongs to the clause arena.
    "reserve space, write header and literals, return handle. Fails only
    on arithmetic overflow (size >= 2^28 literals)". The new clause is
    irredundant, carries the given ID and has no flag set. *)
Definition Clause_new (E : Env) (ps : list Lit) (conflictNum : Z) (id : Z)
  (s : Solver) : Outcome ClOffset :=
  if 2 ^ 28 <=? size ps then Throws s
  else
    let c := {| cl_lits := ps; isRed := false;
                cl_stats := {| ID := id;
                               which_red_array := which_red_array (default_ClauseStats E) |};
                introduced_at_conflict := conflictNum;
                distilled := false; tried_to_remove := false |} in
    Returns (length (cl_alloc s)) (upd_cl_alloc (cl_alloc s ++ [c]) s).

Definition set_isRed (b : bool) (c : Clause) : Clause :=
  {| cl_lits := cl_lits c; isRed := b; cl_stats := cl_stats c;
     introduced_at_conflict := introduced_at_conflict c;
     distilled := distilled c; tried_to_remove := tried_to_remove c |}.

Definition set_cl_stats (st : ClauseStats) (c : Clause) : Clause :=
  {| cl_lits := cl_lits c; isRed := isRed c; cl_stats := st;
     introduced_at_conflict := introduced_at_conflict c;
     distilled := distilled c; tried_to_remove := tried_to_remove c |}.

(** [litStats.redLits += n] or [litStats.irredLits += n] *)
Definition add_litStats (red : bool) (n : Z) (s : Solver) : Solver :=
  let st := litStats s in
  upd_litStats
    (if red then {| irredLits := irredLits st; redLits := redLits st + n |}
     else {| irredLits := irredLits st + n; redLits := redLits st |}) s.

(** [Solver::attachClause] *)
Definition attachClause (E : Env) (c : Clause) (s : Solver) : Solver :=
  PropEngine_attachClause E c (add_litStats (isRed c) (size (cl_lits c)) s).

(** [Solver::attach_bin_clause] *)
Definition attach_bin_clause (E : Env) (lit1 lit2 : Lit) (red : bool) (id : Z)
  (s : Solver) : Solver :=
  let bt := binTri s in
  let s1 :=
    upd_binTri
      (if red then {| irredBins := irredBins bt; redBins := redBins bt + 1 |}
       else {| irredBins := irredBins bt + 1; redBins := redBins bt |}) s in
  PropEngine_attach_bin_clause E lit1 lit2 red id s1.

(** The side effect of the tautology exit of [sort_and_clean_clause]:
    the outer variable of [p] is flagged in [undef_must_set_vars], which
    is grown with [false] when too short. *)
Definition flag_undef_must_set (p : Lit) (s : Solver) : Solver :=
  let v := map_inter_to_outer s (var p) in
  let u := undef_must_set_vars s in
  let u' := if (length u <? v + 1)%nat then resize (v + 1) false u else u in
  upd_undef_must_set_vars (<[v := true]> u') s.

(** The loop of [Solver::sort_and_clean_clause] over the sorted
    literals: [p] is the last literal kept ([lit_Undef] at the start) and
    [kept] the prefix [ps[0..j)] written so far. [None] is the [false]
    return, [Some kept] the [true] return with [ps] resized to [kept]. *)
Fixpoint clean_loop (E : Env) (red : bool) (ps : list Lit) (p : Lit)
  (kept : list Lit) (s : Solver) : Outcome (option (list Lit)) :=
  match ps with
  | [] => Returns (Some kept) s
  | l :: rest =>
      if lbool_eqb (value s l) l_True then Returns None s
      else if l =? lit_neg p then
        Returns None (if red then s else flag_undef_must_set p s)
      else if negb (lbool_eqb (value s l) l_False) && negb (l =? p) then
        assert_then (Removed_eqb (removed s (var l)) Removed_none)
          (clean_loop E red rest l (kept ++ [l]) s)
      else clean_loop E red rest p kept s
  end.

(** [Solver::sort_and_clean_clause] *)
Definition sort_and_clean_clause (E : Env) (ps : list Lit) (red sorted : bool)
  (s : Solver) : Outcome (option (list Lit)) :=
  let ps := if sorted then ps else sort_lits ps in
  clean_loop E red ps (lit_Undef E) [] s.

Definition list_Z_eqb (a b : list Z) : bool := bool_decide (a = b).

(** [Solver::add_clause_int]. The result is the handle of the clause
    when a long clause was allocated ([NULL] otherwise) together with the
    content of the optional out-parameter [finalLits]. [addDrat] and
    [frat_first] only steer what is written to the proof stream, apart
    from the two assertions of the [remove_frat] path. *)
Definition add_clause_int (E : Env) (lits : list Lit) (red : bool)
  (stats_in : option ClauseStats) (attach_long : bool) (addDrat : bool)
  (frat_first : Lit) (sorted remove_frat : bool) (s : Solver)
  : Outcome (option ClOffset * list Lit) :=
  assert_then (okay s) (
  assert_then (decisionLevel s =? 0)%nat (
  assert_then (negb attach_long || (qhead s =? length (trail s))%nat) (
  let* (r, s) := sort_and_clean_clause E lits red sorted s in
  match r with
  | None => Returns (None, []) s
  | Some ps =>
      let* (id, s) :=
        (if remove_frat then
           match stats_in with
           | None => AssertFails
           | Some st =>
               assert_then (frat_first =? lit_Undef E) (
               assert_then addDrat (
               if negb (list_Z_eqb ps lits)
               then Returns (clauseID s + 1) (upd_clauseID (clauseID s + 1) s)
               else Returns (ID st) s))
           end
         else Returns (clauseID s + 1) (upd_clauseID (clauseID s + 1) s)) in
      match ps with
      | [] =>
          assert_then (unsat_cl_ID s =? 0)
            (Returns (None, ps) (upd_ok false (upd_unsat_cl_ID (clauseID s) s)))
      | [l] =>
          let s := enqueue l s in
          if attach_long then
            let '(no_confl, s) := propagate E s in
            Returns (None, ps) (upd_ok no_confl s)
          else Returns (None, ps) s
      | [l1; l2] => Returns (None, ps) (attach_bin_clause E l1 l2 red id s)
      | _ =>
          let* (offs, s) := Clause_new E ps (sumConflicts s) id s in
          let upd (c : Clause) : Clause :=
            let c := set_isRed red c in
            match stats_in with
            | Some st => set_cl_stats {| ID := id; which_red_array := which_red_array st |} c
            | None => c
            end in
          let s := upd_cl_alloc (alter upd offs (cl_alloc s)) s in
          assert_then (negb (red && negb (bool_decide (is_Some stats_in)))) (
          match cl_alloc s !! offs with
          | None => AssertFails
          | Some c =>
              if attach_long then Returns (Some offs, ps) (attachClause E c s)
              else Returns (Some offs, ps) (add_litStats red (size ps) s)
          end)
      end
  end))).

(** [Solver::new_var] *)
Definition new_var (E : Env) (bva : bool) (orig_outer : Z) (insert_varorder : bool)
  (s : Solver) : Solver :=
  let s := Searcher_new_var E bva orig_outer insert_varorder s in
  let s := varReplacer_new_var E orig_outer s in
  let s := if perform_occur_based_simp (conf s)
           then occsimplifier_new_var E orig_outer s else s in
  if orig_outer =? 2 ^ 32 - 1 then datasync_new_var E bva s else s.

(** First loop of [Solver::add_clause_helper]: range check, undoing of
    variable replacement, creation of missing internal variables. *)
Fixpoint helper_replace_loop (E : Env) (ps : list Lit) (s : Solver)
  : Outcome (list Lit) :=
  match ps with
  | [] => Returns [] s
  | lit :: rest =>
      if (nVarsOuter s <=? var lit)%nat then
        Exits (-1) ("ERROR: Variable " ++ show_nat (var lit + 1)
                    ++ " inserted, but max var is " ++ show_nat (nVarsOuter s))
      else
        let lit := get_lit_replaced_with_outer E s lit in
        let s := if (nVars s <=? var (map_outer_to_inter s lit))%nat
                 then new_var E false (Z.of_nat (var lit)) false s else s in
        let* (rest', s) := helper_replace_loop E rest s in
        Returns (lit :: rest') s
  end.

(** [renumber_outer_to_inter_lits] *)
Definition renumber_outer_to_inter_lits (s : Solver) (ps : list Lit) : list Lit :=
  map (map_outer_to_inter s) ps.

(** Second loop of [Solver::add_clause_helper]: un-elimination. [false]
    is the early [return false]. *)
Fixpoint helper_unelim_loop (E : Env) (ps : list Lit) (s : Solver) : Outcome bool :=
  match ps with
  | [] => Returns true s
  | lit :: rest =>
      let '(good, s) :=
        if Removed_eqb (removed s (var lit)) Removed_elimed
        then uneliminate E (var lit) s else (true, s) in
      if negb good then Returns false s
      else
        assert_then (Removed_eqb (removed s (var lit)) Removed_none)
          (helper_unelim_loop E rest s)
  end.

(** [Solver::add_clause_helper]; the second component of the result is
    the clause as the function leaves it in [ps]. *)
Definition add_clause_helper (E : Env) (ps : list Lit) (s : Solver)
  : Outcome (bool * list Lit) :=
  if negb (ok s) then Returns (false, ps) s
  else
    assert_then (decisionLevel s =? 0)%nat (
    assert_then (qhead s =? length (trail s))%nat (
    if 2 ^ 28 <? size ps then Throws s
    else
      let* (ps, s) := helper_replace_loop E ps s in
      let ps := renumber_outer_to_inter_lits s ps in
      if negb (get_num_vars_elimed s =? 0) then
        let* (good, s) := helper_unelim_loop E ps s in
        Returns (good, ps) s
      else Returns (true, ps) s)).

Definition blocked_msg : string :=
  "ERROR: Cannot add new clauses to the system if blocking was enabled. Turn it off from conf.doBlockClauses".

(** [Solver::add_clause_outer] *)
Definition add_clause_outer (E : Env) (ps : list Lit) (red : bool) (s : Solver)
  : Outcome bool :=
  if perform_occur_based_simp (conf s) && anythingHasBeenElimed (occsimplifier s)
  then Exits (-1) blocked_msg
  else
    let s := upd_clauseID (clauseID s + 1) s in
    let clstats :=
      {| ID := clauseID s;
         which_red_array := if red then 2 else which_red_array (default_ClauseStats E) |} in
    let origTrailSize := size (trail s) in
    let* (r, s) := add_clause_helper E ps s in
    let '(good, ps) := r in
    if negb good then Returns false s
    else
      let ps := sort_lits ps in
      assert_then (negb (red && frat_enabled s)) (
      let* (r, s) :=
        add_clause_int E ps red (Some clstats) true true (lit_Undef E) true true s in
      let s :=
        match fst r with
        | Some offset =>
            if negb red then upd_longIrredCls (longIrredCls s ++ [offset]) s
            else upd_longRedCls (alter (fun t => t ++ [offset]) 2%nat (longRedCls s)) s
        | None => s
        end in
      let s := upd_zeroLevAssignsByCNF
                 (zeroLevAssignsByCNF s + (size (trail s) - origTrailSize)) s in
      Returns (ok s) s).

(** [Solver::add_clause_outside] *)
Definition add_clause_outside (E : Env) (lits : list Lit) (red : bool) (s : Solver)
  : Outcome bool :=
  if negb (ok s) then Returns false s
  else add_clause_outer E lits red s.

(** The sign normalisation at the head of [add_xor_clause_inter]: every
    negated literal is made positive and flips the right-hand side. *)
Fixpoint xor_strip_signs (ps : list Lit) (rhs : bool) : list Lit * bool :=
  match ps with
  | [] => ([], rhs)
  | lit :: rest =>
      let '(rest', rhs') :=
        xor_strip_signs rest (if sign lit then xorb rhs true else rhs) in
      ((if sign lit then lit_xor lit true else lit) :: rest', rhs')
  end.

Definition add_clause_int_default (E : Env) (ps : list Lit) (s : Solver)
  : Outcome (option ClOffset * list Lit) :=
  add_clause_int E ps false None true true (lit_Undef E) false false s.

(** [Solver::add_xor_clause_inter] *)
Definition add_xor_clause_inter (E : Env) (lits : list Lit) (rhs attach addDrat : bool)
  (s : Solver) : Outcome bool :=
  assert_then (okay s) (
  assert_then (negb attach || (qhead s =? length (trail s))%nat) (
  assert_then (decisionLevel s =? 0)%nat (
  let '(ps, rhs) := xor_strip_signs lits rhs in
  let '(ps, rhs) := clean_xor_no_prop E s ps rhs in
  if 2 ^ 28 <=? size ps then Throws s
  else
    match ps with
    | [] =>
        if rhs then
          let s := upd_ok false (upd_clauseID (clauseID s + 1) s) in
          Returns (okay s) s
        else Returns (okay s) s
    | [l] =>
        let* (_r, s) := add_clause_int_default E [lit_xor l (negb rhs)] s in
        Returns (okay s) s
    | [l1; l2] =>
        let p0 := lit_xor l1 (negb rhs) in
        let* (_r, s) := add_clause_int_default E [p0; l2] s in
        let* (_r, s) := add_clause_int_default E [lit_xor p0 true; lit_xor l2 true] s in
        Returns (okay s) s
    | _ =>
        assert_then (negb (frat_enabled s && addDrat)) (
        let s := upd_xorclauses_updated true s in
        let s := upd_xorclauses (xorclauses s ++ [{| xor_vars := ps; xor_rhs := rhs |}]) s in
        let s := attach_xor_clause E (length (xorclauses s) - 1)%nat s in
        Returns (okay s) s)
    end))).

(** ** Solving: the entry sequence of [solve_with_assumptions] *)

Definition show_Z (z : Z) : string := NilZero.string_of_int (Z.to_int z).

(** [Solver::check_xor_cut_config_sanity] *)
Definition check_xor_cut_config_sanity (E : Env) (s : Solver) : Outcome unit :=
  if xor_var_per_cut (conf s) <? 1 then
    Exits (-1) ("ERROR: Too low cutting number: " ++ show_Z (xor_var_per_cut (conf s))
                ++ ". Needs to be at least 1.")
  else if MAX_XOR_RECOVER_SIZE E <? 4 then
    Exits (-1) ("ERROR: MAX_XOR_RECOVER_SIZE  must be at least 4. It's currently: "
                ++ show_Z (MAX_XOR_RECOVER_SIZE E))
  else if MAX_XOR_RECOVER_SIZE E <? xor_var_per_cut (conf s) + 2 then
    Exits (-1) ("ERROR: Too high cutting number, we will not be able to recover cut XORs due to MAX_XOR_RECOVER_SIZE only being "
                ++ show_Z (MAX_XOR_RECOVER_SIZE E))
  else Returns tt s.

(** [Solver::check_and_upd_config_parameters], for a build without
    BreakID and Bosphorus. *)
Definition check_and_upd_config_parameters (E : Env) (s : Solver) : Outcome unit :=
  if 1000 <? max_glue_cutoff_gluehistltlimited (conf s) then
    Exits (-1) "ERROR: 'Maximum supported glue size is currently 1000"
  else if shortTermHistorySize (conf s) <=? 0 then
    Exits (-1) "ERROR: You MUST give a short term history size (--gluehist)  greater than 0!"
  else
    let s :=
      if (frat_enabled s || simulate_frat (conf s))
         && negb (do_hyperbin_and_transred (conf s))
      then upd_conf (conf_set_do_hyperbin_and_transred true (conf s)) s else s in
    if blocking_restart_trail_hist_length (conf s) =? 0 then
      Exits (-1) "ERROR: Blocking restart length must be at least 0"
    else check_xor_cut_config_sanity E s.

(** [Solver::upd_assumptions] *)
Definition set_assumptions (E : Env) (s : Solver) : Outcome unit :=
  let s := upd_conflict [] s in
  let* (_r, s) := add_clause_helper E (assumptions s) s in
  Returns tt (fill_assumptions_set E s).

(** [Solver::uneliminate_sampling_set] *)
Definition uneliminate_sampling_set (E : Env) (s : Solver) : Outcome unit :=
  match sampling_vars (conf s) with
  | None => Returns tt s
  | Some vs =>
      let* (_r, s) := add_clause_helper E (map (fun v => mkLit v false) vs) s in
      Returns tt s
  end.

(** [Solver::reset_for_solving], without the fields of the restart and
    polarity heuristics. *)
Definition reset_for_solving (E : Env) (s : Solver) : Outcome unit :=
  let* (_u, s) := set_assumptions E s in
  let* (_u, s) := uneliminate_sampling_set E s in
  let st := solveStats s in
  let s := upd_solveStats
             {| num_simplify := num_simplify st;
                num_solve_calls := num_solve_calls st + 1;
                num_simplify_this_solve_call := num_simplify_this_solve_call st |} s in
  let* (_u, s) := check_and_upd_config_parameters E s in
  let st := solveStats s in
  Returns tt (upd_solveStats
                {| num_simplify := num_simplify st;
                   num_solve_calls := num_solve_calls st;
                   num_simplify_this_solve_call := 0 |} s).

(** Modelled from the spec: [cancelUntil] belongs to the search engine.
    "pop every entry above [level_start[d]], restoring each variable to
    undef", here for [d = 0]. *)
Definition cancelUntil_0 (s : Solver) : Solver :=
  match trail_lim s with
  | [] => s
  | lim :: _ =>
      let unassign (a : list lbool) (l : Lit) := <[var l := l_Undef]> a in
      upd_qhead (Nat.min (qhead s) lim)
        (upd_trail_lim []
           (upd_trail (take lim (trail s))
              (upd_assigns (fold_left unassign (drop lim (trail s)) (assigns s)) s)))
  end.

(** The assertion loop of [handle_found_solution] over the final
    conflict. *)
Definition conflict_lits_assumed (E : Env) (s : Solver) : bool :=
  forallb (fun l => negb (lbool_eqb (value s l) l_Undef)
                    || negb (lbool_eqb (var_inside_assumptions E s (var l)) l_Undef))
          (conflict s).

(** [Solver::handle_found_solution] *)
Definition handle_found_solution (E : Env) (status : lbool) (only_sampling : bool)
  (s : Solver) : Outcome unit :=
  match status with
  | l_True =>
      let s := cancelUntil_0 (extend_solution E only_sampling s) in
      assert_then (qhead s =? length (trail s))%nat (Returns tt s)
  | l_False =>
      let s := cancelUntil_0 s in
      assert_then (conflict_lits_assumed E s)
        (Returns tt (if conf_needed (conf s)
                     then update_assump_conflict_to_orig_outer E s else s))
  | l_Undef => Returns tt s
  end.

(** The configuration passes [check_and_upd_config_parameters]. *)
Definition config_sane (E : Env) (c : SolverConf) : Prop :=
  max_glue_cutoff_gluehistltlimited c <= 1000
  /\ 0 < shortTermHistorySize c
  /\ blocking_restart_trail_hist_length c <> 0
  /\ 1 <= xor_var_per_cut c
  /\ 4 <= MAX_XOR_RECOVER_SIZE E
  /\ xor_var_per_cut c + 2 <= MAX_XOR_RECOVER_SIZE E.

(** What the entry and exit sequence of a solve call relies on from the
    assumption bookkeeping of the search engine: it never touches the
    [ok] flag or the decision levels, and the part that runs before the
    sanity checks leaves the configuration and the (cleared) final
    conflict alone. *)
Record assumption_helpers_frame (E : Env) : Prop := {
  copy_assumptions_frame : forall a s,
    ok (copy_assumptions E a s) = ok s /\ conf (copy_assumptions E a s) = conf s;
  fill_assumptions_set_frame : forall s,
    ok (fill_assumptions_set E s) = ok s
    /\ conf (fill_assumptions_set E s) = conf s
    /\ conflict (fill_assumptions_set E s) = conflict s;
  update_assump_conflict_frame : forall s,
    ok (update_assump_conflict_to_orig_outer E s) = ok s
    /\ trail_lim (update_assump_conflict_to_orig_outer E s) = trail_lim s;
  unfill_assumptions_set_frame : forall s,
    ok (unfill_assumptions_set E s) = ok s
    /\ trail_lim (unfill_assumptions_set E s) = trail_lim s
}.

(** The two phases of a solve call that do the work: simplification and
    the search loop. Both are arguments of the model of
    [solve_with_assumptions]. *)
Record SearchPhases : Type := mkSearchPhases {
  simplify_problem : bool -> string -> Solver -> Outcome lbool;
  iterate_until_solved : Solver -> Outcome lbool
}.

Definition is_nil {A : Type} (l : list A) : bool :=
  match l with [] => true | _ => false end.

(** [Solver::solve_with_assumptions]. [None] for [_assumptions] is the
    null pointer. *)
Definition solve_with_assumptions (E : Env) (P : SearchPhases)
  (_assumptions : option (list Lit)) (only_sampling_solution : bool) (s : Solver)
  : Outcome lbool :=
  let s := copy_assumptions E _assumptions s in
  let* (_u, s) := reset_for_solving E s in
  let* (status, s) :=
    (if negb (okay s) then
       assert_then (is_nil (conflict s)) (Returns l_False s)
     else
       assert_then (qhead s =? length (trail s))%nat (
       let* (status, s) :=
         (if (0 <? nVars s)%nat
             && do_simplify_problem (conf s)
             && simplify_at_startup (conf s)
             && ((num_simplify (solveStats s) =? 0) || simplify_at_every_startup (conf s))
          then simplify_problem P
                 (negb (full_simplify_at_startup (conf s)))
                 (if negb (full_simplify_at_startup (conf s))
                  then simplify_schedule_startup (conf s)
                  else simplify_schedule_nonstartup (conf s)) s
          else Returns l_Undef s) in
       if lbool_eqb status l_Undef then iterate_until_solved P s
       else Returns status s)) in
  let* (_u, s) := handle_found_solution E status only_sampling_solution s in
  let s := unfill_assumptions_set E s in
  let s := upd_assumptions [] s in
  let s := upd_conf (conf_set_conf_needed true (conf_set_max_confl uint64_max (conf s))) s in
  assert_then (decisionLevel s =? 0)%nat (
  assert_then (negb (ok s) || (qhead s =? length (trail s))%nat) (
  assert_then
    (negb (match _assumptions with None => true | Some a => is_nil a end
           && lbool_eqb status l_False) || negb (okay s))
    (Returns status s))).

(** ** Variable renumbering *)

(** The test shared by [calculate_interToOuter_and_outerToInter],
    [calc_renumber_saving] and [test_renumbering]: the variable has a
    value, or was eliminated, or was replaced. *)
Definition var_is_dead (s : Solver) (i : nat) : bool :=
  negb (lbool_eqb (value_var s i) l_Undef)
  || Removed_eqb (removed s i) Removed_elimed
  || Removed_eqb (removed s i) Removed_replaced.

(** The working variables of [calculate_interToOuter_and_outerToInter]. *)
Record RenumberMaps : Type := mkRenumberMaps {
  rm_at : nat;
  rm_useless : list nat;
  rm_numEffectiveVars : nat;
  rm_outerToInter : list nat;
  rm_interToOuter : list nat
}.

(** One round of the first loop, for variable [i]. *)
Definition calc_step_live (s : Solver) (m : RenumberMaps) (i : nat) : RenumberMaps :=
  if var_is_dead s i then
    {| rm_at := rm_at m; rm_useless := rm_useless m ++ [i];
       rm_numEffectiveVars := rm_numEffectiveVars m;
       rm_outerToInter := rm_outerToInter m; rm_interToOuter := rm_interToOuter m |}
  else
    {| rm_at := S (rm_at m); rm_useless := rm_useless m;
       rm_numEffectiveVars := S (rm_numEffectiveVars m);
       rm_outerToInter := <[i := rm_at m]> (rm_outerToInter m);
       rm_interToOuter := <[rm_at m := i]> (rm_interToOuter m) |}.

(** One round of the second loop, for the set-aside variable [v]. *)
Definition calc_step_useless (m : RenumberMaps) (v : nat) : RenumberMaps :=
  {| rm_at := S (rm_at m); rm_useless := rm_useless m;
     rm_numEffectiveVars := rm_numEffectiveVars m;
     rm_outerToInter := <[v := rm_at m]> (rm_outerToInter m);
     rm_interToOuter := <[rm_at m := v]> (rm_interToOuter m) |}.

(** One round of the third loop: identity beyond [nVars()]. *)
Definition calc_step_identity (m : RenumberMaps) (i : nat) : RenumberMaps :=
  {| rm_at := rm_at m; rm_useless := rm_useless m;
     rm_numEffectiveVars := rm_numEffectiveVars m;
     rm_outerToInter := <[i := i]> (rm_outerToInter m);
     rm_interToOuter := <[i := i]> (rm_interToOuter m) |}.

Definition calc_loops (s : Solver) (outerToInter interToOuter : list nat)
  : RenumberMaps * RenumberMaps :=
  let m0 := {| rm_at := 0; rm_useless := []; rm_numEffectiveVars := 0;
               rm_outerToInter := outerToInter; rm_interToOuter := interToOuter |} in
  let m1 := fold_left (calc_step_live s) (seq 0 (nVars s)) m0 in
  let m2 := fold_left calc_step_useless (rm_useless m1) m1 in
  (m2, fold_left calc_step_identity (seq (nVars s) (nVarsOuter s - nVars s)) m2).

(** [Solver::calculate_interToOuter_and_outerToInter]: the number of
    effective variables and the two vectors as the call leaves them. *)
Definition calculate_interToOuter_and_outerToInter (s : Solver)
  (outerToInter interToOuter : list nat) : Outcome (nat * list nat * list nat) :=
  let '(m2, m3) := calc_loops s outerToInter interToOuter in
  assert_then (rm_at m2 =? nVars s)%nat
    (Returns (rm_numEffectiveVars m3, rm_outerToInter m3, rm_interToOuter m3) s).

(** [num_used] of [calc_renumber_saving]. *)
Definition num_used (s : Solver) : nat :=
  length (List.filter (fun i => negb (var_is_dead s i)) (seq 0 (nVars s))).

(** [Solver::calc_renumber_saving] *)
Definition calc_renumber_saving (s : Solver) : double :=
  d_sub d_1_0 (d_div (d_of_Z (Z.of_nat (num_used s))) (d_of_Z (Z.of_nat (nVars s)))).

(** [getUpdatedLit] and [updateLitsMap]: a literal moves to the new
    index of its variable and keeps its sign. *)
Definition getUpdatedLit (outerToInter : list nat) (l : Lit) : Lit :=
  mkLit (nth (var l) outerToInter 0%nat) (sign l).

Definition update_clause_lits (outerToInter : list nat) (c : Clause) : Clause :=
  {| cl_lits := map (getUpdatedLit outerToInter) (cl_lits c); isRed := isRed c;
     cl_stats := cl_stats c; introduced_at_conflict := introduced_at_conflict c;
     distilled := distilled c; tried_to_remove := tried_to_remove c |}.

(** [Solver::renumber_clauses], on the long clauses and the XOR
    constraints. *)
Definition renumber_clauses (outerToInter : list nat) (s : Solver) : Solver :=
  let upd_at (a : list Clause) (offs : ClOffset) :=
    alter (update_clause_lits outerToInter) offs a in
  let a := fold_left upd_at (longIrredCls s) (cl_alloc s) in
  let a := fold_left (fun a tier => fold_left upd_at tier a) (longRedCls s) a in
  let xs := map (fun x => {| xor_vars := map (getUpdatedLit outerToInter) (xor_vars x);
                             xor_rhs := xor_rhs x |}) (xorclauses s) in
  upd_xorclauses xs (upd_xorclauses_updated true (upd_cl_alloc a s)).

(** [Solver::test_renumbering]: [true] when the assertion holds. *)
Definition test_renumbering (s : Solver) : bool :=
  let step (st : bool * bool) (i : nat) : bool * bool :=
    let '(uninteresting, problem) := st in
    let uninteresting := uninteresting || negb (lbool_eqb (value_var s i) l_Undef) in
    let uninteresting :=
      uninteresting || Removed_eqb (removed s i) Removed_elimed
      || Removed_eqb (removed s i) Removed_replaced in
    let problem :=
      problem || (lbool_eqb (value_var s i) l_Undef
                  && negb (Removed_eqb (removed s i) Removed_elimed)
                  && negb (Removed_eqb (removed s i) Removed_replaced)
                  && uninteresting) in
    (uninteresting, problem) in
  negb (snd (fold_left step (seq 0 (nVars s)) (false, false))).

(** [Solver::renumber_variables]. [updateVars] of the environment stands
    for the updates of the base classes and of the helper objects. *)
Definition renumber_variables (E : Env) (must_renumber : bool) (s : Solver)
  : Outcome bool :=
  assert_then (okay s) (
  assert_then (decisionLevel s =? 0)%nat (
  if (nVars s =? 0)%nat then Returns (okay s) s
  else if negb must_renumber && d_lt (calc_renumber_saving s) d_0_2
  then Returns (okay s) s
  else
    let '(good, s) := clear_gauss_matrices E s in
    if negb good then Returns false s
    else
      let '(good, s) := remove_and_clean_all E s in
      if negb good then Returns false s
      else
        let* (r, s) :=
          calculate_interToOuter_and_outerToInter s
            (replicate (nVarsOuter s) 0%nat) (replicate (nVarsOuter s) 0%nat) in
        let '(numEffectiveVars, outerToInter, interToOuter) := r in
        let s := renumber_clauses outerToInter s in
        let s := updateVars E outerToInter interToOuter s in
        assert_then (test_renumbering s) (
        let s := if doSaveMem (conf s)
                 then save_on_var_memory E numEffectiveVars
                        (upd_minNumVars numEffectiveVars s)
                 else s in
        Returns (okay s) s))).

(** ** Effectiveness checks after a search epoch *)

(** [remPercent] and [costPerGained] of
    [check_recursive_minimization_effectiveness]. *)
Definition rec_remPercent (st : SearchStats) : double :=
  d_mul (float_div_uu (recMinLitRem st) (litsRedNonMin st)) d_100_0.

Definition rec_costPerGained (st : SearchStats) : double :=
  float_div_ud (recMinimCost st) (rec_remPercent st).

(** [Solver::check_recursive_minimization_effectiveness] *)
Definition check_recursive_minimization_effectiveness (status : lbool) (s : Solver)
  : Solver :=
  if lbool_eqb status l_Undef
     && doRecursiveMinim (conf s)
     && (100000 <? wrap64 (recMinLitRem (stats s) + litsRedNonMin (stats s)))
  then
    if d_gt (rec_costPerGained (stats s)) (d_of_Z (200 * 1000 * 1000))
    then upd_conf (conf_set_doRecursiveMinim false (conf s)) s
    else s
  else s.

(** [remPercent] of [check_minimization_effectiveness]. *)
Definition more_remPercent (st : SearchStats) : double :=
  d_mul (float_div_uu (wrap64 (moreMinimLitsStart st - moreMinimLitsEnd st))
                      (moreMinimLitsStart st)) d_100_0.

(** [Solver::check_minimization_effectiveness]. The product
    [3*conf.more_red_minim_limit_binary] is formed in the 32-bit unsigned
    type of the configuration field. *)
Definition check_minimization_effectiveness (status : lbool) (s : Solver) : Solver :=
  if lbool_eqb status l_Undef
     && doMinimRedMore (conf s)
     && (100000 <? moreMinimLitsStart (stats s))
  then
    if d_lt (more_remPercent (stats s)) d_1_0
    then upd_conf (conf_set_doMinimRedMore false (conf s)) s
    else if d_gt (more_remPercent (stats s)) d_7_0
    then upd_more_red_minim_limit_binary_actual
           (wrap32 (3 * more_red_minim_limit_binary (conf s))) s
    else upd_more_red_minim_limit_binary_actual (more_red_minim_limit_binary (conf s)) s
  else s.

(** The part of one round of [iterate_until_solved] that follows the
    search epoch: the epoch leaves its [status] and its statistics, then
    both effectiveness checks run. *)
Definition after_search_epoch (status : lbool) (st : SearchStats) (s : Solver) : Solver :=
  check_minimization_effectiveness status
    (check_recursive_minimization_effectiveness status (upd_stats st s)).

(** A run of search epochs, each leaving a status and its statistics. *)
Definition run_epochs (epochs : list (lbool * SearchStats)) (s : Solver) : Solver :=
  fold_left (fun s e => after_search_epoch (fst e) (snd e) s) epochs s.

(** ** Conflict budget *)

(** [Solver::set_max_confl] *)
Definition set_max_confl (max_confl_arg : Z) (s : Solver) : Solver :=
  if wrap64 (conflicts (stats s) + max_confl_arg) <? max_confl_arg
  then upd_conf (conf_set_max_confl uint64_max (conf s)) s
  else upd_conf (conf_set_max_confl (wrap64 (conflicts (stats s) + max_confl_arg)) (conf s)) s.

(** ** The inprocessing schedule interpreter *)

Local Open Scope string_scope.

(** The successive results of [std::getline(ss, token, ',')] on the
    stream [str]: the pieces between commas, the last one only when it is
    not empty. [cur] is the piece being read. *)
Fixpoint getline_all (str cur : string) : list string :=
  match str with
  | EmptyString => if String.eqb cur "" then [] else [cur]
  | String c rest =>
      if Ascii.eqb c "," then cur :: getline_all rest ""
      else getline_all rest (cur ++ String c "")
  end.

(** [std::isspace] in the C locale. *)
Definition isspace (c : ascii) : bool :=
  let n := nat_of_ascii c in
  (n =? 32)%nat || ((9 <=? n)%nat && (n <=? 13)%nat).

(** [::tolower] in the C locale. *)
Definition tolower (c : ascii) : ascii :=
  let n := nat_of_ascii c in
  if (65 <=? n)%nat && (n <=? 90)%nat then ascii_of_nat (n + 32) else c.

Fixpoint string_map (f : ascii -> ascii) (s : string) : string :=
  match s with
  | EmptyString => EmptyString
  | String c rest => String (f c) (string_map f rest)
  end.

Fixpoint ltrim (s : string) : string :=
  match s with
  | EmptyString => EmptyString
  | String c rest => if isspace c then ltrim rest else s
  end.

Fixpoint rtrim (s : string) : string :=
  match s with
  | EmptyString => EmptyString
  | String c rest =>
      let rest' := rtrim rest in
      if isspace c && String.eqb rest' "" then EmptyString else String c rest'
  end.

(** Modelled from the spec: [trim] is declared in [trim.h], outside the
    files at hand. The schedule is "a comma-separated schedule of
    tokens"; [trim] strips the white space around a token. *)
Definition trim (s : string) : string := ltrim (rtrim s).

(** [token.substr(0,3)] *)
Definition prefix3 (token : string) : string := substring 0 3 token.

(** How one round of the token loop ends. *)
Inductive LoopCtl : Type :=
| Next (occ_strategy_tokens : string)   (* on to the next token *)
| Break                                  (* [break] *)
| ReturnFalse.                           (* [return l_False] *)

(** The loop guard at the head of every round, repeated after the
    occurrence simplifier ran. *)
Definition must_stop (E : Env) (s : Solver) : bool :=
  (max_confl (conf s) <=? sumConflicts s)%Z
  || cpuTime_gt_maxTime E s
  || must_interrupt_asap E s
  || (nVars s =? 0)%nat
  || negb (okay s).

Definition not_recognised_msg (token : string) : string :=
  "ERROR: strategy '" ++ token ++ "' not recognised!".

(** [cl->distilled = 0] and [cl->tried_to_remove = 0] on every
    irredundant long clause. *)
Definition reset_distill_flags (also_distilled : bool) (s : Solver) : Solver :=
  let reset (c : Clause) : Clause :=
    {| cl_lits := cl_lits c; isRed := isRed c; cl_stats := cl_stats c;
       introduced_at_conflict := introduced_at_conflict c;
       distilled := if also_distilled then false else distilled c;
       tried_to_remove := false |} in
  upd_cl_alloc (fold_left (fun a offs => alter reset offs a) (longIrredCls s) (cl_alloc s)) s.

(** The chain of comparisons on the normalised [token], for a build
    without the optional components (statistics, BreakID, Bosphorus),
    whose branches then do nothing. The result is the new value of
    [occ_strategy_tokens], or [None] for [return l_False]. *)
Definition dispatch_token (E : Env) (token occ : string) (s : Solver)
  : Outcome (option string) :=
  let c := conf s in
  let go (s : Solver) : Outcome (option string) := Returns (Some occ) s in
  if token =? "scc-vrepl" then
    go (if doFindAndReplaceEqLits c then replace_if_enough_is_found E false s else s)
  else if token =? "oracle-vivif-sparsify" then
    if (10 <? nVars s)%nat then
      let '(r, finished, s) := oracle_vivif E s in
      go (if r && finished then oracle_sparsify E s else s)
    else go s
  else if token =? "oracle-vivif" then
    go (if (10 <? nVars s)%nat then snd (oracle_vivif E s) else s)
  else if token =? "oracle-sparsify" then
    let '(finished, s) := backbone_simpl E s in
    go (if (10 <? nVars s)%nat && finished then oracle_sparsify E s else s)
  else if token =? "backbone" then go (snd (backbone_simpl E s))
  else if token =? "must-scc-vrepl" then
    go (if doFindAndReplaceEqLits c then replace_if_enough_is_found E true s else s)
  else if token =? "full-probe" then
    let '(good, s) := full_probe E s in
    if good then go s else Returns None s
  else if token =? "card-find" then
    if doFindCard c then Exits 0 "" else go s
  else if token =? "sub-impl" then
    go (if doStrSubImplicit c then subsume_implicit E s else s)
  else if token =? "sls" then AssertFails
  else if token =? "lucky" then AssertFails
  else if token =? "intree-probe" then
    let s := if negb (num_bnns s =? 0)%nat
             then upd_conf (conf_set_do_hyperbin_and_transred false (conf s)) s else s in
    go (if doIntreeProbe (conf s) && doFindAndReplaceEqLits (conf s)
        then intree_probe E s else s)
  else if token =? "sub-str-cls-with-bin" then
    go (if do_distill_clauses c then distill_long_with_implicit E true s else s)
  else if token =? "sub-cls-with-bin" then
    go (if do_distill_clauses c then distill_long_with_implicit E false s else s)
  else if token =? "distill-bins" then
    go (if do_distill_bin_clauses c then distill_bin E s else s)
  else if token =? "distill-litrem" then
    go (if do_distill_clauses c then distill_lit_rem E s else s)
  else if token =? "distill-cls" then
    go (if do_distill_clauses c then distill_long E false false s else s)
  else if token =? "clean-cls" then go (snd (remove_and_clean_all E s))
  else if token =? "distill-cls-onlyrem" then
    go (if do_distill_clauses c then distill_long E false true s else s)
  else if token =? "must-distill-cls" then
    go (if do_distill_clauses c
        then distill_long E false false (reset_distill_flags true s) else s)
  else if token =? "must-distill-cls-onlyrem" then
    go (if do_distill_clauses c
        then distill_long E false true (reset_distill_flags false s) else s)
  else if token =? "str-impl" then
    go (if doStrSubImplicit c then str_impl_w_impl E s else s)
  else if token =? "cl-consolidate" then go (consolidate E s)
  else if token =? "louvain-comms" then go s
  else if (token =? "renumber") || (token =? "must-renumber") then
    if doRenumberVars c && negb (frat_enabled s) then
      let* (good, s) :=
        renumber_variables E ((token =? "must-renumber") || must_renumber c) s in
      if good then go s else Returns None s
    else go s
  else if token =? "breakid" then go s
  else if token =? "bosphorus" then go s
  else if token =? "" then go s
  else if prefix3 token =? "occ" then Returns (Some (occ ++ token ++ ", ")) s
  else Exits (-1) (not_recognised_msg token).

(** The flush of the collected [occ-...] tokens, which precedes the
    dispatch of the first token that is not one of them. [None] is the
    [break]. *)
Definition flush_occ (E : Env) (startup : bool) (token occ : string) (s : Solver)
  : option (string * Solver) :=
  if negb (occ =? "") && negb (prefix3 token =? "occ") then
    let s := if perform_occur_based_simp (conf s) && (num_bnns s =? 0)%nat
             then occsimplifier_simplify E startup (trim occ) s else s in
    if must_stop E s then None else Some ("", s)
  else Some (occ, s).

(** One round of the loop of [execute_inprocess_strategy], for the raw
    [token] that [getline] delivered. The assertions on the propagator
    (no smudged watch list, propagation at head) concern state outside
    the model; [assert(okay())] is implied by the guard. *)
Definition process_token (E : Env) (startup : bool) (raw occ : string) (s : Solver)
  : Outcome LoopCtl :=
  if must_stop E s then Returns Break s
  else
    let token := string_map tolower (trim raw) in
    match flush_occ E startup token occ s with
    | None => Returns Break s
    | Some (occ, s) =>
        let* (r, s) := dispatch_token E token occ s in
        match r with
        | None => Returns ReturnFalse s
        | Some occ => if negb (okay s) then Returns ReturnFalse s else Returns (Next occ) s
        end
    end.

Fixpoint run_tokens (E : Env) (startup : bool) (tokens : list string) (occ : string)
  (s : Solver) : Outcome lbool :=
  match tokens with
  | [] => Returns (if okay s then l_Undef else l_False) s
  | raw :: rest =>
      let* (ctl, s) := process_token E startup raw occ s in
      match ctl with
      | Next occ => run_tokens E startup rest occ s
      | Break => Returns (if okay s then l_Undef else l_False) s
      | ReturnFalse => Returns l_False s
      end
  end.

(** [Solver::execute_inprocess_strategy] *)
Definition execute_inprocess_strategy (E : Env) (startup : bool) (strategy : string)
  (s : Solver) : Outcome lbool :=
  run_tokens E startup (getline_all (strategy ++ ", ") "") "" s.

Local Close Scope string_scope.

(** ** [XorSubsumer] *)

Module XorSubsumer.

(** [seen_tmp], a [vec<char>] with one cell per variable. *)
Abbreviation seen_vec := (list Z) (only parsing).

(** [for (i = 0; i != B.size(); i++) seen_tmp[B[i].var()] = c;] *)
Fixpoint mark (B : list Lit) (c : Z) (seen_tmp : seen_vec) : seen_vec :=
  match B with
  | [] => seen_tmp
  | b :: B' => mark B' c (<[var b := c]> seen_tmp)
  end.

(** The loop over [A]: at the first variable whose cell is zero the
    marks of [B] are cleared and the result is [false]; when the loop
    runs to its end they are cleared and the result is [true]. The
    source reads [seen_tmp] without a bounds check; a cell beyond the
    vector reads as zero here. *)
Fixpoint scan (A B : list Lit) (seen_tmp : seen_vec) : bool * seen_vec :=
  match A with
  | [] => (true, mark B 0 seen_tmp)
  | a :: A' =>
      if nth (var a) seen_tmp 0 =? 0 then (false, mark B 0 seen_tmp)
      else scan A' B seen_tmp
  end.

(** [XorSubsumer::subset]: the result and [seen_tmp] as the call
    leaves it. *)
Definition subset (A B : list Lit) (seen_tmp : seen_vec) : bool * seen_vec :=
  scan A B (mark B 1 seen_tmp).

(** [XorSubsumer::subsetAbst] on 32-bit abstractions. *)
Definition subsetAbst (A B : Z) : bool :=
  Z.land A (wrap32 (Z.lnot B)) =? 0.

End XorSubsumer.

(** ** A sample environment and sample states

    Collaborators that leave the state alone and report success, a
    configuration that passes the sanity checks, and a live solver over
    four variables with nothing assigned. The closed instances of the
    theorems below are taken at these. *)

Definition E0 : Env :=
  {| lit_Undef := 2 * (2 ^ 28 - 1);
     MAX_XOR_RECOVER_SIZE := 8;
     default_ClauseStats := {| ID := 0; which_red_array := 2 |};
     cpuTime_gt_maxTime := fun _ => false;
     must_interrupt_asap := fun _ => false;
     propagate := fun s => (true, s);
     PropEngine_attachClause := fun _ s => s;
     PropEngine_attach_bin_clause := fun _ _ _ _ s => s;
     attach_xor_clause := fun _ s => s;
     Searcher_new_var := fun _ _ _ s => s;
     varReplacer_new_var := fun _ s => s;
     occsimplifier_new_var := fun _ s => s;
     datasync_new_var := fun _ s => s;
     get_lit_replaced_with_outer := fun _ l => l;
     uneliminate := fun _ s => (true, s);
     clean_xor_no_prop := fun _ ps rhs => (ps, rhs);
     copy_assumptions := fun _ s => s;
     fill_assumptions_set := fun s => s;
     unfill_assumptions_set := fun s => s;
     var_inside_assumptions := fun _ _ => l_Undef;
     update_assump_conflict_to_orig_outer := fun s => s;
     extend_solution := fun _ s => s;
     clear_gauss_matrices := fun s => (true, s);
     remove_and_clean_all := fun s => (true, s);
     updateVars := fun _ _ s => s;
     save_on_var_memory := fun _ s => s;
     occsimplifier_simplify := fun _ _ s => s;
     replace_if_enough_is_found := fun _ s => s;
     oracle_vivif := fun s => (true, true, s);
     oracle_sparsify := fun s => s;
     backbone_simpl := fun s => (true, s);
     full_probe := fun s => (true, s);
     subsume_implicit := fun s => s;
     intree_probe := fun s => s;
     distill_long_with_implicit := fun _ s => s;
     distill_bin := fun s => s;
     distill_lit_rem := fun s => s;
     distill_long := fun _ _ s => s;
     str_impl_w_impl := fun s => s;
     consolidate := fun s => s |}.

Definition conf0 : SolverConf :=
  {| max_confl := uint64_max;
     doRecursiveMinim := true;
     doMinimRedMore := true;
     more_red_minim_limit_binary := 200;
     perform_occur_based_simp := true;
     max_glue_cutoff_gluehistltlimited := 50;
     shortTermHistorySize := 50;
     blocking_restart_trail_hist_length := 5000;
     xor_var_per_cut := 2;
     simulate_frat := false;
     do_hyperbin_and_transred := true;
     sampling_vars := None;
     do_simplify_problem := true;
     simplify_at_startup := false;
     simplify_at_every_startup := false;
     full_simplify_at_startup := false;
     simplify_schedule_startup := "sub-impl, scc-vrepl";
     simplify_schedule_nonstartup := "scc-vrepl, sub-impl, renumber";
     conf_needed := true;
     doSaveMem := true;
     doFindAndReplaceEqLits := true;
     doFindCard := false;
     doStrSubImplicit := true;
     doIntreeProbe := true;
     do_distill_clauses := true;
     do_distill_bin_clauses := true;
     must_always_conslidate := false;
     doRenumberVars := true;
     must_renumber := false |}.

Definition stats0 : SearchStats :=
  {| conflicts := 0; recMinLitRem := 0; litsRedNonMin := 0; recMinimCost := 0;
     moreMinimLitsStart := 0; moreMinimLitsEnd := 0 |}.

Definition s0 : Solver :=
  {| conf := conf0; ok := true; unsat_cl_ID := 0; clauseID := 0;
     minNumVars := 4;
     assigns := [l_Undef; l_Undef; l_Undef; l_Undef];
     varData := [Removed_none; Removed_none; Removed_none; Removed_none];
     interToOuterMain := [0; 1; 2; 3]%nat;
     outerToInterMain := [0; 1; 2; 3]%nat;
     trail := []; trail_lim := []; qhead := 0;
     cl_alloc := []; longIrredCls := []; longRedCls := [[]; []; []];
     xorclauses := []; xorclauses_updated := false; num_bnns := 0;
     undef_must_set_vars := [];
     litStats := {| irredLits := 0; redLits := 0 |};
     binTri := {| irredBins := 0; redBins := 0 |};
     sumConflicts := 0; zeroLevAssignsByCNF := 0;
     stats := stats0;
     more_red_minim_limit_binary_actual := 200;
     occsimplifier := {| anythingHasBeenElimed := false; num_elimed_vars := 0 |};
     assumptions := []; conflict := [];
     frat_enabled := false;
     solveStats := {| num_simplify := 0; num_solve_calls := 0;
                      num_simplify_this_solve_call := 0 |} |}.

(** Search phases that must not be reached: they would report SAT. *)
Definition P0 : SearchPhases :=
  {| simplify_problem := fun _ _ s => Returns l_True s;
     iterate_until_solved := fun s => Returns l_True s |}.


(** Statistics of an epoch in which binary minimisation started from
    2,000,000 literals and ended with [e]. *)
Definition stats_more (e : Z) : SearchStats :=
  {| conflicts := 1000; recMinLitRem := 0; litsRedNonMin := 0; recMinimCost := 0;
     moreMinimLitsStart := 2000000; moreMinimLitsEnd := e |}.

(** The sample solver after the occurrence simplifier eliminated a
    variable. *)
Definition s_elimed : Solver :=
  upd_occsimplifier {| anythingHasBeenElimed := true; num_elimed_vars := 1 |} s0.

(** The sample solver with variable 0 false at level 0: the literal
    [~x0], encoded 1, is on the trail and propagated. *)
Definition s_x0_false : Solver :=
  upd_qhead 1 (upd_trail [1] (upd_assigns [l_False; l_Undef; l_Undef; l_Undef] s0)).




(** The number of live variables below [k]: the place that the
    renumbering is to give to [k] when [k] is live. *)
Definition live_below (s : Solver) (k : nat) : nat :=
  length (List.filter (fun i => negb (var_is_dead s i)) (seq 0 k)).

(** The sample solver with variables 1 and 2 dead: 1 is set at level 0,
    2 was eliminated. *)
Definition s_two_dead : Solver :=
  upd_qhead 1
    (upd_trail [2]
       (upd_assigns [l_Undef; l_True; l_Undef; l_Undef]
          {| conf := conf0; ok := true; unsat_cl_ID := 0; clauseID := 0;
             minNumVars := 4;
             assigns := [];
             varData := [Removed_none; Removed_none; Removed_elimed; Removed_none];
             interToOuterMain := [0; 1; 2; 3]%nat;
             outerToInterMain := [0; 1; 2; 3]%nat;
             trail := []; trail_lim := []; qhead := 0;
             cl_alloc := []; longIrredCls := []; longRedCls := [[]; []; []];
             xorclauses := []; xorclauses_updated := false; num_bnns := 0;
             undef_must_set_vars := [];
             litStats := {| irredLits := 0; redLits := 0 |};
             binTri := {| irredBins := 0; redBins := 0 |};
             sumConflicts := 0; zeroLevAssignsByCNF := 0;
             stats := stats0;
             more_red_minim_limit_binary_actual := 200;
             occsimplifier := {| anythingHasBeenElimed := true; num_elimed_vars := 1 |};
             assumptions := []; conflict := [];
             frat_enabled := false;
             solveStats := {| num_simplify := 0; num_solve_calls := 0;
                              num_simplify_this_solve_call := 0 |} |})).

(** Words of the clause-cleaning claim. A clause is satisfied when one
    of its literals is true, a tautology when it holds a literal and its
    negation; [c] is the clause [lits] cleaned when it lists, in
    encoding order and once each, the literals of [lits] that are not
    false. *)
Definition clause_satisfied (s : Solver) (lits : list Lit) : Prop :=
  exists l, In l lits /\ value s l = l_True.

Definition clause_tautology (lits : list Lit) : Prop :=
  exists l, In l lits /\ In (lit_neg l) lits.

Definition cleaned_of (s : Solver) (lits c : list Lit) : Prop :=
  StronglySorted Z.lt c /\ forall x, In x c <-> In x lits /\ value s x <> l_False.


(** A sample solver with [n] variables of which variable 0 is set at
    level 0 and the others are live. *)
Definition s_one_set (n : nat) : Solver :=
  {| conf := conf0; ok := true; unsat_cl_ID := 0; clauseID := 0;
     minNumVars := n;
     assigns := l_True :: replicate (n - 1) l_Undef;
     varData := replicate n Removed_none;
     interToOuterMain := seq 0 n;
     outerToInterMain := seq 0 n;
     trail := [mkLit 0 false]; trail_lim := []; qhead := 1;
     cl_alloc := []; longIrredCls := []; longRedCls := [[]; []; []];
     xorclauses := []; xorclauses_updated := false; num_bnns := 0;
     undef_must_set_vars := [];
     litStats := {| irredLits := 0; redLits := 0 |};
     binTri := {| irredBins := 0; redBins := 0 |};
     sumConflicts := 0; zeroLevAssignsByCNF := 0;
     stats := stats0;
     more_red_minim_limit_binary_actual := 200;
     occsimplifier := {| anythingHasBeenElimed := false; num_elimed_vars := 0 |};
     assumptions := []; conflict := [];
     frat_enabled := false;
     solveStats := {| num_simplify := 0; num_solve_calls := 0;
                      num_simplify_this_solve_call := 0 |} |}.

(** ** Further functions of [solver.cpp]

    The functions below are not needed for the properties of Part II; they
    are embedded for the properties of Part III. *)

(** *** Total assignments

    The meaning of clauses and XOR constraints is taken under a total
    assignment of the variables. *)

(** The truth of a literal. *)
Definition lit_true (a : nat -> bool) (l : Lit) : bool := xorb (a (var l)) (sign l).

(** A clause holds when one of its literals is true. *)
Definition clause_holds (a : nat -> bool) (lits : list Lit) : bool :=
  existsb (lit_true a) lits.

(** The parity of the true literals. *)
Definition parity (a : nat -> bool) (lits : list Lit) : bool :=
  fold_right xorb false (map (lit_true a) lits).

(** An XOR constraint holds when the parity of its literals is its
    right-hand side. *)
Definition xor_holds (a : nat -> bool) (lits : list Lit) (rhs : bool) : bool :=
  Bool.eqb (parity a lits) rhs.

(** The assignment gives every variable that the solver has set the
    value the solver gave it. *)
Definition agrees (a : nat -> bool) (s : Solver) : Prop :=
  forall v, (value_var s v = l_True -> a v = true)
            /\ (value_var s v = l_False -> a v = false).

(** *** The order that the renumbering computes

    The live variables below [k] and the dead ones, each in increasing
    order; and the new order of all [nVarsOuter] variables: live ones,
    dead ones, then the variables beyond [nVars]. *)
Definition lives (s : Solver) (k : nat) : list nat :=
  List.filter (fun i => negb (var_is_dead s i)) (seq 0 k).

Definition deads (s : Solver) (k : nat) : list nat :=
  List.filter (var_is_dead s) (seq 0 k).

Definition renumbered_order (s : Solver) : list nat :=
  lives s (nVars s) ++ deads s (nVars s) ++ seq (nVars s) (nVarsOuter s - nVars s).

(** The two vectors hold the order [xs] written so far: [interToOuter]
    starts with [xs], and [outerToInter] sends each member of [xs] back
    to its place. *)
Definition maps_hold (xs i0 : list nat) (m : RenumberMaps) : Prop :=
  rm_interToOuter m = xs ++ drop (length xs) i0
  /\ length (rm_outerToInter m) = length i0
  /\ forall j, (j < length xs)%nat -> nth (nth j xs 0%nat) (rm_outerToInter m) 0%nat = j.

(** The sample solver [s_two_dead] with its variables in the order that
    the renumbering computes for it, [0, 3, 1, 2]: the values and the
    removal states moved along. *)
Definition s_two_dead_renumbered : Solver :=
  {| conf := conf0; ok := true; unsat_cl_ID := 0; clauseID := 0;
     minNumVars := 4;
     assigns := [l_Undef; l_Undef; l_True; l_Undef];
     varData := [Removed_none; Removed_none; Removed_none; Removed_elimed];
     interToOuterMain := [0; 3; 1; 2]%nat;
     outerToInterMain := [0; 2; 3; 1]%nat;
     trail := [mkLit 2 false]; trail_lim := []; qhead := 1;
     cl_alloc := []; longIrredCls := []; longRedCls := [[]; []; []];
     xorclauses := []; xorclauses_updated := true; num_bnns := 0;
     undef_must_set_vars := [];
     litStats := {| irredLits := 0; redLits := 0 |};
     binTri := {| irredBins := 0; redBins := 0 |};
     sumConflicts := 0; zeroLevAssignsByCNF := 0;
     stats := stats0;
     more_red_minim_limit_binary_actual := 200;
     occsimplifier := {| anythingHasBeenElimed := true; num_elimed_vars := 1 |};
     assumptions := []; conflict := [];
     frat_enabled := false;
     solveStats := {| num_simplify := 0; num_solve_calls := 0;
                      num_simplify_this_solve_call := 0 |} |}.

(** *** BNN constraints

    A BNN constraint says that at least [cutoff] of its literals are
    true; when it is not [set], it says that this is so exactly when the
    literal [out] is true. The class is declared in [bnn.h]; the fields
    below are the ones that [solver.cpp] reads and writes. A literal may
    occur more than once. [cutoff] is an [int32_t]: the model computes
    in [Z], as the source does as long as no signed overflow occurs. *)
Record BNN : Type := mkBNN {
  bnn_lits : list Lit;
  bnn_cutoff : Z;
  bnn_out : Lit;
  bnn_set : bool
}.

(** [l.var() == p.var()], on the encodings. *)
Definition same_var (l p : Lit) : bool := Z.shiftr l 1 =? Z.shiftr p 1.

(** The loop of [Solver::sort_and_clean_bnn] over the sorted literals:
    [p] is the last literal kept ([lit_Undef] at the start and after a
    literal met its negation), [kept] the prefix [bnn[0..j)] written so
    far; [j--] drops its last literal. With nothing kept, [j--] can only
    be reached by a literal on the variable of [lit_Undef], and the
    unsigned [j] of the source wraps around; the model keeps the empty
    prefix there, and the properties of this function are stated for
    literals on other variables. *)
Fixpoint clean_bnn_loop (E : Env) (ps : list Lit) (p : Lit) (kept : list Lit)
  (cutoff : Z) (s : Solver) : Outcome (list Lit * Z) :=
  match ps with
  | [] => Returns (kept, cutoff) s
  | l :: rest =>
      if lbool_eqb (value s l) l_True then clean_bnn_loop E rest p kept (cutoff - 1) s
      else if lbool_eqb (value s l) l_False then clean_bnn_loop E rest p kept cutoff s
      else if same_var l p && Bool.eqb (sign l) (negb (sign p)) then
        clean_bnn_loop E rest (lit_Undef E) (removelast kept) (cutoff - 1) s
      else
        assert_then (Removed_eqb (removed s (var l)) Removed_none)
          (clean_bnn_loop E rest l (kept ++ [l]) cutoff s)
  end.

(** [Solver::sort_and_clean_bnn]; the result is the constraint as the
    call leaves it. *)
Definition sort_and_clean_bnn (E : Env) (bnn : BNN) (s : Solver) : Outcome BNN :=
  let* (r, s) :=
    clean_bnn_loop E (sort_lits (bnn_lits bnn)) (lit_Undef E) [] (bnn_cutoff bnn) s in
  let '(kept, cutoff) := r in
  let unchanged := {| bnn_lits := kept; bnn_cutoff := cutoff;
                      bnn_out := bnn_out bnn; bnn_set := bnn_set bnn |} in
  if bnn_set bnn then Returns unchanged s
  else if lbool_eqb (value s (bnn_out bnn)) l_Undef then Returns unchanged s
  else if lbool_eqb (value s (bnn_out bnn)) l_False then
    Returns {| bnn_lits := map lit_neg kept; bnn_cutoff := size kept + 1 - cutoff;
               bnn_out := lit_Undef E; bnn_set := true |} s
  else
    Returns {| bnn_lits := kept; bnn_cutoff := cutoff;
               bnn_out := lit_Undef E; bnn_set := true |} s.

(** [Solver::bnn_eval] *)
Definition bnn_eval (E : Env) (bnn : BNN) (s : Solver) : Outcome lbool :=
  assert_then (decisionLevel s =? 0)%nat (
  assert_then (forallb (fun p => lbool_eqb (value s p) l_Undef) (bnn_lits bnn)) (
  assert_then (if bnn_set bnn then bnn_out bnn =? lit_Undef E
               else lbool_eqb (value s (bnn_out bnn)) l_Undef) (
  if bnn_cutoff bnn <=? 0 then
    if bnn_set bnn then Returns l_True s
    else Returns l_True (enqueue (bnn_out bnn) s)
  else if size (bnn_lits bnn) <? bnn_cutoff bnn then
    if bnn_set bnn then Returns l_False s
    else Returns l_True (enqueue (lit_neg (bnn_out bnn)) s)
  else if bnn_set bnn && (size (bnn_lits bnn) =? bnn_cutoff bnn) then
    Returns l_True (fold_left (fun s l => enqueue l s) (bnn_lits bnn) s)
  else if size (bnn_lits bnn) =? 0 then
    if bnn_cutoff bnn <=? 0 then assert_then (bnn_set bnn) (Returns l_True s)
    else AssertFails
  else Returns l_Undef s))).

(** The clauses that [Solver::bnn_to_cnf] builds for a constraint with
    cutoff 1 that is not set, a disjunction equivalent to [out]: the
    long clause first, then one binary clause for each literal. *)
Definition bnn_or_clauses (bnn : BNN) : list (list Lit) :=
  (bnn_lits bnn ++ [lit_neg (bnn_out bnn)])
  :: map (fun l => [lit_neg l; bnn_out bnn]) (bnn_lits bnn).

(** The clauses for a constraint whose cutoff is its size and that is
    not set, a conjunction equivalent to [out]. *)
Definition bnn_and_clauses (bnn : BNN) : list (list Lit) :=
  (map lit_neg (bnn_lits bnn) ++ [bnn_out bnn])
  :: map (fun l => [l; lit_neg (bnn_out bnn)]) (bnn_lits bnn).

(** The clauses for "two of three": for [rev] in 0, 1 and each [i], the
    two literals other than [bnn[i]], flipped when [rev] is 1, followed
    by [~out ^ rev] when the constraint is not set; [rev = 1] is left
    out when it is set. *)
Definition bnn_maj_clauses (bnn : BNN) : list (list Lit) :=
  let others (i : nat) (rev : bool) : list Lit :=
    map (fun l => lit_xor l rev)
        (flat_map (fun i2 => if (i =? i2)%nat then [] else [nth i2 (bnn_lits bnn) 0])
                  (seq 0 3)) in
  let clause (rev : bool) (i : nat) : list Lit :=
    others i rev ++ (if bnn_set bnn then [] else [lit_xor (lit_neg (bnn_out bnn)) rev]) in
  flat_map (fun rev => map (clause rev) (seq 0 3))
           (if bnn_set bnn then [false] else [false; true]).

(** The calls [add_clause_int(lits)] of [bnn_to_cnf], one for each
    clause in turn. A clause that comes back as a long clause is
    appended to [longIrredCls]; for the binary clauses the source
    asserts that none does ([may_be_long] is [false]). *)
Fixpoint bnn_add_clauses (E : Env) (may_be_long : bool) (cls : list (list Lit))
  (s : Solver) : Outcome unit :=
  match cls with
  | [] => Returns tt s
  | lits :: rest =>
      let* (r, s) := add_clause_int_default E lits s in
      match fst r with
      | Some offs =>
          if may_be_long
          then bnn_add_clauses E may_be_long rest
                 (upd_longIrredCls (longIrredCls s ++ [offs]) s)
          else AssertFails
      | None => bnn_add_clauses E may_be_long rest s
      end
  end.

(** [Solver::bnn_to_cnf]: [true] when the constraint was turned into
    clauses. *)
Definition bnn_to_cnf (E : Env) (bnn : BNN) (s : Solver) : Outcome bool :=
  assert_then (if bnn_set bnn then true else lbool_eqb (value s (bnn_out bnn)) l_Undef) (
  if bnn_set bnn && (bnn_cutoff bnn =? 1) then
    assert_then (1 <? size (bnn_lits bnn)) (
    let* (_u, s) := bnn_add_clauses E true [bnn_lits bnn] s in
    assert_then (ok s) (Returns true s))
  else if negb (bnn_set bnn) && (bnn_cutoff bnn =? 1) then
    let* (_u, s) := bnn_add_clauses E true (firstn 1 (bnn_or_clauses bnn)) s in
    let* (_u, s) := bnn_add_clauses E false (skipn 1 (bnn_or_clauses bnn)) s in
    Returns true s
  else if negb (bnn_set bnn) && (bnn_cutoff bnn =? size (bnn_lits bnn)) then
    let* (_u, s) := bnn_add_clauses E true (firstn 1 (bnn_and_clauses bnn)) s in
    let* (_u, s) := bnn_add_clauses E false (skipn 1 (bnn_and_clauses bnn)) s in
    Returns true s
  else if (bnn_cutoff bnn =? 2) && (size (bnn_lits bnn) =? 3) then
    let* (_u, s) := bnn_add_clauses E true (bnn_maj_clauses bnn) s in
    Returns true s
  else Returns false s).

(** The number of true literals, and the meaning of a BNN constraint. *)
Definition count_true (a : nat -> bool) (lits : list Lit) : Z :=
  size (List.filter (lit_true a) lits).

Definition bnn_holds (a : nat -> bool) (bnn : BNN) : bool :=
  if bnn_set bnn then bnn_cutoff bnn <=? count_true a (bnn_lits bnn)
  else Bool.eqb (bnn_cutoff bnn <=? count_true a (bnn_lits bnn))
                (lit_true a (bnn_out bnn)).

(** A sample constraint on the solver where [x0] is false: at least two
    of [x0, x1, ~x1, x2] exactly when [x3]. *)
Definition bnn0 : BNN :=
  {| bnn_lits := [mkLit 0 false; mkLit 1 false; mkLit 1 true; mkLit 2 false];
     bnn_cutoff := 2; bnn_out := mkLit 3 false; bnn_set := false |}.

(** *** Enqueueing at top level *)

(** [Solver::fully_enqueue_this] *)
Definition fully_enqueue_this (E : Env) (lit : Lit) (s : Solver) : Outcome bool :=
  assert_then (decisionLevel s =? 0)%nat (
  assert_then (ok s) (
  match value s lit with
  | l_Undef =>
      assert_then (Removed_eqb (removed s (var lit)) Removed_none) (
      let s := enqueue lit s in
      let '(no_confl, s) := propagate E s in
      let s := upd_ok no_confl s in
      if negb (ok s) then Returns false s else Returns true s)
  | l_False => Returns false (upd_ok false (upd_clauseID (clauseID s + 1) s))
  | l_True => Returns true s
  end)).

(** The loop of [Solver::fully_enqueue_these]. *)
Fixpoint fully_enqueue_loop (E : Env) (toEnqueue : list Lit) (s : Solver) : Outcome bool :=
  match toEnqueue with
  | [] => Returns true s
  | lit :: rest =>
      let* (r, s) := fully_enqueue_this E lit s in
      if negb r then Returns false s else fully_enqueue_loop E rest s
  end.

(** [Solver::fully_enqueue_these] *)
Definition fully_enqueue_these (E : Env) (toEnqueue : list Lit) (s : Solver)
  : Outcome bool :=
  assert_then (ok s) (
  assert_then (decisionLevel s =? 0)%nat (fully_enqueue_loop E toEnqueue s)).

(** A literal that [add_clause_helper] takes as it is: its variable is
    declared, and the literal that stands for it after replacement has
    an internal variable already. *)
Definition known_lit (E : Env) (s : Solver) (l : Lit) : Prop :=
  (var l < nVarsOuter s)%nat
  /\ (var (map_outer_to_inter s (get_lit_replaced_with_outer E s l)) < nVars s)%nat.

(** *** Clauses that an XOR constraint stands for *)

(** An entry of a watch list, as far as
    [check_clause_represented_by_xor] tells entries apart: one that
    names an XOR constraint by its index, [isIdx()], or any other. *)
Inductive Watched : Type :=
| W_idx (idx : nat)
| W_other.

(** [rhs] of [check_clause_represented_by_xor]: [true], flipped once
    for each negated literal of the clause. *)
Definition clause_xor_rhs (cl : list Lit) : bool :=
  fold_left (fun rhs l => xorb rhs (sign l)) cl true.

(** The loop over the watch list: the first XOR constraint of the size
    of the clause, with the right-hand side [rhs], whose variables are
    all marked in [seen2]. The variables of a constraint are kept as
    the positive literals that [add_xor_clause_inter] stores, so that
    [seen2[v]] reads the cell of [var v]. An index beyond [xorclauses]
    is passed over. *)
Fixpoint find_xor_for_clause (seen2 : list Z) (xors : list Xor) (n : nat) (rhs : bool)
  (ws : list Watched) : bool :=
  match ws with
  | [] => false
  | W_other :: rest => find_xor_for_clause seen2 xors n rhs rest
  | W_idx i :: rest =>
      match xors !! i with
      | None => find_xor_for_clause seen2 xors n rhs rest
      | Some x =>
          if negb (length (xor_vars x) =? n)%nat then
            find_xor_for_clause seen2 xors n rhs rest
          else if negb (Bool.eqb (xor_rhs x) rhs) then
            find_xor_for_clause seen2 xors n rhs rest
          else if forallb (fun v => negb (nth (var v) seen2 0 =? 0)) (xor_vars x) then true
          else find_xor_for_clause seen2 xors n rhs rest
      end
  end.

(** [l.unsign()] *)
Definition unsign (l : Lit) : Lit := mkLit (var l) false.

(** [Solver::check_clause_represented_by_xor]. The vectors [seen] and
    [seen2] and the watch lists belong to the propagation engine; they
    are arguments here, and the second component of the result is
    [seen2] as the call leaves it. *)
Definition check_clause_represented_by_xor (seen seen2 : list Z)
  (watches : Lit -> list Watched) (s : Solver) (cl : list Lit) : bool * list Z :=
  if negb (forallb (fun l => negb (nth (var l) seen 0 =? 0)) cl) then (false, seen2)
  else
    let seen2 := XorSubsumer.mark cl 1 seen2 in
    let rhs := clause_xor_rhs cl in
    let minlit := fold_right Z.min (hd 0 cl) cl in
    let found :=
      find_xor_for_clause seen2 (xorclauses s) (length cl) rhs (watches (unsign minlit)) in
    (found, XorSubsumer.mark cl 0 seen2).

(** An XOR constraint of the solver holds when the parity of the values
    of its variables is its right-hand side. *)
Definition xor_constraint_holds (a : nat -> bool) (x : Xor) : bool :=
  Bool.eqb (fold_right xorb false (map (fun v => a (var v)) (xor_vars x))) (xor_rhs x).

(** The sample solver with the XOR constraint [x1 + x2 + x3 = 1], and
    the watch lists that go with it: the constraint is watched by the
    least of its literals. *)
Definition s_one_xor : Solver :=
  upd_xorclauses [{| xor_vars := [mkLit 1 false; mkLit 2 false; mkLit 3 false];
                     xor_rhs := true |}] s0.

Definition watches_one_xor (l : Lit) : list Watched :=
  if l =? mkLit 1 false then [W_other; W_idx 0] else [].

(** *** The conflict budget of one search iteration *)

(** The fields of the configuration that
    [calc_num_confl_to_do_this_iter] reads besides [max_confl]. *)
Record SearchBudgetConf : Type := mkSearchBudgetConf {
  num_conflicts_of_search : Z;              (* uint64 *)
  num_conflicts_of_search_inc : double;
  num_conflicts_of_search_inc_max : double;
  never_stop_search : bool
}.

(** [std::min] on doubles: the second argument when it is smaller. *)
Definition d_min (a b : double) : double := if SFltb b a then b else a.

(** [Solver::calc_num_confl_to_do_this_iter]. [pow] is [std::pow] of the
    C library and [to_uint64] the conversion of a double to
    [uint64_t]; the value it yields is taken in 64 bits. *)
Definition calc_num_confl_to_do_this_iter (pow : double -> double -> double)
  (to_uint64 : double -> Z) (c : SearchBudgetConf) (iteration_num : Z) (s : Solver) : Z :=
  let iter_num := d_of_Z (Z.min iteration_num 100) in
  let mult := pow (num_conflicts_of_search_inc c) iter_num in
  let mult := d_min mult (num_conflicts_of_search_inc_max c) in
  let num_conflicts_of_search :=
    wrap64 (to_uint64 (d_mul (d_of_Z (num_conflicts_of_search c)) mult)) in
  let num_conflicts_of_search :=
    if never_stop_search c then 600 * 1000 * 1000 else num_conflicts_of_search in
  if sumConflicts s <=? max_confl (conf s)
  then Z.min num_conflicts_of_search (max_confl (conf s) - sumConflicts s)
  else 0.

(** *** Simplification called from outside *)

(** [Solver::simplify_problem_outside], without the time-out multiplier
    and the switches of the optional components that it saves and
    restores around the call. [None] for [strategy] is the null
    pointer. *)
Definition simplify_problem_outside (E : Env) (P : SearchPhases)
  (strategy : option string) (s : Solver) : Outcome lbool :=
  let st := solveStats s in
  let s := upd_solveStats
             {| num_simplify := num_simplify st;
                num_solve_calls := num_solve_calls st;
                num_simplify_this_solve_call := 0 |} s in
  let* (_u, s) := set_assumptions E s in
  let* (_u, s) := uneliminate_sampling_set E s in
  let* (status, s) :=
    (if negb (ok s) then Returns l_False s
     else
       let* (_u, s) := check_and_upd_config_parameters E s in
       if (0 <? nVars s)%nat then
         simplify_problem P false
           (match strategy with
            | Some x => x
            | None => simplify_schedule_nonstartup (conf s)
            end) s
       else Returns l_Undef s) in
  let s := unfill_assumptions_set E s in
  let s := upd_assumptions [] s in
  let s := upd_conf (conf_set_conf_needed true (conf s)) s in
  Returns status s.

(* ================================================================== *)
(** * Part II: properties                                              *)
(* ================================================================== *)

(** ** [set_max_confl] *)

(** C9. [set_max_confl(n)] saturates: with [c] conflicts so far, the
    limit becomes the largest 64-bit value when [c + n] does not fit in
    64 bits, and [c + n] otherwise. *)
Theorem set_max_confl_saturates (n : Z) (s : Solver) :
  0 <= conflicts (stats s) < 2 ^ 64 ->
  0 <= n < 2 ^ 64 ->
  max_confl (conf (set_max_confl n s)) =
    if 2 ^ 64 <=? conflicts (stats s) + n then uint64_max
    else conflicts (stats s) + n.
Proof.
  intros Hc Hn. unfold set_max_confl, wrap64.
  destruct (Z.leb_spec (2 ^ 64) (conflicts (stats s) + n)) as [Hov | Hfit].
  - assert (Hmod : (conflicts (stats s) + n) mod 2 ^ 64
                   = conflicts (stats s) + n - 2 ^ 64).
    { symmetry. apply Z.mod_unique with (q := 1); lia. }
    rewrite Hmod.
    destruct (Z.ltb_spec (conflicts (stats s) + n - 2 ^ 64) n); [reflexivity | lia].
  - rewrite Z.mod_small by lia.
    destruct (Z.ltb_spec (conflicts (stats s) + n) n); [lia | reflexivity].
Qed.

Lemma set_max_confl_saturates_witness :
  max_confl (conf (set_max_confl (2 ^ 64 - 1) (upd_stats
     {| conflicts := 5; recMinLitRem := 0; litsRedNonMin := 0; recMinimCost := 0;
        moreMinimLitsStart := 0; moreMinimLitsEnd := 0 |} s0))) = uint64_max.
Proof.
  apply (set_max_confl_saturates (2 ^ 64 - 1)
           (upd_stats {| conflicts := 5; recMinLitRem := 0; litsRedNonMin := 0;
                         recMinimCost := 0; moreMinimLitsStart := 0;
                         moreMinimLitsEnd := 0 |} s0)); simpl; lia.
Defined.

(** ** [XorSubsumer::subset] *)

Section Subset.
Import XorSubsumer.

Lemma mark_length (B : list Lit) (c : Z) (seen : seen_vec) :
  length (mark B c seen) = length seen.
Proof.
  revert seen. induction B as [| b B IH]; intros seen; simpl; [reflexivity |].
  rewrite IH. apply length_insert.
Qed.

Lemma nth_insert_list (seen : seen_vec) (i j : nat) (c : Z) :
  nth i (<[j := c]> seen) 0 =
    if (j =? i)%nat && (i <? length seen)%nat then c else nth i seen 0.
Proof.
  destruct (Nat.eqb_spec j i) as [-> | Hne]; simpl.
  - destruct (Nat.ltb_spec i (length seen)) as [Hlt | Hge].
    + rewrite nth_lookup, list_lookup_insert_eq by exact Hlt. reflexivity.
    + rewrite list_insert_ge by exact Hge. reflexivity.
  - rewrite !nth_lookup, list_lookup_insert_ne by exact Hne. reflexivity.
Qed.

(** A cell after marking [B] with [c]: [c] where a literal of [B] has
    that variable, the old content elsewhere. *)
Lemma nth_mark (B : list Lit) (c : Z) (seen : seen_vec) (i : nat) :
  (i < length seen)%nat ->
  nth i (mark B c seen) 0 =
    if existsb (fun b => (var b =? i)%nat) B then c else nth i seen 0.
Proof.
  revert seen. induction B as [| b B IH]; intros seen Hi; simpl; [reflexivity |].
  rewrite IH by (rewrite length_insert; exact Hi).
  rewrite nth_insert_list.
  destruct (existsb (fun b0 => (var b0 =? i)%nat) B); [now rewrite orb_true_r |].
  rewrite orb_false_r.
  destruct (Nat.eqb_spec (var b) i); simpl; [| reflexivity].
  destruct (Nat.ltb_spec i (length seen)); [reflexivity | lia].
Qed.

Lemma all_zero_nth (seen : seen_vec) (i : nat) :
  Forall (eq 0) seen -> nth i seen 0 = 0.
Proof.
  intros Hz. destruct (Nat.lt_ge_cases i (length seen)) as [Hlt | Hge].
  - rewrite Forall_forall in Hz. symmetry. apply Hz.
    apply list_elem_of_In, nth_In, Hlt.
  - now apply nth_overflow.
Qed.

(** Marking with 1 and then with 0 restores a vector of zeros. *)
Lemma mark_clear (B : list Lit) (seen : seen_vec) :
  Forall (eq 0) seen -> mark B 0 (mark B 1 seen) = seen.
Proof.
  intros Hz. apply nth_ext with (d := 0) (d' := 0).
  - now rewrite !mark_length.
  - intros i Hi. rewrite !mark_length in Hi.
    rewrite nth_mark by (now rewrite mark_length).
    destruct (existsb (fun b => (var b =? i)%nat) B) eqn:Hex.
    + symmetry. now apply all_zero_nth.
    + rewrite nth_mark by exact Hi. rewrite Hex. reflexivity.
Qed.

Lemma scan_snd (A B : list Lit) (seen : seen_vec) :
  snd (scan A B seen) = mark B 0 seen.
Proof.
  induction A as [| a A IH]; simpl; [reflexivity |].
  destruct (nth (var a) seen 0 =? 0); [reflexivity | exact IH].
Qed.

Lemma scan_fst (A B : list Lit) (seen : seen_vec) :
  fst (scan A B seen) = forallb (fun a => negb (nth (var a) seen 0 =? 0)) A.
Proof.
  induction A as [| a A IH]; simpl; [reflexivity |].
  destruct (nth (var a) seen 0 =? 0); [reflexivity | exact IH].
Qed.

(** C10. Called with [seen_tmp] all zero and long enough for every
    variable of [A] and [B], [subset(A, B)] returns [true] exactly when
    every variable of [A] is a variable of [B], and it leaves
    [seen_tmp] as it found it, all zero, whichever way it returns. *)
Theorem subset_correct (A B : list Lit) (seen_tmp : seen_vec) :
  Forall (eq 0) seen_tmp ->
  (forall l, In l (A ++ B) -> (var l < length seen_tmp)%nat) ->
  (fst (subset A B seen_tmp) = true <->
     forall a, In a A -> exists b, In b B /\ var b = var a)
  /\ snd (subset A B seen_tmp) = seen_tmp
  /\ Forall (eq 0) (snd (subset A B seen_tmp)).
Proof.
  intros Hz Hlen. unfold subset.
  rewrite scan_snd, scan_fst, mark_clear by exact Hz.
  split; [| split; [reflexivity | exact Hz]].
  rewrite forallb_forall. split.
  - intros H a Ha. specialize (H a Ha).
    rewrite nth_mark in H by (apply Hlen, in_or_app; now left).
    destruct (existsb (fun b => (var b =? var a)%nat) B) eqn:Hex.
    + apply existsb_exists in Hex as [b [Hb Hv]].
      exists b. split; [exact Hb | now apply Nat.eqb_eq].
    + rewrite all_zero_nth in H by exact Hz. discriminate H.
  - intros H a Ha. destruct (H a Ha) as [b [Hb Hv]].
    rewrite nth_mark by (apply Hlen, in_or_app; now left).
    assert (Hex : existsb (fun b0 => (var b0 =? var a)%nat) B = true).
    { apply existsb_exists. exists b. split; [exact Hb | now apply Nat.eqb_eq]. }
    rewrite Hex. reflexivity.
Qed.

Lemma subset_correct_witness :
  (fst (subset [2; 5] [4; 3; 8] [0; 0; 0; 0; 0]) = true <->
     forall a, In a [2; 5] -> exists b, In b [4; 3; 8] /\ var b = var a)
  /\ snd (subset [2; 5] [4; 3; 8] [0; 0; 0; 0; 0]) = [0; 0; 0; 0; 0]
  /\ Forall (eq 0) (snd (subset [2; 5] [4; 3; 8] [0; 0; 0; 0; 0])).
Proof.
  apply (subset_correct [2; 5] [4; 3; 8] [0; 0; 0; 0; 0]).
  - repeat constructor.
  - intros l Hl. simpl in Hl.
    repeat (destruct Hl as [<- | Hl]; [vm_compute; lia |]). contradiction.
Defined.

End Subset.

(** ** Effectiveness checks *)





(** At 1,860,000 left of 2,000,000, 7 percent removed: the quotient
    [0.07] is rounded up before it is multiplied by [100.0], the
    percentage comes out as [7.000000000000001], one unit in the last
    place above [7.0], and the limit is tripled. *)
Example check_minimization_at_seven_percent :
  more_remPercent (stats_more 1860000) = S754_finite false 7881299347898369 (-50)
  /\ d_7_0 = S754_finite false 7881299347898368 (-50)
  /\ more_red_minim_limit_binary_actual
       (check_minimization_effectiveness l_Undef (upd_stats (stats_more 1860000) s0)) = 600.
Proof. vm_compute. repeat split; reflexivity. Qed.

(** Outside the sampled case the check changes nothing. *)
Lemma check_minimization_effectiveness_idle (status : lbool) (s : Solver) :
  status <> l_Undef \/ doMinimRedMore (conf s) = false
  \/ moreMinimLitsStart (stats s) <= 100000 ->
  check_minimization_effectiveness status s = s.
Proof.
  intros H. unfold check_minimization_effectiveness.
  destruct H as [H | [H | H]].
  - destruct status; try reflexivity. congruence.
  - rewrite H, andb_false_r. reflexivity.
  - apply Z.ltb_ge in H. rewrite H, andb_false_r. reflexivity.
Qed.







(** ** Adding clauses: the fast paths *)

(** C7. Once the occurrence-based simplifier has eliminated anything,
    [add_clause_outer] neither adds the clause nor returns: it writes
    its diagnostic and calls [exit(-1)]. The public entry point
    [add_clause_outside] does the same on a solver that is not already
    UNSAT. *)
Theorem add_clause_outer_blocked (E : Env) (ps : list Lit) (red : bool) (s : Solver) :
  perform_occur_based_simp (conf s) = true ->
  anythingHasBeenElimed (occsimplifier s) = true ->
  add_clause_outer E ps red s = Exits (-1) blocked_msg
  /\ (ok s = true -> add_clause_outside E ps red s = Exits (-1) blocked_msg).
Proof.
  intros Hocc Helim.
  assert (Houter : add_clause_outer E ps red s = Exits (-1) blocked_msg).
  { unfold add_clause_outer. rewrite Hocc, Helim. reflexivity. }
  split; [exact Houter |].
  intros Hok. unfold add_clause_outside. rewrite Hok. exact Houter.
Qed.

Lemma add_clause_outer_blocked_witness :
  add_clause_outer E0 [2; 5] false s_elimed = Exits (-1) blocked_msg
  /\ (ok s_elimed = true ->
      add_clause_outside E0 [2; 5] false s_elimed = Exits (-1) blocked_msg).
Proof.
  apply (add_clause_outer_blocked E0 [2; 5] false s_elimed); reflexivity.
Defined.

Lemma add_clause_helper_not_ok (E : Env) (ps : list Lit) (s : Solver) :
  ok s = false -> add_clause_helper E ps s = Returns (false, ps) s.
Proof. intros H. unfold add_clause_helper. rewrite H. reflexivity. Qed.





Lemma clean_loop_keeps_state (E : Env) (red : bool) (ps : list Lit) (p : Lit)
  (kept : list Lit) (s : Solver) (c : list Lit) (s' : Solver) :
  clean_loop E red ps p kept s = Returns (Some c) s' -> s' = s.
Proof.
  revert p kept. induction ps as [| l ps IH]; intros p kept H; simpl in H.
  - now inversion H.
  - destruct (lbool_eqb (value s l) l_True); [discriminate |].
    destruct (l =? lit_neg p); [discriminate |].
    destruct (negb (lbool_eqb (value s l) l_False) && negb (l =? p)).
    + unfold assert_then in H.
      destruct (Removed_eqb (removed s (var l)) Removed_none); [| discriminate].
      exact (IH _ _ H).
    + exact (IH _ _ H).
Qed.


Lemma E0_frame : assumption_helpers_frame E0.
Proof. constructor; intros; repeat split; reflexivity. Qed.

Lemma conf0_sane : config_sane E0 conf0.
Proof. unfold config_sane. simpl. lia. Qed.



(** On the sample solver the search phases [P0] report SAT; with [ok]
    down, the same call returns UNSAT. *)
Example solve_sample_not_ok :
  (exists t, solve_with_assumptions E0 P0 None false s0 = Returns l_True t /\ ok t = true)
  /\ (exists t, solve_with_assumptions E0 P0 None false (upd_ok false s0)
                 = Returns l_False t /\ ok t = false).
Proof. split; eexists; vm_compute; split; reflexivity. Qed.

(** ** The clause-length bound *)

Lemma helper_replace_loop_no_throw (E : Env) (ps : list Lit) (s s' : Solver) :
  helper_replace_loop E ps s <> Throws s'.
Proof.
  revert s. induction ps as [| l ps IH]; intros s; simpl; [discriminate |].
  destruct (nVarsOuter s <=? var l)%nat; [discriminate |].
  match goal with |- context [helper_replace_loop E ps ?x] =>
    specialize (IH x); destruct (helper_replace_loop E ps x) end;
    simpl; congruence.
Qed.

Lemma helper_unelim_loop_no_throw (E : Env) (ps : list Lit) (s s' : Solver) :
  helper_unelim_loop E ps s <> Throws s'.
Proof.
  revert s. induction ps as [| l ps IH]; intros s; simpl; [discriminate |].
  destruct (Removed_eqb (removed s (var l)) Removed_elimed).
  - destruct (uneliminate E (var l) s) as [good s1].
    destruct good; simpl; [| discriminate].
    unfold assert_then. destruct (Removed_eqb (removed s1 (var l)) Removed_none);
      [apply IH | discriminate].
  - simpl. unfold assert_then.
    destruct (Removed_eqb (removed s (var l)) Removed_none); [apply IH | discriminate].
Qed.

(** [add_clause_helper] throws exactly on a live solver (with its two
    assertions holding) and a clause of more than 2^28 literals. *)
Lemma add_clause_helper_throws_iff (E : Env) (ps : list Lit) (s : Solver) :
  (exists s', add_clause_helper E ps s = Throws s') <->
  ok s = true /\ decisionLevel s = 0%nat /\ qhead s = length (trail s)
  /\ 2 ^ 28 < size ps.
Proof.
  unfold add_clause_helper. split.
  - intros [s' H]. destruct (ok s); [| discriminate]. cbn [negb] in H.
    unfold assert_then in H.
    destruct (Nat.eqb_spec (decisionLevel s) 0); [| discriminate].
    destruct (Nat.eqb_spec (qhead s) (length (trail s))); [| discriminate].
    destruct (Z.ltb_spec (2 ^ 28) (size ps)); [auto |].
    exfalso.
    destruct (helper_replace_loop E ps s) as [ps1 s1 | s1 | |] eqn:Hloop;
      cbn [bind] in H; try discriminate.
    + destruct (negb (get_num_vars_elimed s1 =? 0)); [| discriminate].
      destruct (helper_unelim_loop E (renumber_outer_to_inter_lits s1 ps1) s1)
        as [g s2 | s2 | |] eqn:Hun; cbn [bind] in H; try discriminate.
      exact (helper_unelim_loop_no_throw _ _ _ _ Hun).
    + exact (helper_replace_loop_no_throw _ _ _ _ Hloop).
  - intros (Hok & Hlev & Hq & Hlen). exists s.
    rewrite Hok, Hlev, Hq, !Nat.eqb_refl. cbn [negb assert_then].
    apply Z.ltb_lt in Hlen. rewrite Hlen. reflexivity.
Qed.

(** [add_xor_clause_inter] throws as soon as the cleaned XOR has 2^28
    variables. *)
Lemma add_xor_clause_inter_throws (E : Env) (lits : list Lit) (rhs attach addDrat : bool)
  (s : Solver) :
  okay s = true ->
  decisionLevel s = 0%nat ->
  (attach = true -> qhead s = length (trail s)) ->
  2 ^ 28 <= size (fst (clean_xor_no_prop E s (fst (xor_strip_signs lits rhs))
                                         (snd (xor_strip_signs lits rhs)))) ->
  add_xor_clause_inter E lits rhs attach addDrat s = Throws s.
Proof.
  intros Hok Hlev Hq Hlen. unfold add_xor_clause_inter.
  rewrite Hok, Hlev. cbn [Nat.eqb assert_then].
  assert (Hattach : negb attach || (qhead s =? length (trail s))%nat = true).
  { destruct attach; [| reflexivity]. rewrite Hq by reflexivity.
    rewrite Nat.eqb_refl. reflexivity. }
  rewrite Hattach. cbn [assert_then].
  destruct (xor_strip_signs lits rhs) as [ps1 rhs1]. cbn [fst snd] in Hlen.
  destruct (clean_xor_no_prop E s ps1 rhs1) as [ps2 rhs2]. cbn [fst] in Hlen.
  apply Z.leb_le in Hlen. rewrite Hlen. reflexivity.
Qed.

(** A clause too long for [add_clause_helper] makes [add_clause_outer]
    throw with the formula untouched: only the ID counter moved. *)
Lemma add_clause_outer_too_long (E : Env) (ps : list Lit) (red : bool) (s : Solver) :
  perform_occur_based_simp (conf s) && anythingHasBeenElimed (occsimplifier s) = false ->
  ok s = true -> decisionLevel s = 0%nat -> qhead s = length (trail s) ->
  2 ^ 28 < size ps ->
  add_clause_outer E ps red s = Throws (upd_clauseID (clauseID s + 1) s).
Proof.
  intros Hblk Hok Hlev Hq Hlen. unfold add_clause_outer. rewrite Hblk.
  destruct (add_clause_helper_throws_iff E ps (upd_clauseID (clauseID s + 1) s))
    as [_ Hthrow].
  destruct Hthrow as [s' Hs']; [auto |].
  assert (s' = upd_clauseID (clauseID s + 1) s) as ->.
  { unfold add_clause_helper in Hs'. cbn [ok upd_clauseID] in Hs'.
    rewrite Hok in Hs'. cbn [negb] in Hs'. unfold decisionLevel in *.
    cbn [trail_lim qhead trail upd_clauseID] in Hs'.
    rewrite Hlev, Hq, !Nat.eqb_refl in Hs'. cbn [assert_then] in Hs'.
    apply Z.ltb_lt in Hlen. rewrite Hlen in Hs'. congruence. }
  rewrite Hs'. reflexivity.
Qed.

(** *** The length check at exactly 2^28 literals *)

Lemma sort_lits_repeat (l : Lit) (n : nat) : sort_lits (repeat l n) = repeat l n.
Proof.
  apply Permutation_repeat. unfold sort_lits.
  apply merge_sort_Permutation.
Qed.

Lemma helper_replace_loop_repeat_s0 (n : nat) (s : Solver) :
  nVarsOuter s = 4%nat -> nVars s = 4%nat -> outerToInterMain s = [0; 1; 2; 3]%nat ->
  helper_replace_loop E0 (repeat 0 n) s = Returns (repeat 0 n) s.
Proof.
  intros Ho Hn Hmap. induction n as [| n IH]; [reflexivity |].
  cbn [repeat helper_replace_loop]. rewrite Ho.
  change (var 0) with 0%nat. cbn [Nat.leb].
  cbn [get_lit_replaced_with_outer E0].
  unfold map_outer_to_inter. rewrite Hmap, Hn.
  change (var 0) with 0%nat. cbn [nth sign].
  change (var (mkLit 0 (sign 0))) with 0%nat. cbn [Nat.leb].
  rewrite IH. reflexivity.
Qed.

Lemma clean_loop_repeat_kept (n : nat) (kept : list Lit) (s : Solver) :
  value s 0 = l_Undef ->
  clean_loop E0 false (repeat 0 n) 0 kept s = Returns (Some kept) s.
Proof.
  intros Hv. induction n as [| n IH]; [reflexivity |].
  cbn [repeat clean_loop]. rewrite Hv. cbn [lbool_eqb].
  change (0 =? lit_neg 0) with false. change (0 =? 0) with true.
  cbn [negb andb]. exact IH.
Qed.

Lemma clean_loop_repeat (n : nat) (s : Solver) :
  value s 0 = l_Undef -> removed s 0 = Removed_none ->
  clean_loop E0 false (repeat 0 (S n)) (lit_Undef E0) [] s = Returns (Some [0]) s.
Proof.
  intros Hv Hr. cbn [repeat clean_loop]. rewrite Hv. cbn [lbool_eqb].
  change (0 =? lit_neg (lit_Undef E0)) with false.
  change (0 =? lit_Undef E0) with false. cbn [negb andb].
  change (var 0) with 0%nat. rewrite Hr. cbn [Removed_eqb assert_then app].
  now apply clean_loop_repeat_kept.
Qed.

(** The public entry point accepts a clause of [n] copies of the literal
    [x0] whenever its length passes the check of [add_clause_helper]:
    the call returns [true] and [x0] is enqueued as a unit. *)
Lemma add_clause_outside_repeat (n : nat) :
  (2 <= n)%nat -> size (repeat 0 n) <= 2 ^ 28 ->
  exists s', add_clause_outside E0 (repeat 0 n) false s0 = Returns true s'
             /\ trail s' = [0] /\ value s' 0 = l_True /\ ok s' = true.
Proof.
  intros Hn Hlen. unfold add_clause_outside, add_clause_outer.
  cbn [ok s0 negb conf perform_occur_based_simp conf0 andb occsimplifier
       anythingHasBeenElimed].
  set (s1 := upd_clauseID (clauseID s0 + 1) s0).
  assert (Hhelper : add_clause_helper E0 (repeat 0 n) s1 = Returns (true, repeat 0 n) s1).
  { unfold add_clause_helper. cbn [ok s1 upd_clauseID s0 negb].
    change (decisionLevel s1) with 0%nat. change (qhead s1) with 0%nat.
    change (length (trail s1)) with 0%nat. cbn [Nat.eqb assert_then].
    match goal with |- context [(?a <? ?b)%Z] => destruct (Z.ltb_spec a b) end;
      [lia |].
    rewrite helper_replace_loop_repeat_s0 by reflexivity. cbn [bind].
    unfold renumber_outer_to_inter_lits. rewrite map_repeat.
    change (map_outer_to_inter s1 0) with 0.
    change (get_num_vars_elimed s1) with 0. reflexivity. }
  rewrite Hhelper. cbn [bind negb]. rewrite sort_lits_repeat.
  cbn [frat_enabled andb negb assert_then].
  unfold add_clause_int, sort_and_clean_clause.
  change (okay s1) with true. change (decisionLevel s1) with 0%nat.
  change (qhead s1) with 0%nat. change (length (trail s1)) with 0%nat.
  cbn [Nat.eqb negb orb assert_then].
  destruct n as [| [| n]]; [lia | lia |].
  rewrite clean_loop_repeat by reflexivity. cbn [bind].
  rewrite Z.eqb_refl. cbn [assert_then].
  assert (Hne : list_Z_eqb [0] (repeat 0 (S (S n))) = false).
  { unfold list_Z_eqb. apply bool_decide_eq_false. cbn [repeat]. discriminate. }
  rewrite Hne. cbn [negb bind propagate E0 fst].
  eexists. split; [reflexivity |]. repeat split.
Qed.

(** C2, at the boundary. A clause of exactly 2^28 literals, here 2^28
    copies of [x0], passes the length check of [add_clause_helper]
    whatever the collaborators and the state: nothing is thrown. On the
    sample solver the public entry point accepts it and enqueues [x0].
    An XOR that still has exactly 2^28 variables after
    [clean_xor_no_prop] is refused with the capacity error. *)
Theorem clause_of_2pow28_literals_accepted :
  size (repeat 0 (Z.to_nat (2 ^ 28))) = 2 ^ 28
  /\ (forall E s s', add_clause_helper E (repeat 0 (Z.to_nat (2 ^ 28))) s <> Throws s')
  /\ (exists s', add_clause_outside E0 (repeat 0 (Z.to_nat (2 ^ 28))) false s0
                 = Returns true s'
                 /\ trail s' = [0] /\ ok s' = true)
  /\ (forall E lits rhs attach addDrat s,
        okay s = true ->
        decisionLevel s = 0%nat ->
        (attach = true -> qhead s = length (trail s)) ->
        size (fst (clean_xor_no_prop E s (fst (xor_strip_signs lits rhs))
                                       (snd (xor_strip_signs lits rhs)))) = 2 ^ 28 ->
        add_xor_clause_inter E lits rhs attach addDrat s = Throws s).
Proof.
  assert (Hsize : size (repeat 0 (Z.to_nat (2 ^ 28))) = 2 ^ 28).
  { unfold size. rewrite repeat_length. apply Z2Nat.id. lia. }
  split; [exact Hsize |]. split; [| split].
  - intros E s s' H.
    destruct (add_clause_helper_throws_iff E (repeat 0 (Z.to_nat (2 ^ 28))) s) as [Hthrow _].
    destruct Hthrow as (_ & _ & _ & Hlt); [eauto |]. rewrite Hsize in Hlt. lia.
  - destruct (add_clause_outside_repeat (Z.to_nat (2 ^ 28))) as (s' & Hadd & Htrail & _ & Hok).
    + lia.
    + rewrite Hsize. lia.
    + exists s'. auto.
  - intros E lits rhs attach addDrat s Hok Hlev Hq Hlen.
    apply add_xor_clause_inter_throws; [assumption | assumption | assumption |].
    rewrite Hlen. lia.
Qed.

(** ** The schedule interpreter *)





(** ** The saving test in double precision

    [calc_renumber_saving] divides and subtracts in binary64. The
    lemmas below follow [SpecFloat]'s rounding on 53- and 54-bit
    mantissas and bound the quotient of two integers from below, so that
    the test [saving < 0.2] can be read against the integer counts. *)
















(** ** Variable renumbering *)

Lemma nth_list_insert {A : Type} (l : list A) (i j : nat) (c d : A) :
  nth i (<[j := c]> l) d = if (j =? i)%nat && (i <? length l)%nat then c else nth i l d.
Proof.
  destruct (Nat.eqb_spec j i) as [-> | Hne]; simpl.
  - destruct (Nat.ltb_spec i (length l)) as [Hlt | Hge].
    + rewrite nth_lookup, list_lookup_insert_eq by exact Hlt. reflexivity.
    + rewrite list_insert_ge by exact Hge. reflexivity.
  - rewrite !nth_lookup, list_lookup_insert_ne by exact Hne. reflexivity.
Qed.

Lemma live_below_S (s : Solver) (k : nat) :
  live_below s (S k) = (live_below s k + if var_is_dead s k then 0 else 1)%nat.
Proof.
  unfold live_below. rewrite seq_S, List.filter_app, length_app. simpl.
  destruct (var_is_dead s k); reflexivity.
Qed.



Lemma live_below_le (s : Solver) (k : nat) : (live_below s k <= k)%nat.
Proof.
  induction k as [| k IH]; [reflexivity |]. rewrite live_below_S.
  destruct (var_is_dead s k); lia.
Qed.

(** The first loop, after [k] rounds. *)
Lemma first_loop_inv (s : Solver) (m0 : RenumberMaps) (k : nat) :
  (k <= length (rm_outerToInter m0))%nat ->
  let m := fold_left (calc_step_live s) (seq 0 k) m0 in
  rm_at m = (rm_at m0 + live_below s k)%nat
  /\ rm_numEffectiveVars m = (rm_numEffectiveVars m0 + live_below s k)%nat
  /\ length (rm_outerToInter m) = length (rm_outerToInter m0)
  /\ (length (rm_useless m) + live_below s k = length (rm_useless m0) + k)%nat
  /\ (forall d, In d (rm_useless m) ->
        In d (rm_useless m0) \/ ((d < k)%nat /\ var_is_dead s d = true))
  /\ (forall d, (d < k)%nat -> var_is_dead s d = true -> In d (rm_useless m))
  /\ (forall i, (i < k)%nat -> var_is_dead s i = false ->
        nth i (rm_outerToInter m) 0%nat = (rm_at m0 + live_below s i)%nat)
  /\ (forall i, (k <= i)%nat ->
        nth i (rm_outerToInter m) 0%nat = nth i (rm_outerToInter m0) 0%nat).
Proof.
  induction k as [| k IH]; intros Hlen m.
  - subst m. simpl. unfold live_below. simpl.
    repeat split; intros; auto; try lia.
  - subst m. rewrite seq_S, fold_left_app. simpl.
    destruct IH as (Hat & Hnum & Hl & Hul & Hin & Hdead & Hlive & Hrest); [lia |].
    set (m := fold_left (calc_step_live s) (seq 0 k) m0) in *.
    rewrite live_below_S. unfold calc_step_live.
    destruct (var_is_dead s k) eqn:Hk; cbn [rm_at rm_numEffectiveVars rm_outerToInter rm_useless].
    + repeat split; try lia.
      * rewrite length_app. simpl. lia.
      * intros d Hd. apply in_app_or in Hd as [Hd | [<- | []]].
        -- destruct (Hin d Hd) as [? | [? ?]]; [auto | right; split; [lia | auto]].
        -- right. split; [lia | exact Hk].
      * intros d Hd Hdd. apply in_or_app.
        destruct (Nat.eq_dec d k) as [-> | Hne]; [right; now left |].
        left. apply Hdead; [lia | exact Hdd].
      * intros i Hi Hli. destruct (Nat.eq_dec i k) as [-> | Hne]; [congruence |].
        apply Hlive; [lia | exact Hli].
      * intros i Hi. apply Hrest. lia.
    + repeat split; try lia.
      * rewrite length_insert. exact Hl.
      * intros d Hd. destruct (Hin d Hd) as [? | [? ?]]; [auto | right; split; [lia | auto]].
      * intros d Hd Hdd. destruct (Nat.eq_dec d k) as [-> | Hne]; [congruence |].
        apply Hdead; [lia | exact Hdd].
      * intros i Hi Hli. rewrite nth_list_insert.
        destruct (Nat.eqb_spec k i) as [<- | Hne]; simpl.
        -- destruct (Nat.ltb_spec k (length (rm_outerToInter m))); [exact Hat | lia].
        -- apply Hlive; [lia | exact Hli].
      * intros i Hi. rewrite nth_list_insert.
        destruct (Nat.eqb_spec k i); [lia |]. simpl. apply Hrest. lia.
Qed.

(** The second loop over the set-aside variables [ds]. *)
Lemma second_loop_inv (ds : list nat) (m : RenumberMaps) :
  let m' := fold_left calc_step_useless ds m in
  rm_at m' = (rm_at m + length ds)%nat
  /\ rm_numEffectiveVars m' = rm_numEffectiveVars m
  /\ length (rm_outerToInter m') = length (rm_outerToInter m)
  /\ (forall i, ~ In i ds ->
        nth i (rm_outerToInter m') 0%nat = nth i (rm_outerToInter m) 0%nat)
  /\ (forall d, In d ds -> (d < length (rm_outerToInter m))%nat ->
        (rm_at m <= nth d (rm_outerToInter m') 0 < rm_at m + length ds)%nat).
Proof.
  revert m. induction ds as [| d0 ds IH]; intros m; simpl.
  - repeat split; intros; auto; try lia; contradiction.
  - destruct (IH (calc_step_useless m d0)) as (Hat & Hnum & Hl & Hout & Hin).
    cbn [calc_step_useless rm_at rm_numEffectiveVars rm_outerToInter] in *.
    rewrite length_insert in *.
    repeat split; try lia.
    + intros i Hi. rewrite Hout by tauto. rewrite nth_list_insert.
      destruct (Nat.eqb_spec d0 i); [tauto | reflexivity].
    + destruct (in_dec Nat.eq_dec d ds) as [Hd | Hd].
      * specialize (Hin d Hd H0). lia.
      * destruct H as [<- | H]; [| contradiction].
        rewrite Hout by exact Hd. rewrite nth_list_insert, Nat.eqb_refl.
        destruct (Nat.ltb_spec d0 (length (rm_outerToInter m))); simpl; lia.
    + destruct (in_dec Nat.eq_dec d ds) as [Hd | Hd].
      * specialize (Hin d Hd H0). lia.
      * destruct H as [<- | H]; [| contradiction].
        rewrite Hout by exact Hd. rewrite nth_list_insert, Nat.eqb_refl.
        destruct (Nat.ltb_spec d0 (length (rm_outerToInter m))); simpl; lia.
Qed.

(** The third loop writes at the indices it is given only. *)
Lemma third_loop_inv (js : list nat) (m : RenumberMaps) :
  let m' := fold_left calc_step_identity js m in
  rm_numEffectiveVars m' = rm_numEffectiveVars m
  /\ (forall i, ~ In i js ->
        nth i (rm_outerToInter m') 0%nat = nth i (rm_outerToInter m) 0%nat).
Proof.
  revert m. induction js as [| j js IH]; intros m; simpl; [auto |].
  destruct (IH (calc_step_identity m j)) as (Hnum & Hout).
  cbn [calc_step_identity rm_numEffectiveVars rm_outerToInter] in *.
  split; [exact Hnum |].
  intros i Hi. rewrite Hout by tauto. rewrite nth_list_insert.
  destruct (Nat.eqb_spec j i); [tauto | reflexivity].
Qed.


Example calculate_maps_two_dead :
  calculate_interToOuter_and_outerToInter s_two_dead
    (replicate 4 0%nat) (replicate 4 0%nat)
  = Returns (2%nat, [0; 2; 3; 1]%nat, [0; 3; 1; 2]%nat) s_two_dead.
Proof. reflexivity. Qed.



(** Six variables of which one is set, a sixth: the call that is not
    forced leaves the solver as it was. *)
Example renumber_variables_one_of_six :
  renumber_variables E0 false (s_one_set 6) = Returns true (s_one_set 6).
Proof. vm_compute. reflexivity. Qed.

(** Five variables of which one is set, exactly a fifth. The quotient
    [4.0 / 5.0] rounds to the double [0.8], which is above four fifths,
    so the saving comes out as [0.19999999999999996], below the literal
    [0.2]: the call that is not forced returns at once here too. *)
Example renumber_variables_one_of_five :
  calc_renumber_saving (s_one_set 5) = S754_finite false 7205759403792792 (-55)
  /\ d_lt (calc_renumber_saving (s_one_set 5)) d_0_2 = true
  /\ renumber_variables E0 false (s_one_set 5) = Returns true (s_one_set 5).
Proof. vm_compute. repeat split; reflexivity. Qed.



(** ** Cleaning a clause *)

Lemma var_lit_neg (l : Lit) : var (lit_neg l) = var l.
Proof.
  unfold var, lit_neg. f_equal. rewrite Z.shiftr_lxor.
  change (Z.shiftr 1 1) with 0. apply Z.lxor_0_r.
Qed.

Lemma sign_lit_neg (l : Lit) : sign (lit_neg l) = negb (sign l).
Proof.
  unfold sign, lit_neg. rewrite Z.lxor_spec. change (Z.testbit 1 0) with true.
  apply xorb_true_r.
Qed.

Lemma lit_neg_involutive (l : Lit) : lit_neg (lit_neg l) = l.
Proof.
  unfold lit_neg. rewrite Z.lxor_assoc, Z.lxor_nilpotent. apply Z.lxor_0_r.
Qed.

Lemma lit_neg_neq (l : Lit) : lit_neg l <> l.
Proof.
  intros H. pose proof (sign_lit_neg l) as Hs. rewrite H in Hs.
  destruct (sign l); discriminate.
Qed.

Lemma value_lit_neg (s : Solver) (l : Lit) :
  value s (lit_neg l) = lbool_xor (value s l) true.
Proof.
  unfold value. rewrite var_lit_neg, sign_lit_neg.
  destruct (value_var s (var l)), (sign l); reflexivity.
Qed.

Lemma value_false_neg_true (s : Solver) (l : Lit) :
  value s l = l_False -> value s (lit_neg l) = l_True.
Proof. intros H. rewrite value_lit_neg, H. reflexivity. Qed.

(** On a proper literal, negation moves the encoding by one. *)
Lemma lit_neg_adjacent (l : Lit) : 0 <= l -> lit_neg l = l + 1 \/ lit_neg l = l - 1.
Proof.
  intros Hl. unfold lit_neg.
  destruct l as [| p | p]; [left; reflexivity | | lia].
  destruct p; simpl; [right | left | right]; reflexivity.
Qed.

Lemma lbool_eqb_eq (a b : lbool) : lbool_eqb a b = true <-> a = b.
Proof. destruct a, b; simpl; split; congruence. Qed.

Lemma Removed_eqb_eq (a b : Removed) : Removed_eqb a b = true <-> a = b.
Proof. destruct a, b; simpl; split; congruence. Qed.

(** One round of [clean_loop], by cases. *)
Lemma clean_loop_cons (E : Env) (red : bool) (l : Lit) (rest : list Lit) (p : Lit)
  (kept : list Lit) (s : Solver) :
  clean_loop E red (l :: rest) p kept s =
    if lbool_eqb (value s l) l_True then Returns None s
    else if l =? lit_neg p then
      Returns None (if red then s else flag_undef_must_set p s)
    else if negb (lbool_eqb (value s l) l_False) && negb (l =? p) then
      assert_then (Removed_eqb (removed s (var l)) Removed_none)
        (clean_loop E red rest l (kept ++ [l]) s)
    else clean_loop E red rest p kept s.
Proof. reflexivity. Qed.

(** With no removed variable among the literals the loop returns. *)
Lemma clean_loop_returns (E : Env) (red : bool) (rest : list Lit) (p : Lit)
  (kept : list Lit) (s : Solver) :
  (forall l, In l rest -> removed s (var l) = Removed_none) ->
  exists r s', clean_loop E red rest p kept s = Returns r s'.
Proof.
  revert p kept. induction rest as [| l rest IH]; intros p kept Hrem.
  - simpl. eauto.
  - rewrite clean_loop_cons.
    destruct (lbool_eqb (value s l) l_True); [eauto |].
    destruct (l =? lit_neg p); [eauto |].
    assert (Hrest : forall x, In x rest -> removed s (var x) = Removed_none)
      by (intros x Hx; apply Hrem; now right).
    destruct (negb (lbool_eqb (value s l) l_False) && negb (l =? p)).
    + rewrite (Hrem l) by now left. cbn [Removed_eqb assert_then]. now apply IH.
    + now apply IH.
Qed.

(** The [false] return of the loop is owed to a true literal, or to a
    literal next to its negation, or to the negation of the initial
    [p]; the state is as it was up to the flag of the tautology exit. *)
Lemma clean_loop_None (E : Env) (red : bool) (rest : list Lit) (p : Lit)
  (kept : list Lit) (s s' : Solver) :
  clean_loop E red rest p kept s = Returns None s' ->
  (s' = s \/ exists q, s' = flag_undef_must_set q s)
  /\ (clause_satisfied s rest
      \/ exists x, In x rest /\ (x = lit_neg p \/ In (lit_neg x) rest)).
Proof.
  revert p kept. induction rest as [| l rest IH]; intros p kept H.
  - discriminate H.
  - rewrite clean_loop_cons in H.
    destruct (lbool_eqb (value s l) l_True) eqn:Htrue.
    { inversion H; subst. split; [now left |]. left. exists l.
      split; [now left | now apply lbool_eqb_eq]. }
    destruct (Z.eqb_spec l (lit_neg p)) as [Hneg | Hneg].
    { inversion H; subst s'. split.
      - destruct red; [now left | right; eauto].
      - right. exists (lit_neg p). split; [now left | now left]. }
    assert (Hlift : forall q, clause_satisfied s rest
              \/ (exists x, In x rest /\ (x = lit_neg q \/ In (lit_neg x) rest)) ->
              q = p \/ q = l ->
              clause_satisfied s (l :: rest)
              \/ exists x, In x (l :: rest)
                           /\ (x = lit_neg p \/ In (lit_neg x) (l :: rest))).
    { intros q [(x & Hx & Hv) | (x & Hx & [Hq | Hin])] Hq'.
      - left. exists x. split; [now right | exact Hv].
      - right. destruct Hq' as [-> | ->].
        + exists x. split; [now right | now left].
        + exists l. split; [now left |]. right. right. now rewrite <- Hq.
      - right. exists x. split; [now right |]. right. now right. }
    destruct (negb (lbool_eqb (value s l) l_False) && negb (l =? p)).
    + unfold assert_then in H.
      destruct (Removed_eqb (removed s (var l)) Removed_none); [| discriminate].
      destruct (IH _ _ H) as [Hs Hc]. split; [exact Hs |]. apply (Hlift l); auto.
    + destruct (IH _ _ H) as [Hs Hc]. split; [exact Hs |]. apply (Hlift p); auto.
Qed.

Lemma sorted_head_le (l : Z) (rest : list Z) :
  Sorted Z.le (l :: rest) -> forall x, In x rest -> l <= x.
Proof.
  revert l. induction rest as [| y rest IH]; intros l Hs x Hx; [destruct Hx |].
  inversion Hs as [| ? ? Hs' Hhd]; subst. inversion Hhd; subst.
  destruct Hx as [<- | Hx]; [assumption |].
  specialize (IH y Hs' x Hx). lia.
Qed.

Lemma no_pair_cons (l : Lit) (rest : list Lit) :
  (forall x, In x rest -> x <> lit_neg l) ->
  (forall x, In x rest -> ~ In (lit_neg x) rest) ->
  forall x, In x (l :: rest) -> ~ In (lit_neg x) (l :: rest).
Proof.
  intros Hn Hpair x [<- | Hx] [Hy | Hy].
  - apply (lit_neg_neq l). now symmetry.
  - now apply (Hn _ Hy).
  - apply (Hn _ Hx). now rewrite Hy, lit_neg_involutive.
  - now apply (Hpair x).
Qed.

(** The [true] return of the loop on a sorted clause: no literal is
    true, none is the negation of [p], none meets its negation. [p] is
    [lit_Undef] or a proper literal below all that is left to scan. *)
Lemma clean_loop_Some_clean (E : Env) (red : bool) (rest : list Lit) (p : Lit)
  (kept c : list Lit) (s s' : Solver) :
  Sorted Z.le rest ->
  (forall x, In x rest -> 0 <= x /\ x <> lit_neg (lit_Undef E)) ->
  p = lit_Undef E \/ (0 <= p /\ forall x, In x rest -> p <= x) ->
  clean_loop E red rest p kept s = Returns (Some c) s' ->
  (forall x, In x rest -> value s x <> l_True)
  /\ (forall x, In x rest -> x <> lit_neg p)
  /\ (forall x, In x rest -> ~ In (lit_neg x) rest).
Proof.
  revert p kept. induction rest as [| l rest IH]; intros p kept Hsort Hund Hp H.
  - repeat split; intros x [].
  - rewrite clean_loop_cons in H.
    destruct (lbool_eqb (value s l) l_True) eqn:Htrue; [discriminate |].
    destruct (Z.eqb_spec l (lit_neg p)) as [Hneg | Hneg]; [discriminate |].
    assert (Hsort' : Sorted Z.le rest) by (now inversion Hsort).
    assert (Hle : forall x, In x rest -> l <= x) by (now apply sorted_head_le).
    assert (Hund' : forall x, In x rest -> 0 <= x /\ x <> lit_neg (lit_Undef E))
      by (intros x Hx; apply Hund; now right).
    assert (Hl0 : 0 <= l) by (apply Hund; now left).
    assert (Hltrue : value s l <> l_True).
    { intros Hv. apply lbool_eqb_eq in Hv. congruence. }
    destruct (lbool_eqb (value s l) l_False) eqn:Hfalse; cbn [negb andb] in H.
    + (* a false literal is dropped *)
      apply lbool_eqb_eq in Hfalse.
      assert (Hp' : p = lit_Undef E \/ (0 <= p /\ forall x, In x rest -> p <= x)).
      { destruct Hp as [Hp | [Hp0 Hp]]; [now left | right].
        split; [exact Hp0 | intros x Hx; apply Hp; now right]. }
      destruct (IH _ _ Hsort' Hund' Hp' H) as (Ht & Hn & Hpair).
      assert (Hnl : ~ In (lit_neg l) rest).
      { intros Hin. apply (Ht _ Hin). now apply value_false_neg_true. }
      split; [| split].
      * intros x [<- | Hx]; auto.
      * intros x [<- | Hx]; auto.
      * apply no_pair_cons; [| exact Hpair].
        intros x Hx ->. exact (Hnl Hx).
    + destruct (Z.eqb_spec l p) as [Hlp | Hlp]; cbn [negb] in H.
      * (* a repetition of [p] is dropped *)
        subst p.
        assert (Hp' : l = lit_Undef E \/ (0 <= l /\ forall x, In x rest -> l <= x)).
        { destruct Hp as [Hp | [Hp0 Hp]]; [now left | right]. split; auto. }
        destruct (IH _ _ Hsort' Hund' Hp' H) as (Ht & Hn & Hpair).
        split; [| split].
        -- intros x [<- | Hx]; auto.
        -- intros x [<- | Hx]; auto.
        -- now apply no_pair_cons.
      * (* the literal is kept and becomes [p] *)
        unfold assert_then in H.
        destruct (Removed_eqb (removed s (var l)) Removed_none); [| discriminate].
        assert (Hp' : l = lit_Undef E \/ (0 <= l /\ forall x, In x rest -> l <= x))
          by (right; split; auto).
        destruct (IH _ _ Hsort' Hund' Hp' H) as (Ht & Hn & Hpair).
        split; [| split].
        -- intros x [<- | Hx]; auto.
        -- intros x [<- | Hx]; auto.
           destruct Hp as [-> | [Hp0 Hp]]; [now apply Hund' |].
           specialize (Hp l (or_introl eq_refl)). specialize (Hle x Hx).
           destruct (lit_neg_adjacent p Hp0) as [Hadj | Hadj]; rewrite Hadj in *; lia.
        -- now apply no_pair_cons.
Qed.

(** The literals that the [true] return of the loop leaves: those kept
    before and the literals left to scan that are not false. *)
Lemma clean_loop_Some_mem (E : Env) (red : bool) (rest : list Lit) (p : Lit)
  (kept c : list Lit) (s s' : Solver) :
  (forall x, In x rest -> x <> lit_Undef E) ->
  p = lit_Undef E \/ In p kept ->
  clean_loop E red rest p kept s = Returns (Some c) s' ->
  forall x, In x c <-> In x kept \/ (In x rest /\ value s x <> l_False).
Proof.
  revert p kept. induction rest as [| l rest IH]; intros p kept Hund Hp H x.
  - simpl in H. inversion H; subst. simpl. tauto.
  - rewrite clean_loop_cons in H.
    destruct (lbool_eqb (value s l) l_True); [discriminate |].
    destruct (l =? lit_neg p); [discriminate |].
    assert (Hund' : forall y, In y rest -> y <> lit_Undef E)
      by (intros y Hy; apply Hund; now right).
    destruct (lbool_eqb (value s l) l_False) eqn:Hfalse; cbn [negb andb] in H.
    + apply lbool_eqb_eq in Hfalse.
      rewrite (IH _ _ Hund' Hp H x). simpl. split.
      * intros [Hk | [Hr Hv]]; [now left | right; split; [now right | exact Hv]].
      * intros [Hk | [[<- | Hr] Hv]]; [now left | contradiction | right; auto].
    + assert (Hnf : value s l <> l_False).
      { intros Hv. apply lbool_eqb_eq in Hv. congruence. }
      destruct (Z.eqb_spec l p) as [Hlp | Hlp]; cbn [negb] in H.
      * subst p. destruct Hp as [Hp | Hp]; [exfalso; apply (Hund l); [now left | exact Hp] |].
        rewrite (IH _ _ Hund' (or_intror Hp) H x). simpl. split.
        -- intros [Hk | [Hr Hv]]; [now left | right; split; [now right | exact Hv]].
        -- intros [Hk | [[<- | Hr] Hv]]; [now left | now left | right; auto].
      * unfold assert_then in H.
        destruct (Removed_eqb (removed s (var l)) Removed_none); [| discriminate].
        assert (Hp' : l = lit_Undef E \/ In l (kept ++ [l]))
          by (right; apply in_or_app; right; now left).
        rewrite (IH _ _ Hund' Hp' H x). rewrite in_app_iff. simpl. split.
        -- intros [[Hk | [<- | []]] | [Hr Hv]]; auto.
        -- intros [Hk | [[<- | Hr] Hv]]; auto.
Qed.

Lemma StronglySorted_lt_snoc (kept : list Z) (l : Z) :
  StronglySorted Z.lt kept -> (forall x, In x kept -> x < l) ->
  StronglySorted Z.lt (kept ++ [l]).
Proof.
  induction kept as [| k kept IH]; intros Hs Hlt; simpl.
  - repeat constructor.
  - inversion Hs as [| ? ? Hs' Hall]; subst. constructor.
    + apply IH; [exact Hs' | intros x Hx; apply Hlt; now right].
    + rewrite List.Forall_forall in *. intros x Hx.
      apply in_app_or in Hx as [Hx | [<- | []]].
      * now apply Hall.
      * apply Hlt. now left.
Qed.

(** The [true] return of the loop on a sorted clause lists its literals
    in strictly increasing order. *)
Lemma clean_loop_Some_sorted (E : Env) (red : bool) (rest : list Lit) (p : Lit)
  (kept c : list Lit) (s s' : Solver) :
  Sorted Z.le rest ->
  (forall x, In x rest -> x <> lit_Undef E) ->
  StronglySorted Z.lt kept ->
  (p = lit_Undef E /\ kept = [])
  \/ ((forall x, In x kept -> x <= p) /\ (forall x, In x rest -> p <= x)) ->
  clean_loop E red rest p kept s = Returns (Some c) s' ->
  StronglySorted Z.lt c.
Proof.
  revert p kept. induction rest as [| l rest IH]; intros p kept Hsort Hund Hk Hp H.
  - simpl in H. inversion H; subst. exact Hk.
  - rewrite clean_loop_cons in H.
    destruct (lbool_eqb (value s l) l_True); [discriminate |].
    destruct (l =? lit_neg p); [discriminate |].
    assert (Hsort' : Sorted Z.le rest) by (now inversion Hsort).
    assert (Hle : forall x, In x rest -> l <= x) by (now apply sorted_head_le).
    assert (Hund' : forall y, In y rest -> y <> lit_Undef E)
      by (intros y Hy; apply Hund; now right).
    assert (Hp' : (p = lit_Undef E /\ kept = [])
                  \/ ((forall x, In x kept -> x <= p) /\ (forall x, In x rest -> p <= x))).
    { destruct Hp as [Hp | [Hp1 Hp2]]; [now left | right].
      split; [exact Hp1 | intros x Hx; apply Hp2; now right]. }
    destruct (negb (lbool_eqb (value s l) l_False) && negb (l =? p)) eqn:Hkeep.
    + unfold assert_then in H.
      destruct (Removed_eqb (removed s (var l)) Removed_none); [| discriminate].
      apply andb_true_iff in Hkeep as [_ Hlp]. apply negb_true_iff, Z.eqb_neq in Hlp.
      apply (IH _ _ Hsort' Hund') in H; [exact H | |].
      * apply StronglySorted_lt_snoc; [exact Hk |].
        intros x Hx. destruct Hp as [[_ ->] | [Hp1 Hp2]]; [destruct Hx |].
        specialize (Hp1 x Hx). specialize (Hp2 l (or_introl eq_refl)). lia.
      * right. split; [| exact Hle].
        intros x Hx. apply in_app_or in Hx as [Hx | [<- | []]]; [| lia].
        destruct Hp as [[_ ->] | [Hp1 Hp2]]; [destruct Hx |].
        specialize (Hp1 x Hx). specialize (Hp2 l (or_introl eq_refl)). lia.
    + now apply (IH _ _ Hsort' Hund' Hk Hp').
Qed.

Lemma sort_lits_In (ps : list Lit) (x : Lit) : In x (sort_lits ps) <-> In x ps.
Proof.
  unfold sort_lits. split; apply Permutation_in.
  - apply merge_sort_Permutation.
  - symmetry. apply merge_sort_Permutation.
Qed.

Lemma sort_lits_sorted (ps : list Lit) : Sorted Z.le (sort_lits ps).
Proof. unfold sort_lits. apply Sorted_merge_sort. intros a b. lia. Qed.

(** [sort_and_clean_clause], in the words of the claim: it returns;
    [false] exactly on a satisfied clause or a tautology, and then with
    the state as it was up to the flag of the tautology exit; [true]
    otherwise, with the clause cleaned. *)
Lemma sort_and_clean_clause_spec (E : Env) (lits : list Lit) (red sorted : bool)
  (s : Solver) :
  (forall l, In l lits ->
     0 <= l /\ l <> lit_Undef E /\ l <> lit_neg (lit_Undef E)
     /\ removed s (var l) = Removed_none) ->
  (sorted = true -> Sorted Z.le lits) ->
  exists r s',
    sort_and_clean_clause E lits red sorted s = Returns r s'
    /\ match r with
       | None =>
           (clause_satisfied s lits \/ clause_tautology lits)
           /\ (s' = s \/ exists q, s' = flag_undef_must_set q s)
       | Some c =>
           s' = s /\ ~ clause_satisfied s lits /\ ~ clause_tautology lits
           /\ cleaned_of s lits c
       end.
Proof.
  intros Hpre Hsorted. unfold sort_and_clean_clause.
  set (ps := if sorted then lits else sort_lits lits).
  assert (Hin : forall x, In x ps <-> In x lits).
  { subst ps. destruct sorted; [tauto | apply sort_lits_In]. }
  assert (Hsort : Sorted Z.le ps).
  { subst ps. destruct sorted; [now apply Hsorted | apply sort_lits_sorted]. }
  assert (Hpre' : forall l, In l ps ->
            0 <= l /\ l <> lit_Undef E /\ l <> lit_neg (lit_Undef E)
            /\ removed s (var l) = Removed_none)
    by (intros l Hl; apply Hpre, Hin, Hl).
  destruct (clean_loop_returns E red ps (lit_Undef E) [] s) as (r & s' & Hrun).
  { intros l Hl. now apply Hpre'. }
  exists r, s'. split; [exact Hrun |]. destruct r as [c |].
  - pose proof (clean_loop_keeps_state _ _ _ _ _ _ _ _ Hrun) as ->.
    destruct (clean_loop_Some_clean E red ps (lit_Undef E) [] c s s Hsort)
      as (Ht & _ & Hpair); [| now left | exact Hrun |].
    { intros x Hx. destruct (Hpre' x Hx) as (? & ? & ? & ?). auto. }
    split; [reflexivity |]. split; [| split; [| split]].
    + intros (l & Hl & Hv). apply (Ht l); [now apply Hin | exact Hv].
    + intros (l & Hl & Hn). apply (Hpair l); now apply Hin.
    + apply (clean_loop_Some_sorted E red ps (lit_Undef E) [] c s s Hsort);
        [| constructor | now left | exact Hrun].
      intros x Hx. now destruct (Hpre' x Hx) as (? & ? & ? & ?).
    + intros x.
      rewrite (clean_loop_Some_mem E red ps (lit_Undef E) [] c s s);
        [| | now left | exact Hrun].
      * rewrite Hin. simpl. tauto.
      * intros y Hy. now destruct (Hpre' y Hy) as (? & ? & ? & ?).
  - destruct (clean_loop_None _ _ _ _ _ _ _ Hrun) as [Hs Hc]. split; [| exact Hs].
    destruct Hc as [(l & Hl & Hv) | (x & Hx & [Hn | Hn])].
    + left. exists l. split; [now apply Hin | exact Hv].
    + exfalso. destruct (Hpre' x Hx) as (_ & _ & Hne & _). contradiction.
    + right. exists x. split; now apply Hin.
Qed.






Example add_clause_int_long_clause :
  exists s',
    add_clause_int E0 [4; 0; 2; 4] false None true true (lit_Undef E0) false false s0
      = Returns (Some 0%nat, [0; 2; 4]) s'
    /\ map cl_lits (cl_alloc s') = [[0; 2; 4]].
Proof. eexists. split; reflexivity. Qed.

(* ================================================================== *)
(** * Part III: further properties                                     *)
(* ================================================================== *)

(** ** Outcomes *)

Lemma bind_Returns_inv {A B : Type} (m : Outcome A) (k : A -> Solver -> Outcome B)
  (b : B) (s' : Solver) :
  bind m k = Returns b s' -> exists a s1, m = Returns a s1 /\ k a s1 = Returns b s'.
Proof. destruct m; simpl; intros H; try discriminate. eauto. Qed.

Lemma assert_then_Returns_inv {A : Type} (c : bool) (k : Outcome A) (a : A) (s' : Solver) :
  assert_then c k = Returns a s' -> c = true /\ k = Returns a s'.
Proof. destruct c; simpl; intros H; [auto | discriminate]. Qed.

(** ** Literals *)

Lemma var_mkLit (v : nat) (b : bool) : var (mkLit v b) = v.
Proof.
  unfold var, mkLit. rewrite Z.shiftr_div_pow2 by lia. change (2 ^ 1) with 2.
  replace (2 * Z.of_nat v + Z.b2z b) with (Z.b2z b + Z.of_nat v * 2) by lia.
  rewrite Z.div_add by lia.
  replace (Z.b2z b / 2) with 0 by (destruct b; reflexivity).
  rewrite Z.add_0_l. apply Nat2Z.id.
Qed.

Lemma sign_mkLit (v : nat) (b : bool) : sign (mkLit v b) = b.
Proof.
  unfold sign, mkLit. apply Z.testbit_0_r.
Qed.

Lemma mkLit_var_sign (l : Lit) : 0 <= l -> mkLit (var l) (sign l) = l.
Proof.
  intros Hl. unfold mkLit, var, sign.
  rewrite Z2Nat.id by (apply Z.shiftr_nonneg; lia).
  rewrite Z.shiftr_div_pow2 by lia. change (2 ^ 1) with 2.
  rewrite Z.bit0_mod. pose proof (Z.div_mod l 2 ltac:(lia)) as Hdm.
  pose proof (Z.mod_pos_bound l 2 ltac:(lia)) as Hb.
  destruct (Z.eq_dec (l mod 2) 0) as [H0 | H1].
  - rewrite H0 in *. cbn [Z.b2z Z.eqb]. lia.
  - assert (l mod 2 = 1) as H1' by lia. rewrite H1' in *. cbn [Z.b2z Z.eqb]. lia.
Qed.

(** ** The sign normalisation of XOR constraints *)

Lemma lit_true_neg (a : nat -> bool) (l : Lit) :
  lit_true a (lit_neg l) = negb (lit_true a l).
Proof.
  unfold lit_true. rewrite var_lit_neg, sign_lit_neg.
  destruct (a (var l)), (sign l); reflexivity.
Qed.

(** X1. The loop at the head of [add_xor_clause_inter] that makes every
    literal positive keeps the variables in place and the meaning of the
    constraint: under every assignment the XOR of the stripped literals
    equals the adjusted right-hand side exactly when the XOR of the given
    literals equals the given one. *)
Theorem xor_strip_signs_sound (ps : list Lit) (rhs : bool) (a : nat -> bool) :
  Forall (fun l => sign l = false) (fst (xor_strip_signs ps rhs))
  /\ map var (fst (xor_strip_signs ps rhs)) = map var ps
  /\ xor_holds a (fst (xor_strip_signs ps rhs)) (snd (xor_strip_signs ps rhs))
     = xor_holds a ps rhs.
Proof.
  revert rhs. induction ps as [| l ps IH]; intros rhs.
  - cbn. repeat split; constructor.
  - cbn [xor_strip_signs].
    specialize (IH (if sign l then xorb rhs true else rhs)).
    destruct (xor_strip_signs ps (if sign l then xorb rhs true else rhs)) as [ps' rhs'].
    cbn [fst snd] in *. destruct IH as (IHs & IHv & IHx).
    unfold xor_holds, parity in *. cbn [map fold_right].
    destruct (sign l) eqn:Hs.
    + change (lit_xor l true) with (lit_neg l). split; [| split].
      * constructor; [| exact IHs]. rewrite sign_lit_neg, Hs. reflexivity.
      * rewrite var_lit_neg, IHv. reflexivity.
      * rewrite lit_true_neg.
        destruct (lit_true a l), (fold_right xorb false (map (lit_true a) ps')),
          (fold_right xorb false (map (lit_true a) ps)), rhs, rhs';
          cbn in *; congruence.
    + split; [| split].
      * constructor; assumption.
      * rewrite IHv. reflexivity.
      * destruct (lit_true a l), (fold_right xorb false (map (lit_true a) ps')),
          (fold_right xorb false (map (lit_true a) ps)), rhs, rhs';
          cbn in *; congruence.
Qed.

(** ** Cleaning keeps the meaning of a clause *)

Lemma agrees_value_true (a : nat -> bool) (s : Solver) (l : Lit) :
  agrees a s -> value s l = l_True -> lit_true a l = true.
Proof.
  intros Ha Hv. unfold value in Hv. unfold lit_true.
  destruct (Ha (var l)) as [Ht Hf].
  destruct (value_var s (var l)), (sign l); try discriminate.
  - rewrite Ht by reflexivity. reflexivity.
  - rewrite Hf by reflexivity. reflexivity.
Qed.

Lemma agrees_value_false (a : nat -> bool) (s : Solver) (l : Lit) :
  agrees a s -> value s l = l_False -> lit_true a l = false.
Proof.
  intros Ha Hv. unfold value in Hv. unfold lit_true.
  destruct (Ha (var l)) as [Ht Hf].
  destruct (value_var s (var l)), (sign l); try discriminate.
  - rewrite Ht by reflexivity. reflexivity.
  - rewrite Hf by reflexivity. reflexivity.
Qed.

Lemma clause_holds_true (a : nat -> bool) (lits : list Lit) :
  clause_holds a lits = true <-> exists l, In l lits /\ lit_true a l = true.
Proof. unfold clause_holds. apply existsb_exists. Qed.

(** X2. [sort_and_clean_clause] keeps the meaning of the clause. Under
    every total assignment that agrees with the values set at level 0:
    when the function returns [false] the clause given holds, so nothing
    is lost by dropping it; when it returns [true] the clause it leaves
    holds exactly when the clause given holds. *)
Theorem sort_and_clean_clause_sound (E : Env) (lits : list Lit) (red sorted : bool)
  (s : Solver) (a : nat -> bool) :
  (forall l, In l lits ->
     0 <= l /\ l <> lit_Undef E /\ l <> lit_neg (lit_Undef E)
     /\ removed s (var l) = Removed_none) ->
  (sorted = true -> Sorted Z.le lits) ->
  agrees a s ->
  exists r s',
    sort_and_clean_clause E lits red sorted s = Returns r s'
    /\ match r with
       | None => clause_holds a lits = true
       | Some c => clause_holds a c = clause_holds a lits
       end.
Proof.
  intros Hpre Hsorted Ha.
  destruct (sort_and_clean_clause_spec E lits red sorted s Hpre Hsorted)
    as (r & s' & Hrun & Hr).
  exists r, s'. split; [exact Hrun |]. destruct r as [c |].
  - destruct Hr as (_ & _ & _ & _ & Hmem).
    apply eq_true_iff_eq. rewrite !clause_holds_true. split.
    + intros (l & Hl & Ht). exists l. split; [| exact Ht]. now apply Hmem.
    + intros (l & Hl & Ht). exists l. split; [| exact Ht]. apply Hmem.
      split; [exact Hl |]. intros Hf.
      rewrite (agrees_value_false a s l Ha Hf) in Ht. discriminate.
  - destruct Hr as [[(l & Hl & Hv) | (l & Hl & Hn)] _]; apply clause_holds_true.
    + exists l. split; [exact Hl |]. now apply (agrees_value_true a s).
    + destruct (lit_true a l) eqn:Ht.
      * exists l. auto.
      * exists (lit_neg l). split; [exact Hn |]. rewrite lit_true_neg, Ht. reflexivity.
Qed.

(** The clause [x0, x1, x1, x2] on the solver where [x0] is false, under
    the assignment that makes [x1] true and the other variables false. *)
Lemma sort_and_clean_clause_sound_witness :
  exists r s',
    sort_and_clean_clause E0 [0; 2; 2; 4] false false s_x0_false = Returns r s'
    /\ match r with
       | None => clause_holds (Nat.eqb 1) [0; 2; 2; 4] = true
       | Some c => clause_holds (Nat.eqb 1) c = clause_holds (Nat.eqb 1) [0; 2; 2; 4]
       end.
Proof.
  apply (sort_and_clean_clause_sound E0 [0; 2; 2; 4] false false s_x0_false (Nat.eqb 1)).
  - intros l [<- | [<- | [<- | [<- | []]]]]; vm_compute; repeat split; congruence.
  - discriminate.
  - intros [| [| [| [| [| v]]]]]; vm_compute; split; congruence.
Defined.

(** ** The configuration checks *)


(** ** What a solve call leaves behind *)



(** ** The schedule interpreter, continued *)

(** X5. With the loop guard of [execute_inprocess_strategy] already up
    (the conflict budget used up, the time out, an interrupt pending, no
    variable, or [ok] down) no token is looked at: the call returns at
    once with the state as it was, [l_Undef] when [ok] is up and
    [l_False] otherwise, whatever the schedule says. *)
Theorem execute_inprocess_strategy_stopped (E : Env) (startup : bool)
  (strategy : string) (s : Solver) :
  must_stop E s = true ->
  execute_inprocess_strategy E startup strategy s
  = Returns (if okay s then l_Undef else l_False) s.
Proof.
  intros Hstop. unfold execute_inprocess_strategy.
  destruct (getline_all (strategy ++ ", ") "") as [| raw rest]; [reflexivity |].
  cbn [run_tokens]. unfold process_token. rewrite Hstop. reflexivity.
Qed.

(** A solver without variables: a schedule of unknown tokens passes. *)
Lemma execute_inprocess_strategy_stopped_witness :
  execute_inprocess_strategy E0 false "no-such-pass" (upd_minNumVars 0 s0)
  = Returns l_Undef (upd_minNumVars 0 s0).
Proof.
  apply (execute_inprocess_strategy_stopped E0 false "no-such-pass" (upd_minNumVars 0 s0)).
  reflexivity.
Defined.

Lemma process_token_Returns (E : Env) (startup : bool) (raw occ : string)
  (s s' : Solver) (ctl : LoopCtl) :
  process_token E startup raw occ s = Returns ctl s' ->
  match ctl with
  | Next _ => okay s' = true
  | _ => True
  end.
Proof.
  unfold process_token. destruct (must_stop E s); [intros [= <- <-]; exact I |].
  destruct (flush_occ E startup _ occ s) as [[occ1 s1] |]; [| intros [= <- <-]; exact I].
  intros H. apply bind_Returns_inv in H as (r & s2 & _ & H).
  destruct r as [occ2 |]; [| injection H as <- <-; exact I].
  destruct (okay s2) eqn:Hok; cbn [negb] in H; injection H as <- <-; [exact Hok | exact I].
Qed.




(** *** Letter case *)

Lemma tolower_facts (c : ascii) :
  Ascii.eqb (tolower c) "," = Ascii.eqb c ","
  /\ isspace (tolower c) = isspace c
  /\ tolower (tolower c) = tolower c.
Proof.
  destruct c as [b0 b1 b2 b3 b4 b5 b6 b7].
  destruct b0, b1, b2, b3, b4, b5, b6, b7; vm_compute; repeat split.
Qed.

Lemma string_map_app (f : ascii -> ascii) (x y : string) :
  string_map f (x ++ y) = (string_map f x ++ string_map f y)%string.
Proof. induction x as [| c x IH]; cbn; [reflexivity | now rewrite IH]. Qed.

Lemma string_map_eqb_empty (f : ascii -> ascii) (x : string) :
  String.eqb (string_map f x) "" = String.eqb x "".
Proof. destruct x; reflexivity. Qed.

Lemma string_map_tolower_idem (x : string) :
  string_map tolower (string_map tolower x) = string_map tolower x.
Proof.
  induction x as [| c x IH]; cbn; [reflexivity |].
  rewrite IH. f_equal. apply tolower_facts.
Qed.

Lemma getline_all_tolower (str cur : string) :
  getline_all (string_map tolower str) (string_map tolower cur)
  = map (string_map tolower) (getline_all str cur).
Proof.
  revert cur. induction str as [| c str IH]; intros cur; cbn [string_map getline_all].
  - rewrite string_map_eqb_empty. destruct (String.eqb cur ""); reflexivity.
  - destruct (tolower_facts c) as (-> & _ & _).
    destruct (Ascii.eqb c ","); cbn [map].
    + f_equal. exact (IH ""%string).
    + rewrite <- IH, string_map_app. reflexivity.
Qed.

Lemma ltrim_tolower (x : string) :
  ltrim (string_map tolower x) = string_map tolower (ltrim x).
Proof.
  induction x as [| c x IH]; cbn [string_map ltrim]; [reflexivity |].
  destruct (tolower_facts c) as (_ & -> & _).
  destruct (isspace c); [exact IH | reflexivity].
Qed.

Lemma rtrim_tolower (x : string) :
  rtrim (string_map tolower x) = string_map tolower (rtrim x).
Proof.
  induction x as [| c x IH]; cbn [string_map rtrim]; [reflexivity |].
  destruct (tolower_facts c) as (_ & -> & _).
  rewrite IH, string_map_eqb_empty.
  destruct (isspace c && String.eqb (rtrim x) ""); reflexivity.
Qed.

Lemma process_token_tolower (E : Env) (startup : bool) (raw occ : string) (s : Solver) :
  process_token E startup (string_map tolower raw) occ s
  = process_token E startup raw occ s.
Proof.
  unfold process_token, trim.
  rewrite rtrim_tolower, ltrim_tolower, string_map_tolower_idem. reflexivity.
Qed.

Lemma run_tokens_tolower (E : Env) (startup : bool) (tokens : list string)
  (occ : string) (s : Solver) :
  run_tokens E startup (map (string_map tolower) tokens) occ s
  = run_tokens E startup tokens occ s.
Proof.
  revert occ s. induction tokens as [| raw rest IH]; intros occ s; [reflexivity |].
  cbn [map run_tokens]. rewrite process_token_tolower.
  destruct (process_token E startup raw occ s) as [[occ1 | |] s1 | | |]; cbn [bind];
    try reflexivity.
  apply IH.
Qed.

(** X7. The schedule is read without regard to letter case: a schedule
    and the same schedule in lower case have the same outcome, in every
    state and with every collaborator. *)
Theorem execute_inprocess_strategy_tolower (E : Env) (startup : bool)
  (strategy : string) (s : Solver) :
  execute_inprocess_strategy E startup (string_map tolower strategy) s
  = execute_inprocess_strategy E startup strategy s.
Proof.
  unfold execute_inprocess_strategy.
  change (string_map tolower strategy ++ ", ")%string
    with (string_map tolower strategy ++ string_map tolower ", ")%string.
  rewrite <- string_map_app.
  pose proof (getline_all_tolower (strategy ++ ", ") "") as H.
  change (string_map tolower "") with ""%string in H.
  rewrite H. apply run_tokens_tolower.
Qed.

(** ** Binary minimisation, once disabled *)

Lemma check_recursive_keeps_more (status : lbool) (s : Solver) :
  doMinimRedMore (conf (check_recursive_minimization_effectiveness status s))
  = doMinimRedMore (conf s)
  /\ more_red_minim_limit_binary_actual
       (check_recursive_minimization_effectiveness status s)
     = more_red_minim_limit_binary_actual s.
Proof.
  unfold check_recursive_minimization_effectiveness.
  repeat match goal with |- context [if ?b then _ else _] => destruct b end;
    split; reflexivity.
Qed.

(** X8. Binary-clause minimisation that is switched off stays off: no
    later search epoch, whatever its status and statistics, switches
    [doMinimRedMore] back on, and none touches the limit
    [more_red_minim_limit_binary_actual] any more. *)
Theorem check_minimization_stays_disabled (epochs : list (lbool * SearchStats))
  (s : Solver) :
  doMinimRedMore (conf s) = false ->
  doMinimRedMore (conf (run_epochs epochs s)) = false
  /\ more_red_minim_limit_binary_actual (run_epochs epochs s)
     = more_red_minim_limit_binary_actual s.
Proof.
  unfold run_epochs. revert s.
  induction epochs as [| [status st] epochs IH]; intros s H; cbn [fold_left fst snd];
    [auto |].
  assert (Hstep : doMinimRedMore (conf (after_search_epoch status st s)) = false
                  /\ more_red_minim_limit_binary_actual (after_search_epoch status st s)
                     = more_red_minim_limit_binary_actual s).
  { unfold after_search_epoch.
    destruct (check_recursive_keeps_more status (upd_stats st s)) as (Hm & Hl).
    cbn [conf upd_stats more_red_minim_limit_binary_actual] in Hm, Hl.
    unfold check_minimization_effectiveness.
    rewrite Hm, H, andb_false_r. cbn [andb]. rewrite Hm, Hl. auto. }
  destruct Hstep as (Hd & Hl). destruct (IH _ Hd) as (IHd & IHl).
  split; [exact IHd | rewrite IHl; exact Hl].
Qed.

(** An epoch with half a percent of the literals removed switches the
    pass off; a later epoch with ten percent removed leaves it off and
    the limit where it was. *)
Lemma check_minimization_stays_disabled_witness :
  doMinimRedMore (conf (run_epochs [(l_Undef, stats_more 1800000)]
                          (run_epochs [(l_Undef, stats_more 1990000)] s0))) = false
  /\ more_red_minim_limit_binary_actual
       (run_epochs [(l_Undef, stats_more 1800000)]
          (run_epochs [(l_Undef, stats_more 1990000)] s0))
     = more_red_minim_limit_binary_actual (run_epochs [(l_Undef, stats_more 1990000)] s0).
Proof.
  apply (check_minimization_stays_disabled [(l_Undef, stats_more 1800000)]
           (run_epochs [(l_Undef, stats_more 1990000)] s0)).
  vm_compute. reflexivity.
Defined.

(** ** The two renumbering maps are inverse to each other *)

Lemma write_step (xs i0 o2i : list nat) (x : nat) :
  length o2i = length i0 ->
  (length xs < length i0)%nat -> (x < length i0)%nat -> ~ In x xs ->
  (forall j, (j < length xs)%nat -> nth (nth j xs 0%nat) o2i 0%nat = j) ->
  <[length xs := x]> (xs ++ drop (length xs) i0)
  = (xs ++ [x]) ++ drop (length (xs ++ [x])) i0
  /\ length (<[x := length xs]> o2i) = length i0
  /\ forall j, (j < length (xs ++ [x]))%nat ->
       nth (nth j (xs ++ [x]) 0%nat) (<[x := length xs]> o2i) 0%nat = j.
Proof.
  intros Hlo Hlen Hx Hnin Hinv. split; [| split].
  - rewrite insert_app_r_alt by lia. rewrite Nat.sub_diag.
    destruct (lookup_lt_is_Some_2 i0 (length xs) Hlen) as [y Hy].
    rewrite (drop_S _ _ _ Hy). cbn. rewrite <- app_assoc, length_app. cbn.
    rewrite Nat.add_1_r. reflexivity.
  - rewrite length_insert. exact Hlo.
  - intros j Hj. rewrite length_app in Hj. cbn in Hj.
    rewrite nth_list_insert.
    destruct (Nat.eq_dec j (length xs)) as [-> | Hne].
    + rewrite app_nth2, Nat.sub_diag by lia. cbn [nth].
      assert (Hlt : (x <? length o2i)%nat = true) by (apply Nat.ltb_lt; lia).
      rewrite Nat.eqb_refl, Hlt. reflexivity.
    + rewrite app_nth1 by lia.
      destruct (Nat.eqb_spec x (nth j xs 0%nat)) as [Heq | _]; cbn [andb].
      * exfalso. apply Hnin. rewrite Heq. apply nth_In. lia.
      * apply Hinv. lia.
Qed.

Lemma lives_S (s : Solver) (k : nat) :
  lives s (S k) = lives s k ++ (if var_is_dead s k then [] else [k]).
Proof.
  unfold lives. rewrite seq_S, List.filter_app. cbn.
  destruct (var_is_dead s k); reflexivity.
Qed.

Lemma deads_S (s : Solver) (k : nat) :
  deads s (S k) = deads s k ++ (if var_is_dead s k then [k] else []).
Proof.
  unfold deads. rewrite seq_S, List.filter_app. cbn.
  destruct (var_is_dead s k); reflexivity.
Qed.

Lemma lives_In (s : Solver) (k i : nat) :
  In i (lives s k) <-> (i < k)%nat /\ var_is_dead s i = false.
Proof.
  unfold lives. rewrite List.filter_In, in_seq, negb_true_iff. intuition lia.
Qed.

Lemma deads_In (s : Solver) (k i : nat) :
  In i (deads s k) <-> (i < k)%nat /\ var_is_dead s i = true.
Proof. unfold deads. rewrite List.filter_In, in_seq. intuition lia. Qed.

Lemma lives_deads_length (s : Solver) (k : nat) :
  (length (lives s k) + length (deads s k) = k)%nat.
Proof.
  induction k as [| k IH]; [reflexivity |].
  rewrite lives_S, deads_S, !length_app. destruct (var_is_dead s k); cbn; lia.
Qed.

(** The first loop, after [k] rounds, in closed form. *)
Lemma first_loop_order (s : Solver) (o0 i0 : list nat) (k : nat) :
  length o0 = length i0 -> (k <= length i0)%nat ->
  let m := fold_left (calc_step_live s) (seq 0 k)
             {| rm_at := 0; rm_useless := []; rm_numEffectiveVars := 0;
                rm_outerToInter := o0; rm_interToOuter := i0 |} in
  rm_at m = length (lives s k) /\ rm_useless m = deads s k
  /\ maps_hold (lives s k) i0 m.
Proof.
  intros Hlo. induction k as [| k IH]; intros Hk m.
  - subst m. cbn [seq fold_left rm_at rm_useless lives deads List.filter length].
    split; [reflexivity |]. split; [reflexivity |]. unfold maps_hold.
    cbn [rm_interToOuter rm_outerToInter length app]. rewrite drop_0.
    split; [reflexivity |]. split; [exact Hlo |]. intros j Hj. lia.
  - subst m. rewrite seq_S, fold_left_app. cbn [fold_left Nat.add].
    destruct IH as (Hat & Hus & Hi & Hl & Hinv); [lia |].
    match goal with |- context [fold_left (calc_step_live s) ?l ?m0] =>
      set (m := fold_left (calc_step_live s) l m0) in * end.
    rewrite lives_S, deads_S. unfold calc_step_live.
    destruct (var_is_dead s k) eqn:Hd;
      cbn [rm_at rm_useless rm_outerToInter rm_interToOuter].
    + rewrite app_nil_r, Hus. repeat split; assumption.
    + rewrite app_nil_r, Hat, Hi.
      pose proof (lives_deads_length s k) as Hld.
      destruct (write_step (lives s k) i0 (rm_outerToInter m) k) as (W1 & W2 & W3);
        [exact Hl | lia | lia | | exact Hinv |].
      { intros Hin. apply lives_In in Hin. lia. }
      rewrite length_app. cbn. split; [lia |]. split; [exact Hus |].
      split; [exact W1 | split; [exact W2 | exact W3]].
Qed.

(** The second loop appends the variables it is given. *)
Lemma second_loop_order (ds xs i0 : list nat) (m : RenumberMaps) :
  rm_at m = length xs -> maps_hold xs i0 m ->
  List.NoDup (xs ++ ds) -> (length (xs ++ ds) <= length i0)%nat ->
  (forall d, In d ds -> (d < length i0)%nat) ->
  let m' := fold_left calc_step_useless ds m in
  rm_at m' = length (xs ++ ds) /\ maps_hold (xs ++ ds) i0 m'.
Proof.
  revert xs m. induction ds as [| d ds IH]; intros xs m Hat Hm Hnd Hlen Hin m'.
  - subst m'. cbn. rewrite app_nil_r. auto.
  - subst m'. cbn [fold_left].
    destruct Hm as (Hi & Hl & Hinv). rewrite length_app in Hlen. cbn in Hlen.
    destruct (write_step xs i0 (rm_outerToInter m) d) as (W1 & W2 & W3);
      [exact Hl | lia | apply Hin; now left | | exact Hinv |].
    { intros Hx. apply List.NoDup_remove_2 in Hnd. apply Hnd, in_or_app. now left. }
    replace (xs ++ d :: ds) with ((xs ++ [d]) ++ ds) in * by now rewrite <- app_assoc.
    apply IH.
    + cbn [calc_step_useless rm_at]. rewrite length_app. cbn. lia.
    + unfold maps_hold. cbn [calc_step_useless rm_interToOuter rm_outerToInter].
      rewrite Hat, Hi. auto.
    + exact Hnd.
    + rewrite !length_app in *. cbn in *. lia.
    + intros x Hx. apply Hin. now right.
Qed.

(** The third loop writes the identity from [length xs] on. *)
Lemma third_loop_order (c : nat) (xs i0 : list nat) (m : RenumberMaps) :
  maps_hold xs i0 m -> (length xs + c <= length i0)%nat ->
  (forall x, In x xs -> (x < length xs)%nat) ->
  maps_hold (xs ++ seq (length xs) c) i0
    (fold_left calc_step_identity (seq (length xs) c) m).
Proof.
  revert xs m. induction c as [| c IH]; intros xs m Hm Hlen Hlt.
  - cbn. rewrite app_nil_r. exact Hm.
  - cbn [seq fold_left].
    destruct Hm as (Hi & Hl & Hinv).
    destruct (write_step xs i0 (rm_outerToInter m) (length xs)) as (W1 & W2 & W3);
      [exact Hl | lia | lia | | exact Hinv |].
    { intros Hx. apply Hlt in Hx. lia. }
    assert (Hlen' : length (xs ++ [length xs]) = S (length xs))
      by (rewrite length_app; cbn; lia).
    replace (xs ++ length xs :: seq (S (length xs)) c)
      with ((xs ++ [length xs]) ++ seq (length (xs ++ [length xs])) c)
      by (rewrite Hlen', <- app_assoc; reflexivity).
    rewrite <- Hlen'. apply IH.
    + unfold maps_hold. cbn [calc_step_identity rm_interToOuter rm_outerToInter].
      rewrite Hi. auto.
    + lia.
    + intros x Hx. rewrite Hlen'. apply in_app_or in Hx as [Hx | [<- | []]].
      * apply Hlt in Hx. lia.
      * lia.
Qed.

Lemma renumbered_order_facts (s : Solver) :
  (nVars s <= nVarsOuter s)%nat ->
  length (renumbered_order s) = nVarsOuter s
  /\ List.NoDup (lives s (nVars s) ++ deads s (nVars s))
  /\ forall i, (i < nVarsOuter s)%nat -> In i (renumbered_order s).
Proof.
  intros Hn. pose proof (lives_deads_length s (nVars s)) as Hld.
  split; [| split].
  - unfold renumbered_order. rewrite !length_app, length_seq. lia.
  - apply List.NoDup_app.
    + apply List.NoDup_filter, seq_NoDup.
    + apply List.NoDup_filter, seq_NoDup.
    + intros x Hl Hd. apply lives_In in Hl. apply deads_In in Hd.
      destruct Hl, Hd. congruence.
  - intros i Hi. unfold renumbered_order. rewrite !in_app_iff.
    destruct (Nat.lt_ge_cases i (nVars s)) as [Hlt | Hge].
    + destruct (var_is_dead s i) eqn:Hd.
      * right. left. apply deads_In. auto.
      * left. apply lives_In. auto.
    + right. right. apply in_seq. lia.
Qed.

(** X9. On two vectors of [nVarsOuter] cells,
    [calculate_interToOuter_and_outerToInter] returns the number of live
    variables and leaves in [interToOuter] the live variables in
    increasing order, then the dead ones in increasing order, then the
    variables from [nVars] on; [outerToInter] is the inverse of it, in
    both directions. A literal that is renumbered with [outerToInter]
    and then with [interToOuter] is the literal it was. *)
Theorem renumbering_maps_inverse (s : Solver) (outerToInter interToOuter : list nat) :
  (nVars s <= nVarsOuter s)%nat ->
  length outerToInter = nVarsOuter s ->
  length interToOuter = nVarsOuter s ->
  exists o2i,
    calculate_interToOuter_and_outerToInter s outerToInter interToOuter
    = Returns (num_used s, o2i, renumbered_order s) s
    /\ length o2i = nVarsOuter s
    /\ (forall i, (i < nVarsOuter s)%nat -> nth (nth i o2i 0%nat) (renumbered_order s) 0%nat = i)
    /\ (forall t, (t < nVarsOuter s)%nat -> nth (nth t (renumbered_order s) 0%nat) o2i 0%nat = t)
    /\ (forall l, 0 <= l -> (var l < nVarsOuter s)%nat ->
          getUpdatedLit (renumbered_order s) (getUpdatedLit o2i l) = l).
Proof.
  intros Hn Hlo Hli.
  pose proof (lives_deads_length s (nVars s)) as Hld.
  destruct (renumbered_order_facts s Hn) as (Hlen & Hnd & Hall).
  unfold calculate_interToOuter_and_outerToInter, calc_loops.
  destruct (first_loop_order s outerToInter interToOuter (nVars s)) as (Hat1 & Hus1 & Hm1);
    [congruence | lia |].
  match goal with |- context [fold_left (calc_step_live s) ?l ?m] =>
    set (m1 := fold_left (calc_step_live s) l m) in * end.
  destruct (second_loop_order (rm_useless m1) (lives s (nVars s)) interToOuter m1)
    as (Hat2 & Hm2); [exact Hat1 | exact Hm1 | | | |].
  { rewrite Hus1. exact Hnd. }
  { rewrite Hus1, length_app. lia. }
  { intros d Hd. rewrite Hus1 in Hd. apply deads_In in Hd. lia. }
  set (m2 := fold_left calc_step_useless (rm_useless m1) m1) in *.
  rewrite Hus1 in Hat2, Hm2.
  assert (Hlen2 : length (lives s (nVars s) ++ deads s (nVars s)) = nVars s)
    by (rewrite length_app; lia).
  pose proof (third_loop_order (nVarsOuter s - nVars s)
                (lives s (nVars s) ++ deads s (nVars s)) interToOuter m2 Hm2) as Hm3.
  rewrite Hlen2 in Hm3. rewrite <- app_assoc in Hm3. fold (renumbered_order s) in Hm3.
  destruct Hm3 as (Hi3 & Hl3 & Hinv3); [lia | |].
  { intros x Hx. apply in_app_or in Hx as [Hx | Hx];
      [apply lives_In in Hx | apply deads_In in Hx]; lia. }
  set (m3 := fold_left calc_step_identity (seq (nVars s) (nVarsOuter s - nVars s)) m2) in *.
  rewrite Hat2, Hlen2, Nat.eqb_refl. cbn [assert_then].
  assert (Hnum : rm_numEffectiveVars m3 = num_used s).
  { clear Hi3 Hl3 Hinv3 Hat2 Hm2 Hat1 Hus1 Hm1. subst m3 m2 m1.
    match goal with |- context [fold_left calc_step_identity ?js ?m] =>
      destruct (third_loop_inv js m) as (-> & _) end.
    match goal with |- context [fold_left calc_step_useless ?ds ?m] =>
      destruct (second_loop_inv ds m) as (_ & -> & _) end.
    destruct (first_loop_inv s
                {| rm_at := 0; rm_useless := []; rm_numEffectiveVars := 0;
                   rm_outerToInter := outerToInter; rm_interToOuter := interToOuter |}
                (nVars s)) as (_ & H & _); [cbn; lia |].
    exact H. }
  assert (Hi : rm_interToOuter m3 = renumbered_order s).
  { rewrite Hi3, Hlen, <- Hli, drop_all, app_nil_r. reflexivity. }
  rewrite Hlen in Hinv3.
  assert (Hfwd : forall i, (i < nVarsOuter s)%nat ->
            nth (nth i (rm_outerToInter m3) 0%nat) (renumbered_order s) 0%nat = i).
  { intros i Hi'. destruct (In_nth _ _ 0%nat (Hall i Hi')) as (j & Hj & Hnth).
    rewrite Hlen in Hj. rewrite <- Hnth at 1. rewrite Hinv3 by exact Hj. exact Hnth. }
  exists (rm_outerToInter m3). rewrite Hnum, Hi.
  split; [reflexivity |]. split; [congruence |]. split; [exact Hfwd |].
  split; [exact Hinv3 |].
  intros l Hl Hv. unfold getUpdatedLit.
  rewrite var_mkLit, sign_mkLit, Hfwd by exact Hv. now apply mkLit_var_sign.
Qed.

(** Four variables of which 1 and 2 are dead: the new order is
    [0, 3, 1, 2]. *)
Lemma renumbering_maps_inverse_witness :
  exists o2i,
    calculate_interToOuter_and_outerToInter s_two_dead (replicate 4 0%nat) (replicate 4 0%nat)
    = Returns (num_used s_two_dead, o2i, renumbered_order s_two_dead) s_two_dead
    /\ length o2i = nVarsOuter s_two_dead
    /\ (forall i, (i < nVarsOuter s_two_dead)%nat ->
          nth (nth i o2i 0%nat) (renumbered_order s_two_dead) 0%nat = i)
    /\ (forall t, (t < nVarsOuter s_two_dead)%nat ->
          nth (nth t (renumbered_order s_two_dead) 0%nat) o2i 0%nat = t)
    /\ (forall l, 0 <= l -> (var l < nVarsOuter s_two_dead)%nat ->
          getUpdatedLit (renumbered_order s_two_dead) (getUpdatedLit o2i l) = l).
Proof.
  apply (renumbering_maps_inverse s_two_dead (replicate 4 0%nat) (replicate 4 0%nat)).
  - vm_compute. lia.
  - reflexivity.
  - reflexivity.
Defined.

(** ** The order test after a renumbering *)

Lemma test_renumbering_fold (s : Solver) (k : nat) :
  let step (st : bool * bool) (i : nat) : bool * bool :=
    let '(uninteresting, problem) := st in
    let uninteresting := uninteresting || negb (lbool_eqb (value_var s i) l_Undef) in
    let uninteresting :=
      uninteresting || Removed_eqb (removed s i) Removed_elimed
      || Removed_eqb (removed s i) Removed_replaced in
    let problem :=
      problem || (lbool_eqb (value_var s i) l_Undef
                  && negb (Removed_eqb (removed s i) Removed_elimed)
                  && negb (Removed_eqb (removed s i) Removed_replaced)
                  && uninteresting) in
    (uninteresting, problem) in
  let r := fold_left step (seq 0 k) (false, false) in
  (fst r = true <-> exists i, (i < k)%nat /\ var_is_dead s i = true)
  /\ (snd r = true <->
      exists i j, (i < j < k)%nat /\ var_is_dead s i = true /\ var_is_dead s j = false).
Proof.
  intros step. induction k as [| k IH]; intros r.
  - subst r. cbn. split; split; try discriminate.
    + intros (i & Hi & _). lia.
    + intros (i & j & Hij & _). lia.
  - subst r. rewrite seq_S, fold_left_app. cbn [fold_left Nat.add].
    cbv zeta in IH. destruct IH as [IHu IHp].
    destruct (fold_left step (seq 0 k) (false, false)) as [u p]. cbn [fst snd] in *.
    assert (Hdead : var_is_dead s k
                    = negb (lbool_eqb (value_var s k) l_Undef)
                      || Removed_eqb (removed s k) Removed_elimed
                      || Removed_eqb (removed s k) Removed_replaced) by reflexivity.
    unfold step. cbn [fst snd].
    replace (u || negb (lbool_eqb (value_var s k) l_Undef)
             || Removed_eqb (removed s k) Removed_elimed
             || Removed_eqb (removed s k) Removed_replaced)
      with (u || var_is_dead s k)
      by (rewrite Hdead; destruct u, (lbool_eqb (value_var s k) l_Undef),
            (Removed_eqb (removed s k) Removed_elimed); reflexivity).
    replace (lbool_eqb (value_var s k) l_Undef
             && negb (Removed_eqb (removed s k) Removed_elimed)
             && negb (Removed_eqb (removed s k) Removed_replaced))
      with (negb (var_is_dead s k))
      by (rewrite Hdead; destruct (lbool_eqb (value_var s k) l_Undef),
            (Removed_eqb (removed s k) Removed_elimed),
            (Removed_eqb (removed s k) Removed_replaced); reflexivity).
    split.
    + rewrite orb_true_iff, IHu. split.
      * intros [(i & Hi & Hd) | Hd]; [exists i | exists k]; split; auto; lia.
      * intros (i & Hi & Hd). destruct (Nat.eq_dec i k) as [-> | Hne]; [now right |].
        left. exists i. split; [lia | exact Hd].
    + rewrite orb_true_iff, andb_true_iff, negb_true_iff, orb_true_iff, IHp, IHu. split.
      * intros [(i & j & Hij & Hd) | (Hk & [(i & Hi & Hd) | Hd])].
        -- exists i, j. split; [lia | exact Hd].
        -- exists i, k. split; [lia | auto].
        -- congruence.
      * intros (i & j & Hij & Hi & Hj).
        destruct (Nat.eq_dec j k) as [-> | Hne].
        -- right. split; [exact Hj |]. left. exists i. split; [lia | exact Hi].
        -- left. exists i, j. split; [lia | auto].
Qed.

(** X10. [test_renumbering] accepts exactly the solvers in which no live
    variable follows a dead one. It therefore accepts every solver whose
    variables are laid out in the order that
    [calculate_interToOuter_and_outerToInter] computes: when the
    variable at each place [t] is dead exactly when the variable
    [interToOuter[t]] was, the assertion of [renumber_variables] holds. *)
Theorem test_renumbering_spec (s s' : Solver) :
  (test_renumbering s = true <->
   forall i j, (i < j < nVars s)%nat -> var_is_dead s i = true -> var_is_dead s j = true)
  /\ (nVars s' = nVars s ->
      (forall t, (t < nVars s)%nat ->
         var_is_dead s' t = var_is_dead s (nth t (renumbered_order s) 0%nat)) ->
      test_renumbering s' = true).
Proof.
  assert (Hchar : forall s0 : Solver, test_renumbering s0 = true <->
            forall i j, (i < j < nVars s0)%nat ->
              var_is_dead s0 i = true -> var_is_dead s0 j = true).
  { intros s0. unfold test_renumbering.
    pose proof (test_renumbering_fold s0 (nVars s0)) as H. cbv zeta in H.
    destruct H as [_ Hp]. rewrite negb_true_iff. split.
    - intros Hf i j Hij Hi. destruct (var_is_dead s0 j) eqn:Hj; [reflexivity |].
      assert (Ht : true = false); [| discriminate Ht].
      rewrite <- Hf. symmetry. apply Hp. exists i, j. auto.
    - intros Hall.
      apply not_true_is_false. intros Hb.
      apply Hp in Hb as (i & j & Hij & Hi & Hj).
      rewrite (Hall i j Hij Hi) in Hj. discriminate. }
  split; [apply Hchar |].
  intros Hn Hperm. apply Hchar. rewrite Hn. intros i j Hij Hi.
  rewrite Hperm in * by lia.
  pose proof (lives_deads_length s (nVars s)) as Hld.
  unfold renumbered_order in *.
  destruct (Nat.lt_ge_cases i (length (lives s (nVars s)))) as [Hlt | Hge].
  - rewrite app_nth1 in Hi by exact Hlt.
    assert (Hin : In (nth i (lives s (nVars s)) 0%nat) (lives s (nVars s)))
      by (apply nth_In; exact Hlt).
    apply lives_In in Hin. destruct Hin. congruence.
  - rewrite app_nth2 by lia. rewrite app_nth1 by lia.
    assert (Hin : In (nth (j - length (lives s (nVars s))) (deads s (nVars s)) 0%nat)
                    (deads s (nVars s)))
      by (apply nth_In; lia).
    apply deads_In in Hin. tauto.
Qed.

(** [s_two_dead] fails the test, its variable 3 being live behind two
    dead ones; in the computed order it passes. *)
Lemma test_renumbering_spec_witness :
  test_renumbering s_two_dead = false
  /\ test_renumbering s_two_dead_renumbered = true.
Proof.
  split; [reflexivity |].
  apply (test_renumbering_spec s_two_dead s_two_dead_renumbered).
  - reflexivity.
  - intros [| [| [| [| t]]]] Ht; try reflexivity. vm_compute in Ht. lia.
Defined.

(** ** BNN constraints *)

Lemma count_true_app (a : nat -> bool) (xs ys : list Lit) :
  count_true a (xs ++ ys) = count_true a xs + count_true a ys.
Proof. unfold count_true, size. rewrite List.filter_app, length_app. lia. Qed.

Lemma count_true_cons (a : nat -> bool) (l : Lit) (xs : list Lit) :
  count_true a (l :: xs) = Z.b2z (lit_true a l) + count_true a xs.
Proof.
  unfold count_true, size. cbn [List.filter].
  destruct (lit_true a l); cbn [length Z.b2z]; lia.
Qed.

Lemma count_true_snoc (a : nat -> bool) (xs : list Lit) (x : Lit) :
  count_true a (xs ++ [x]) = count_true a xs + Z.b2z (lit_true a x).
Proof.
  rewrite count_true_app, count_true_cons. change (count_true a []) with 0. lia.
Qed.

Lemma size_cons {A : Type} (x : A) (xs : list A) : size (x :: xs) = 1 + size xs.
Proof. unfold size. cbn [length]. lia. Qed.

Lemma size_snoc {A : Type} (xs : list A) (x : A) : size (xs ++ [x]) = size xs + 1.
Proof. unfold size. rewrite length_app. cbn [length]. lia. Qed.

Lemma count_true_bounds (a : nat -> bool) (xs : list Lit) :
  0 <= count_true a xs <= size xs.
Proof.
  unfold count_true, size.
  pose proof (List.filter_length_le (lit_true a) xs). lia.
Qed.

Lemma count_true_Permutation (a : nat -> bool) (xs ys : list Lit) :
  Permutation xs ys -> count_true a xs = count_true a ys.
Proof.
  induction 1 as [| x l l' _ IH | x y l | l l' l'' _ IH1 _ IH2].
  - reflexivity.
  - rewrite !count_true_cons, IH. reflexivity.
  - rewrite !count_true_cons. lia.
  - congruence.
Qed.

Lemma count_true_sort (a : nat -> bool) (xs : list Lit) :
  count_true a (sort_lits xs) = count_true a xs.
Proof. apply count_true_Permutation, merge_sort_Permutation. Qed.

Lemma count_true_neg (a : nat -> bool) (xs : list Lit) :
  count_true a (map lit_neg xs) = size xs - count_true a xs.
Proof.
  induction xs as [| l xs IH]; [reflexivity |].
  cbn [map]. rewrite !count_true_cons, IH, lit_true_neg.
  unfold size. cbn [length]. destruct (lit_true a l); cbn [negb Z.b2z]; lia.
Qed.

(** The loop of [sort_and_clean_bnn]: every literal it takes off is
    accounted for in the cutoff. *)
Lemma clean_bnn_loop_spec (E : Env) (a : nat -> bool) (s : Solver) (ps : list Lit) :
  agrees a s ->
  (forall l, In l ps ->
     same_var l (lit_Undef E) = false /\ removed s (var l) = Removed_none) ->
  forall (p : Lit) (kept : list Lit) (cutoff : Z),
    (p = lit_Undef E \/ exists kept0, kept = kept0 ++ [p]) ->
    (forall l, In l kept -> value s l = l_Undef) ->
    exists kept' cutoff',
      clean_bnn_loop E ps p kept cutoff s = Returns (kept', cutoff') s
      /\ count_true a kept' - cutoff' = count_true a kept + count_true a ps - cutoff
      /\ (forall l, In l kept' -> value s l = l_Undef)
      /\ size kept' + (cutoff - cutoff') <= size kept + size ps
      /\ cutoff' <= cutoff.
Proof.
  intros Ha. induction ps as [| l ps IH]; intros Hpre p kept cutoff Hp Hk.
  - exists kept, cutoff. cbn [clean_bnn_loop].
    change (count_true a []) with 0. change (size (@nil Z)) with 0.
    split; [reflexivity |]. split; [lia |]. split; [exact Hk |]. split; lia.
  - assert (Hps : forall x, In x ps ->
              same_var x (lit_Undef E) = false /\ removed s (var x) = Removed_none)
      by (intros x Hx; apply Hpre; now right).
    destruct (Hpre l (or_introl eq_refl)) as (Hvar & Hrem).
    cbn [clean_bnn_loop]. rewrite count_true_cons, size_cons.
    destruct (lbool_eqb (value s l) l_True) eqn:Ht.
    { apply lbool_eqb_eq in Ht. rewrite (agrees_value_true a s l Ha Ht).
      destruct (IH Hps p kept (cutoff - 1) Hp Hk) as (k' & c' & Hrun & Hc & Hu & Hl & Hle).
      exists k', c'. rewrite Hrun. cbn [Z.b2z].
      split; [reflexivity |]. split; [lia |]. split; [exact Hu |]. split; lia. }
    destruct (lbool_eqb (value s l) l_False) eqn:Hf.
    { apply lbool_eqb_eq in Hf. rewrite (agrees_value_false a s l Ha Hf).
      destruct (IH Hps p kept cutoff Hp Hk) as (k' & c' & Hrun & Hc & Hu & Hl & Hle).
      exists k', c'. rewrite Hrun. cbn [Z.b2z].
      split; [reflexivity |]. split; [lia |]. split; [exact Hu |]. split; lia. }
    assert (Hund : value s l = l_Undef).
    { destruct (value s l); [discriminate Ht | discriminate Hf | reflexivity]. }
    destruct (same_var l p && Bool.eqb (sign l) (negb (sign p))) eqn:Hc.
    { apply andb_true_iff in Hc as (Hv & Hs). apply Bool.eqb_prop in Hs.
      destruct Hp as [-> | (kept0 & ->)]; [congruence |].
      assert (Hv' : var l = var p).
      { unfold same_var in Hv. apply Z.eqb_eq in Hv. unfold var. now rewrite Hv. }
      rewrite removelast_last.
      destruct (IH Hps (lit_Undef E) kept0 (cutoff - 1)) as (k' & c' & Hrun & Hcount & Hu & Hl & Hle).
      { now left. }
      { intros x Hx. apply Hk, in_or_app. now left. }
      exists k', c'. rewrite Hrun, count_true_snoc, size_snoc.
      assert (Hpl : Z.b2z (lit_true a l) + Z.b2z (lit_true a p) = 1).
      { unfold lit_true. rewrite Hv', Hs. destruct (a (var p)), (sign p); reflexivity. }
      split; [reflexivity |]. split; [lia |]. split; [exact Hu |]. split; lia. }
    rewrite Hrem. cbn [Removed_eqb assert_then].
    destruct (IH Hps l (kept ++ [l]) cutoff) as (k' & c' & Hrun & Hcount & Hu & Hl & Hle).
    { right. eauto. }
    { intros x Hx. apply in_app_or in Hx as [Hx | [<- | []]]; auto. }
    exists k', c'. rewrite Hrun. rewrite count_true_snoc in Hcount. rewrite size_snoc in Hl.
    split; [reflexivity |]. split; [lia |]. split; [exact Hu |]. split; lia.
Qed.

(** X11. [sort_and_clean_bnn] keeps the meaning of the constraint. When
    no literal is on the variable of [lit_Undef] and no variable of the
    constraint was removed, it returns with the solver untouched, and
    under every total assignment that agrees with the values set at
    level 0 the constraint it leaves holds exactly when the constraint
    given holds. The literals it leaves are unassigned, and so is the
    output literal of a constraint that it leaves unset; the cutoff
    moves by at most the number of literals plus one. *)
Theorem sort_and_clean_bnn_sound (E : Env) (bnn : BNN) (s : Solver) (a : nat -> bool) :
  (forall l, In l (bnn_lits bnn) ->
     same_var l (lit_Undef E) = false /\ removed s (var l) = Removed_none) ->
  agrees a s ->
  exists bnn',
    sort_and_clean_bnn E bnn s = Returns bnn' s
    /\ bnn_holds a bnn' = bnn_holds a bnn
    /\ (forall l, In l (bnn_lits bnn') -> value s l = l_Undef)
    /\ (bnn_set bnn' = false -> value s (bnn_out bnn') = l_Undef)
    /\ size (bnn_lits bnn') <= size (bnn_lits bnn)
    /\ Z.abs (bnn_cutoff bnn') <= Z.abs (bnn_cutoff bnn) + size (bnn_lits bnn) + 1.
Proof.
  intros Hpre Ha. unfold sort_and_clean_bnn.
  destruct (clean_bnn_loop_spec E a s (sort_lits (bnn_lits bnn)) Ha) with
    (p := lit_Undef E) (kept := @nil Z) (cutoff := bnn_cutoff bnn)
    as (kept & c & Hrun & Hcount & Hund & Hlen & Hle).
  { intros l Hl. apply Hpre, sort_lits_In, Hl. }
  { now left. }
  { intros l []. }
  rewrite Hrun. cbn [bind].
  rewrite count_true_sort in Hcount.
  assert (Hsz : size (sort_lits (bnn_lits bnn)) = size (bnn_lits bnn)).
  { unfold size, sort_lits. f_equal. apply Permutation_length, merge_sort_Permutation. }
  rewrite Hsz in Hlen. change (size (@nil Z)) with 0 in Hlen.
  change (count_true a []) with 0 in Hcount.
  pose proof (count_true_bounds a kept) as Hkb.
  assert (Hk0 : 0 <= size kept) by (unfold size; lia).
  cbv zeta. destruct (bnn_set bnn) eqn:Hset.
  - eexists. split; [reflexivity |]. unfold bnn_holds. cbn [bnn_set bnn_lits bnn_cutoff bnn_out].
    rewrite Hset. split.
    { destruct (Z.leb_spec c (count_true a kept)),
        (Z.leb_spec (bnn_cutoff bnn) (count_true a (bnn_lits bnn))); try reflexivity; lia. }
    split; [exact Hund |]. split; [discriminate |]. split; lia.
  - destruct (lbool_eqb (value s (bnn_out bnn)) l_Undef) eqn:Hou.
    + eexists. split; [reflexivity |]. unfold bnn_holds.
      cbn [bnn_set bnn_lits bnn_cutoff bnn_out]. rewrite Hset. split.
      { f_equal. destruct (Z.leb_spec c (count_true a kept)),
          (Z.leb_spec (bnn_cutoff bnn) (count_true a (bnn_lits bnn))); try reflexivity; lia. }
      split; [exact Hund |]. split; [intros _; now apply lbool_eqb_eq |]. split; lia.
    + destruct (lbool_eqb (value s (bnn_out bnn)) l_False) eqn:Hof.
      * apply lbool_eqb_eq in Hof.
        eexists. split; [reflexivity |]. unfold bnn_holds.
        cbn [bnn_set bnn_lits bnn_cutoff bnn_out]. rewrite Hset.
        rewrite (agrees_value_false a s _ Ha Hof), count_true_neg. split.
        { destruct (Z.leb_spec (size kept + 1 - c) (size kept - count_true a kept)),
            (Z.leb_spec (bnn_cutoff bnn) (count_true a (bnn_lits bnn))); try reflexivity; lia. }
        split.
        { intros l Hl. apply in_map_iff in Hl as (x & <- & Hx).
          rewrite value_lit_neg, (Hund x Hx). reflexivity. }
        split; [discriminate |]. unfold size at 1. rewrite length_map. fold (size kept).
        split; lia.
      * assert (Hot : value s (bnn_out bnn) = l_True).
        { destruct (value s (bnn_out bnn)); [reflexivity | discriminate Hof | discriminate Hou]. }
        eexists. split; [reflexivity |]. unfold bnn_holds.
        cbn [bnn_set bnn_lits bnn_cutoff bnn_out]. rewrite Hset.
        rewrite (agrees_value_true a s _ Ha Hot). split.
        { destruct (Z.leb_spec c (count_true a kept)),
            (Z.leb_spec (bnn_cutoff bnn) (count_true a (bnn_lits bnn))); try reflexivity; lia. }
        split; [exact Hund |]. split; [discriminate |]. split; lia.
Qed.

(** On the solver where [x0] is false, [bnn0] is cleaned to "[x2]
    exactly when [x3]". *)
Lemma sort_and_clean_bnn_sound_witness :
  exists bnn',
    sort_and_clean_bnn E0 bnn0 s_x0_false = Returns bnn' s_x0_false
    /\ bnn_holds (Nat.leb 2) bnn' = bnn_holds (Nat.leb 2) bnn0
    /\ (forall l, In l (bnn_lits bnn') -> value s_x0_false l = l_Undef)
    /\ (bnn_set bnn' = false -> value s_x0_false (bnn_out bnn') = l_Undef)
    /\ size (bnn_lits bnn') <= size (bnn_lits bnn0)
    /\ Z.abs (bnn_cutoff bnn') <= Z.abs (bnn_cutoff bnn0) + size (bnn_lits bnn0) + 1.
Proof.
  apply (sort_and_clean_bnn_sound E0 bnn0 s_x0_false (Nat.leb 2)).
  - intros l [<- | [<- | [<- | [<- | []]]]]; vm_compute; split; congruence.
  - intros [| [| [| [| [| v]]]]]; vm_compute; split; congruence.
Defined.

Example sort_and_clean_bnn_sample :
  sort_and_clean_bnn E0 bnn0 s_x0_false
  = Returns {| bnn_lits := [mkLit 2 false]; bnn_cutoff := 1;
               bnn_out := mkLit 3 false; bnn_set := false |} s_x0_false.
Proof. lazy. reflexivity. Qed.

Lemma enqueue_value (l : Lit) (s : Solver) :
  (var l < nVarsOuter s)%nat ->
  value_var (enqueue l s) (var l) = (if sign l then l_False else l_True)
  /\ (forall v, v <> var l -> value_var (enqueue l s) v = value_var s v)
  /\ nVarsOuter (enqueue l s) = nVarsOuter s.
Proof.
  intros Hv. unfold enqueue, value_var, nVarsOuter in *. cbn [assigns upd_trail upd_assigns].
  split; [| split].
  - rewrite nth_list_insert, Nat.eqb_refl.
    apply Nat.ltb_lt in Hv. rewrite Hv. reflexivity.
  - intros v Hne. rewrite nth_list_insert.
    destruct (Nat.eqb_spec (var l) v); [congruence | reflexivity].
  - apply length_insert.
Qed.

Lemma enqueue_true (a : nat -> bool) (l : Lit) (s : Solver) :
  (var l < nVarsOuter s)%nat -> agrees a (enqueue l s) -> lit_true a l = true.
Proof.
  intros Hv Ha. destruct (enqueue_value l s Hv) as (Hval & _).
  unfold lit_true. destruct (Ha (var l)) as [Ht Hf]. rewrite Hval in Ht, Hf.
  destruct (sign l); [rewrite Hf by reflexivity | rewrite Ht by reflexivity]; reflexivity.
Qed.

(** Enqueueing a list of literals in which no variable has both signs
    makes each of them true. *)
Lemma enqueue_all_true (a : nat -> bool) (lits : list Lit) (s : Solver) :
  (forall l, In l lits -> (var l < nVarsOuter s)%nat) ->
  (forall l l', In l lits -> In l' lits -> var l = var l' -> sign l = sign l') ->
  agrees a (fold_left (fun s l => enqueue l s) lits s) ->
  forall l, In l lits -> lit_true a l = true.
Proof.
  revert s. induction lits as [| x lits IH]; intros s Hv Hs Ha l Hl; [destruct Hl |].
  cbn [fold_left] in Ha.
  destruct (in_dec Z.eq_dec l lits) as [Hin | Hnin].
  - apply (IH (enqueue x s)); auto.
    + intros y Hy. destruct (enqueue_value x s) as (_ & _ & ->); [apply Hv; now left |].
      apply Hv. now right.
    + intros y y' Hy Hy'. apply Hs; now right.
  - destruct Hl as [<- | Hl]; [| contradiction].
    destruct (in_dec Nat.eq_dec (var x) (map var lits)) as [Hvin | Hvnin].
    + apply in_map_iff in Hvin as (y & Hvy & Hy).
      assert (Hsy : sign y = sign x) by (apply Hs; [now right | now left | exact Hvy]).
      assert (Hty : lit_true a y = true).
      { apply (IH (enqueue x s)); auto.
        - intros z Hz. destruct (enqueue_value x s) as (_ & _ & ->); [apply Hv; now left |].
          apply Hv. now right.
        - intros z z' Hz Hz'. apply Hs; now right. }
      unfold lit_true in *. rewrite <- Hvy, <- Hsy. exact Hty.
    + assert (Hkeep : forall (ys : list Lit) (t : Solver),
                ~ In (var x) (map var ys) ->
                value_var (fold_left (fun s l => enqueue l s) ys t) (var x)
                = value_var t (var x)).
      { induction ys as [| y ys IHy]; intros t Hy; [reflexivity |].
        cbn [fold_left]. rewrite IHy by (intros H; apply Hy; now right).
        unfold enqueue, value_var. cbn [assigns upd_trail upd_assigns].
        rewrite nth_list_insert.
        destruct (Nat.eqb_spec (var y) (var x)) as [Heq | _]; [| reflexivity].
        exfalso. apply Hy. left. exact Heq. }
      destruct (enqueue_value x s) as (Hval & _); [apply Hv; now left |].
      specialize (Hkeep lits (enqueue x s) Hvnin). rewrite Hval in Hkeep.
      unfold lit_true. destruct (Ha (var x)) as [Ht Hf]. rewrite Hkeep in Ht, Hf.
      destruct (sign x); [rewrite Hf by reflexivity | rewrite Ht by reflexivity]; reflexivity.
Qed.

Lemma count_true_all (a : nat -> bool) (lits : list Lit) :
  (forall l, In l lits -> lit_true a l = true) -> count_true a lits = size lits.
Proof.
  induction lits as [| x lits IH]; intros H; [reflexivity |].
  rewrite count_true_cons, size_cons, IH by (intros l Hl; apply H; now right).
  rewrite (H x) by now left. reflexivity.
Qed.

(** X12. What [bnn_eval] answers is right. When it returns [l_False]
    the solver is untouched and no assignment satisfies the constraint.
    When it returns [l_True], every total assignment that agrees with
    the solver it leaves satisfies the constraint, provided the
    variables are declared and no variable occurs with both signs among
    the literals. When it returns [l_Undef] the solver is untouched and
    the cutoff lies between 1 and the number of literals. *)
Theorem bnn_eval_sound (E : Env) (bnn : BNN) (s s' : Solver) (r : lbool) :
  bnn_eval E bnn s = Returns r s' ->
  match r with
  | l_False => s' = s /\ forall a, bnn_holds a bnn = false
  | l_Undef => s' = s /\ 1 <= bnn_cutoff bnn <= size (bnn_lits bnn)
  | l_True =>
      (bnn_set bnn = false -> (var (bnn_out bnn) < nVarsOuter s)%nat) ->
      (forall l, In l (bnn_lits bnn) -> (var l < nVarsOuter s)%nat) ->
      (forall l l', In l (bnn_lits bnn) -> In l' (bnn_lits bnn) ->
         var l = var l' -> sign l = sign l') ->
      forall a, agrees a s' -> bnn_holds a bnn = true
  end.
Proof.
  unfold bnn_eval. intros H.
  apply assert_then_Returns_inv in H as (_ & H).
  apply assert_then_Returns_inv in H as (_ & H).
  apply assert_then_Returns_inv in H as (_ & H).
  destruct (Z.leb_spec (bnn_cutoff bnn) 0) as [Hc0 | Hc0].
  { assert (Hholds : forall a, (bnn_cutoff bnn <=? count_true a (bnn_lits bnn)) = true).
    { intros a. apply Z.leb_le. pose proof (count_true_bounds a (bnn_lits bnn)). lia. }
    destruct (bnn_set bnn) eqn:Hset; injection H as <- <-; intros Hout _ _ a Ha;
      unfold bnn_holds; rewrite Hset, Hholds; [reflexivity |].
    rewrite (enqueue_true a _ s (Hout eq_refl) Ha). reflexivity. }
  destruct (Z.ltb_spec (size (bnn_lits bnn)) (bnn_cutoff bnn)) as [Hlt | Hge].
  { assert (Hfails : forall a, (bnn_cutoff bnn <=? count_true a (bnn_lits bnn)) = false).
    { intros a. apply Z.leb_gt. pose proof (count_true_bounds a (bnn_lits bnn)). lia. }
    destruct (bnn_set bnn) eqn:Hset; injection H as <- <-.
    - split; [reflexivity |]. intros a. unfold bnn_holds. rewrite Hset. apply Hfails.
    - intros Hout _ _ a Ha. unfold bnn_holds. rewrite Hset, Hfails.
      assert (Hn : lit_true a (lit_neg (bnn_out bnn)) = true).
      { apply (enqueue_true a _ s); [rewrite var_lit_neg; now apply Hout | exact Ha]. }
      rewrite lit_true_neg in Hn. apply negb_true_iff in Hn. rewrite Hn. reflexivity. }
  destruct (bnn_set bnn && (size (bnn_lits bnn) =? bnn_cutoff bnn)) eqn:Hall.
  { apply andb_true_iff in Hall as (Hset & Heq). apply Z.eqb_eq in Heq.
    injection H as <- <-. intros _ Hv Hs a Ha. unfold bnn_holds. rewrite Hset.
    rewrite (count_true_all a (bnn_lits bnn)); [apply Z.leb_le; lia |].
    now apply (enqueue_all_true a (bnn_lits bnn) s). }
  destruct (Z.eqb_spec (size (bnn_lits bnn)) 0) as [Hz | Hnz]; [lia |].
  injection H as <- <-. split; [reflexivity | lia].
Qed.

(** "Both of [x0], [x1]" on the sample solver: both are enqueued. *)
Lemma bnn_eval_sound_witness :
  bnn_holds (fun _ => true)
    {| bnn_lits := [mkLit 0 false; mkLit 1 false]; bnn_cutoff := 2;
       bnn_out := lit_Undef E0; bnn_set := true |} = true.
Proof.
  refine (bnn_eval_sound E0
            {| bnn_lits := [mkLit 0 false; mkLit 1 false]; bnn_cutoff := 2;
               bnn_out := lit_Undef E0; bnn_set := true |}
            s0 (enqueue (mkLit 1 false) (enqueue (mkLit 0 false) s0)) l_True _ _ _ _
            (fun _ => true) _).
  - reflexivity.
  - discriminate.
  - intros l [<- | [<- | []]]; vm_compute; lia.
  - intros l l' [<- | [<- | []]] [<- | [<- | []]]; vm_compute; congruence.
  - intros [| [| [| [| [| v]]]]]; vm_compute; split; congruence.
Defined.

(** *** The clauses of [bnn_to_cnf] *)

Lemma lit_true_xor (a : nat -> bool) (l : Lit) (b : bool) :
  lit_true a (lit_xor l b) = xorb (lit_true a l) b.
Proof.
  destruct b.
  - change (lit_xor l true) with (lit_neg l). rewrite lit_true_neg.
    destruct (lit_true a l); reflexivity.
  - unfold lit_xor. cbn [Z.b2z]. rewrite Z.lxor_0_r. destruct (lit_true a l); reflexivity.
Qed.








(** "At least two of [x0, x1, x2] exactly when [x3]" on the sample
    solver: six clauses of three literals. *)
Example bnn_to_cnf_two_of_three :
  exists s',
    bnn_to_cnf E0 {| bnn_lits := [mkLit 0 false; mkLit 1 false; mkLit 2 false];
                     bnn_cutoff := 2; bnn_out := mkLit 3 false; bnn_set := false |} s0
    = Returns true s'
    /\ map cl_lits (cl_alloc s')
       = [[2; 4; 7]; [0; 4; 7]; [0; 2; 7]; [3; 5; 6]; [1; 5; 6]; [1; 3; 6]]
    /\ longIrredCls s' = [0; 1; 2; 3; 4; 5]%nat.
Proof. eexists. split; [lazy; reflexivity |]. split; reflexivity. Qed.

(** ** Enqueueing at top level *)

Lemma fully_enqueue_this_ok (E : Env) (lit : Lit) (s s' : Solver) (r : bool) :
  fully_enqueue_this E lit s = Returns r s' -> r = ok s'.
Proof.
  unfold fully_enqueue_this. intros H.
  apply assert_then_Returns_inv in H as (_ & H).
  apply assert_then_Returns_inv in H as (Hok & H).
  destruct (value s lit).
  - injection H as <- <-. now rewrite Hok.
  - injection H as <- <-. reflexivity.
  - apply assert_then_Returns_inv in H as (_ & H).
    destruct (propagate E (enqueue lit s)) as [no_confl s1].
    cbn [ok upd_ok] in H. destruct no_confl; cbn [negb] in H; injection H as <- <-; reflexivity.
Qed.

(** X14. [fully_enqueue_these] returns the [ok] flag that it leaves:
    [true] with the solver still consistent, [false] with [ok] down. A
    list of literals that are all true already is accepted with the
    solver untouched, and a literal that is false already makes the
    solver UNSAT at once: [ok] goes down and one clause ID is spent. *)
Theorem fully_enqueue_these_spec (E : Env) (toEnqueue : list Lit) (s : Solver) :
  ok s = true -> decisionLevel s = 0%nat ->
  (forall r s', fully_enqueue_these E toEnqueue s = Returns r s' -> r = ok s')
  /\ ((forall l, In l toEnqueue -> value s l = l_True) ->
      fully_enqueue_these E toEnqueue s = Returns true s)
  /\ (forall l rest, toEnqueue = l :: rest -> value s l = l_False ->
        fully_enqueue_these E toEnqueue s
        = Returns false (upd_ok false (upd_clauseID (clauseID s + 1) s))).
Proof.
  intros Hok Hlev. unfold fully_enqueue_these.
  rewrite Hok, Hlev. cbn [Nat.eqb assert_then]. split; [| split].
  - clear Hlev. revert s Hok.
    induction toEnqueue as [| l rest IH]; intros s Hok r s' H.
    + cbn in H. injection H as <- <-. now rewrite Hok.
    + cbn [fully_enqueue_loop] in H. apply bind_Returns_inv in H as (r1 & s1 & H1 & H).
      pose proof (fully_enqueue_this_ok E l s s1 r1 H1) as Hr1.
      destruct r1; cbn [negb] in H.
      * apply (IH s1); [now symmetry | exact H].
      * injection H as <- <-. exact Hr1.
  - induction toEnqueue as [| l rest IH]; intros Hall; [reflexivity |].
    cbn [fully_enqueue_loop]. unfold fully_enqueue_this.
    rewrite Hok, Hlev, (Hall l) by now left. cbn [Nat.eqb assert_then bind negb].
    apply IH. intros x Hx. apply Hall. now right.
  - intros l rest -> Hf. cbn [fully_enqueue_loop]. unfold fully_enqueue_this.
    rewrite Hok, Hlev, Hf. reflexivity.
Qed.

(** On the solver where [x0] is false: [~x0] is accepted, [x0] is
    refused. *)
Lemma fully_enqueue_these_spec_witness :
  fully_enqueue_these E0 [mkLit 0 true] s_x0_false = Returns true s_x0_false
  /\ fully_enqueue_these E0 [mkLit 0 false; mkLit 1 false] s_x0_false
     = Returns false (upd_ok false (upd_clauseID (clauseID s_x0_false + 1) s_x0_false)).
Proof.
  split.
  - apply (fully_enqueue_these_spec E0 [mkLit 0 true] s_x0_false); try reflexivity.
    intros l [<- | []]. reflexivity.
  - apply (fully_enqueue_these_spec E0 [mkLit 0 false; mkLit 1 false] s_x0_false
             eq_refl eq_refl) with (l := mkLit 0 false) (rest := [mkLit 1 false]);
      reflexivity.
Defined.

(** ** XOR constraints of at most two variables *)

Lemma add_xor_clause_inter_cleaned (E : Env) (lits : list Lit) (rhs attach addDrat : bool)
  (s : Solver) (ps : list Lit) (r : bool) :
  okay s = true ->
  decisionLevel s = 0%nat ->
  (attach = true -> qhead s = length (trail s)) ->
  clean_xor_no_prop E s (fst (xor_strip_signs lits rhs)) (snd (xor_strip_signs lits rhs))
  = (ps, r) ->
  add_xor_clause_inter E lits rhs attach addDrat s
  = if 2 ^ 28 <=? size ps then Throws s
    else
      match ps with
      | [] =>
          if r then
            let s := upd_ok false (upd_clauseID (clauseID s + 1) s) in
            Returns (okay s) s
          else Returns (okay s) s
      | [l] =>
          let* (_r, s) := add_clause_int_default E [lit_xor l (negb r)] s in
          Returns (okay s) s
      | [l1; l2] =>
          let p0 := lit_xor l1 (negb r) in
          let* (_r, s) := add_clause_int_default E [p0; l2] s in
          let* (_r, s) := add_clause_int_default E [lit_xor p0 true; lit_xor l2 true] s in
          Returns (okay s) s
      | _ =>
          assert_then (negb (frat_enabled s && addDrat)) (
          let s := upd_xorclauses_updated true s in
          let s := upd_xorclauses (xorclauses s ++ [{| xor_vars := ps; xor_rhs := r |}]) s in
          let s := attach_xor_clause E (length (xorclauses s) - 1)%nat s in
          Returns (okay s) s)
      end.
Proof.
  intros Hok Hlev Hq Hclean. unfold add_xor_clause_inter.
  rewrite Hok, Hlev. cbn [Nat.eqb assert_then].
  assert (Hattach : negb attach || (qhead s =? length (trail s))%nat = true).
  { destruct attach; [| reflexivity]. rewrite Hq by reflexivity.
    rewrite Nat.eqb_refl. reflexivity. }
  rewrite Hattach. cbn [assert_then].
  destruct (xor_strip_signs lits rhs) as [ps1 rhs1]. cbn [fst snd] in Hclean.
  rewrite Hclean. reflexivity.
Qed.

(** X15. What [add_xor_clause_inter] does with an XOR that
    [clean_xor_no_prop] leaves with fewer than three variables. With
    none left, the right-hand side decides: [true] makes the solver
    UNSAT ([ok] down, one clause ID spent, [false] returned), [false]
    changes nothing. With one or two left, clauses are added in its
    place, and under every total assignment these clauses hold exactly
    when the XOR does. *)
Theorem add_xor_clause_inter_small (E : Env) (lits : list Lit) (rhs attach addDrat : bool)
  (s : Solver) (ps : list Lit) (r : bool) :
  okay s = true ->
  decisionLevel s = 0%nat ->
  (attach = true -> qhead s = length (trail s)) ->
  clean_xor_no_prop E s (fst (xor_strip_signs lits rhs)) (snd (xor_strip_signs lits rhs))
  = (ps, r) ->
  (ps = [] ->
     add_xor_clause_inter E lits rhs attach addDrat s
     = Returns (negb r) (if r then upd_ok false (upd_clauseID (clauseID s + 1) s) else s))
  /\ (forall l, ps = [l] ->
        add_xor_clause_inter E lits rhs attach addDrat s
        = (let* (_r, s) := add_clause_int_default E [lit_xor l (negb r)] s in
           Returns (okay s) s)
        /\ forall a, clause_holds a [lit_xor l (negb r)] = xor_holds a [l] r)
  /\ (forall l1 l2, ps = [l1; l2] ->
        add_xor_clause_inter E lits rhs attach addDrat s
        = (let* (_r, s) := add_clause_int_default E [lit_xor l1 (negb r); l2] s in
           let* (_r, s) :=
             add_clause_int_default E
               [lit_xor (lit_xor l1 (negb r)) true; lit_xor l2 true] s in
           Returns (okay s) s)
        /\ forall a,
             clause_holds a [lit_xor l1 (negb r); l2]
             && clause_holds a [lit_xor (lit_xor l1 (negb r)) true; lit_xor l2 true]
             = xor_holds a [l1; l2] r).
Proof.
  intros Hok Hlev Hq Hclean.
  rewrite (add_xor_clause_inter_cleaned E lits rhs attach addDrat s ps r Hok Hlev Hq Hclean).
  split; [| split].
  - intros ->. change (2 ^ 28 <=? size (@nil Z)) with false. cbv iota zeta.
    unfold okay. destruct r; cbn [ok upd_ok negb]; [reflexivity |]. unfold okay in Hok.
    now rewrite Hok.
  - intros l ->. change (2 ^ 28 <=? size [l]) with false. cbv iota. split; [reflexivity |].
    intros a. unfold clause_holds, xor_holds, parity. cbn [existsb map fold_right].
    rewrite lit_true_xor. destruct (lit_true a l), r; reflexivity.
  - intros l1 l2 ->. change (2 ^ 28 <=? size [l1; l2]) with false. cbv iota zeta.
    split; [reflexivity |].
    intros a. unfold clause_holds, xor_holds, parity. cbn [existsb map fold_right].
    rewrite !lit_true_xor. destruct (lit_true a l1), (lit_true a l2), r; reflexivity.
Qed.

(** The empty XOR with right-hand side [true], "0 = 1", on the sample
    solver. *)
Lemma add_xor_clause_inter_small_witness :
  add_xor_clause_inter E0 [] true true false s0
  = Returns false (upd_ok false (upd_clauseID (clauseID s0 + 1) s0)).
Proof.
  apply (add_xor_clause_inter_small E0 [] true true false s0 [] true);
    reflexivity.
Defined.

(** ** Variables that were never declared *)

Lemma helper_replace_loop_known (E : Env) (ps : list Lit) (s : Solver) :
  Forall (known_lit E s) ps ->
  helper_replace_loop E ps s = Returns (map (get_lit_replaced_with_outer E s) ps) s.
Proof.
  induction 1 as [| l ps (Hv & Hin) _ IH]; [reflexivity |].
  cbn [helper_replace_loop map].
  destruct (Nat.leb_spec (nVarsOuter s) (var l)) as [? | _]; [lia |].
  destruct (Nat.leb_spec (nVars s)
              (var (map_outer_to_inter s (get_lit_replaced_with_outer E s l))))
    as [? | _]; [lia |].
  rewrite IH. reflexivity.
Qed.

Lemma helper_replace_loop_undeclared (E : Env) (pre post : list Lit) (bad : Lit)
  (s : Solver) :
  Forall (known_lit E s) pre ->
  (nVarsOuter s <= var bad)%nat ->
  helper_replace_loop E (pre ++ bad :: post) s
  = Exits (-1) ("ERROR: Variable " ++ show_nat (var bad + 1)
                ++ " inserted, but max var is " ++ show_nat (nVarsOuter s)).
Proof.
  intros Hpre Hbad. induction Hpre as [| l pre (Hv & Hin) _ IH].
  - cbn [app helper_replace_loop].
    destruct (Nat.leb_spec (nVarsOuter s) (var bad)); [reflexivity | lia].
  - cbn [app helper_replace_loop].
    destruct (Nat.leb_spec (nVarsOuter s) (var l)) as [? | _]; [lia |].
    destruct (Nat.leb_spec (nVars s)
                (var (map_outer_to_inter s (get_lit_replaced_with_outer E s l))))
      as [? | _]; [lia |].
    rewrite IH. reflexivity.
Qed.

(** X16. [add_clause_helper] on a live solver at level 0, for a clause
    of at most 2^28 literals. When every literal is known (declared,
    and with an internal variable for what replaced it) and no variable
    was eliminated, the clause is translated literal by literal, first
    to what replaced it and then to the internal numbering, and the
    solver is untouched. A literal of a variable that was never
    declared, behind known ones, ends the process: [exit(-1)], with
    the variable named in the diagnostic. *)
Theorem add_clause_helper_spec (E : Env) (ps : list Lit) (s : Solver) :
  ok s = true ->
  decisionLevel s = 0%nat ->
  qhead s = length (trail s) ->
  size ps <= 2 ^ 28 ->
  (Forall (known_lit E s) ps -> get_num_vars_elimed s = 0 ->
     add_clause_helper E ps s
     = Returns (true, map (fun l => map_outer_to_inter s (get_lit_replaced_with_outer E s l)) ps) s)
  /\ (forall pre bad post,
        ps = pre ++ bad :: post ->
        Forall (known_lit E s) pre -> (nVarsOuter s <= var bad)%nat ->
        add_clause_helper E ps s
        = Exits (-1) ("ERROR: Variable " ++ show_nat (var bad + 1)
                      ++ " inserted, but max var is " ++ show_nat (nVarsOuter s))).
Proof.
  intros Hok Hlev Hq Hsz. unfold add_clause_helper.
  rewrite Hok, Hlev, Hq, !Nat.eqb_refl. cbn [negb assert_then].
  destruct (Z.ltb_spec (2 ^ 28) (size ps)) as [? | _]; [lia |]. split.
  - intros Hknown Helim. rewrite helper_replace_loop_known by exact Hknown.
    cbn [bind]. rewrite Helim. cbn [Z.eqb negb].
    unfold renumber_outer_to_inter_lits. rewrite map_map. reflexivity.
  - intros pre bad post -> Hpre Hbad.
    rewrite helper_replace_loop_undeclared by assumption. reflexivity.
Qed.

(** The sample solver has four variables: the clause [x0, x1] is taken
    as it is, and [x7] is refused. *)
Lemma add_clause_helper_spec_witness :
  add_clause_helper E0 [mkLit 0 false; mkLit 1 false] s0
  = Returns (true, [mkLit 0 false; mkLit 1 false]) s0
  /\ add_clause_helper E0 [mkLit 0 false; mkLit 7 false] s0
     = Exits (-1) "ERROR: Variable 8 inserted, but max var is 4".
Proof.
  split.
  - apply (add_clause_helper_spec E0 [mkLit 0 false; mkLit 1 false] s0);
      try reflexivity; [vm_compute; discriminate |].
    repeat constructor; vm_compute; lia.
  - apply (add_clause_helper_spec E0 [mkLit 0 false; mkLit 7 false] s0 eq_refl eq_refl eq_refl)
      with (pre := [mkLit 0 false]) (bad := mkLit 7 false) (post := []).
    + vm_compute. discriminate.
    + reflexivity.
    + repeat constructor; vm_compute; lia.
    + vm_compute. lia.
Defined.

(** ** Abstractions of XOR constraints *)

Lemma subsetAbst_bits (A B : Z) :
  0 <= A < 2 ^ 32 ->
  (XorSubsumer.subsetAbst A B = true <->
   forall i, 0 <= i -> Z.testbit A i = true -> Z.testbit B i = true).
Proof.
  intros HA. unfold XorSubsumer.subsetAbst, wrap32. rewrite Z.eqb_eq. split.
  - intros H i Hi Hbit.
    destruct (Z.lt_ge_cases i 32) as [Hlt | Hge].
    + assert (Hb : Z.testbit (Z.land A (Z.lnot B mod 2 ^ 32)) i = false)
        by (rewrite H; apply Z.bits_0).
      rewrite Z.land_spec, Hbit, Z.mod_pow2_bits_low, Z.lnot_spec in Hb by lia.
      cbn [andb] in Hb. now apply negb_false_iff in Hb.
    + exfalso. assert (Hhigh : Z.testbit A i = false).
      { destruct (Z.eq_dec A 0) as [-> | Hne]; [apply Z.bits_0 |].
        apply Z.bits_above_log2; [lia |].
        assert (Z.log2 A < 32) by (apply Z.log2_lt_pow2; lia). lia. }
      congruence.
  - intros H. apply Z.bits_inj'. intros i Hi.
    rewrite Z.bits_0, Z.land_spec.
    destruct (Z.testbit A i) eqn:Hbit; [| reflexivity]. cbn [andb].
    destruct (Z.lt_ge_cases i 32) as [Hlt | Hge].
    + rewrite Z.mod_pow2_bits_low, Z.lnot_spec by lia.
      rewrite (H i Hi Hbit). reflexivity.
    + apply Z.mod_pow2_bits_high. lia.
Qed.

(** X17. [subsetAbst] holds exactly when every bit of the first
    abstraction is a bit of the second. It is therefore a sound filter
    in front of [subset]: whatever 32-bit pattern each variable is
    given, when the abstraction of a constraint is the OR of the
    patterns of its variables and every variable of [A] is a variable of
    [B], then [subsetAbst] accepts the two abstractions. *)
Theorem subsetAbst_spec (bit : nat -> Z) (A B : list Lit) :
  (forall v, 0 <= bit v < 2 ^ 32) ->
  let abst (C : list Lit) := fold_right (fun l acc => Z.lor (bit (var l)) acc) 0 C in
  0 <= abst A < 2 ^ 32
  /\ (XorSubsumer.subsetAbst (abst A) (abst B) = true <->
      forall i, 0 <= i -> Z.testbit (abst A) i = true -> Z.testbit (abst B) i = true)
  /\ ((forall a, In a A -> exists b, In b B /\ var b = var a) ->
      XorSubsumer.subsetAbst (abst A) (abst B) = true).
Proof.
  intros Hbit abst.
  assert (Hrange : forall C, 0 <= abst C < 2 ^ 32).
  { induction C as [| l C IH]; [cbn; lia |]. cbn [abst fold_right]. fold (abst C).
    specialize (Hbit (var l)). split.
    - apply Z.lor_nonneg. lia.
    - destruct (Z.eq_dec (Z.lor (bit (var l)) (abst C)) 0) as [-> | Hne]; [lia |].
      apply Z.log2_lt_pow2; [pose proof (Z.lor_nonneg (bit (var l)) (abst C)); lia |].
      rewrite Z.log2_lor by lia.
      assert (Hl : forall x, 0 <= x < 2 ^ 32 -> Z.log2 x < 32).
      { intros x Hx. destruct (Z.eq_dec x 0) as [-> | ?]; [cbn; lia |].
        apply Z.log2_lt_pow2; lia. }
      pose proof (Hl _ Hbit). pose proof (Hl _ IH). lia. }
  assert (Hbits : forall C i, Z.testbit (abst C) i
                              = existsb (fun l => Z.testbit (bit (var l)) i) C).
  { induction C as [| l C IH]; intros i; [apply Z.bits_0 |].
    cbn [abst fold_right existsb]. fold (abst C). rewrite Z.lor_spec, IH. reflexivity. }
  split; [apply Hrange |]. split; [apply subsetAbst_bits, Hrange |].
  intros Hsub. apply subsetAbst_bits; [apply Hrange |].
  intros i Hi. rewrite !Hbits, !existsb_exists.
  intros (a & Ha & Hb). destruct (Hsub a Ha) as (b & HbB & Hv).
  exists b. split; [exact HbB | now rewrite Hv].
Qed.

(** Patterns [1 << (v mod 32)], the variables of [x1, x2] among those of
    [x1, x2, x5]. *)
Lemma subsetAbst_spec_witness :
  XorSubsumer.subsetAbst 6 38 = true.
Proof.
  pose proof (subsetAbst_spec (fun v => 2 ^ (Z.of_nat v mod 32))
                [mkLit 1 false; mkLit 2 false]
                [mkLit 1 false; mkLit 2 false; mkLit 5 false]) as H.
  cbv zeta in H. destruct H as (_ & _ & H).
  - intros v. pose proof (Z.mod_pos_bound (Z.of_nat v) 32 ltac:(lia)).
    split; [apply Z.pow_nonneg; lia | apply Z.pow_lt_mono_r; lia].
  - apply H. intros a [<- | [<- | []]]; eexists; (split; [| reflexivity]); simpl; auto.
Defined.

(** ** Clauses that an XOR constraint stands for *)

Lemma find_xor_for_clause_true (seen2 : list Z) (xors : list Xor) (n : nat) (rhs : bool)
  (ws : list Watched) :
  find_xor_for_clause seen2 xors n rhs ws = true ->
  exists i x,
    In (W_idx i) ws /\ xors !! i = Some x
    /\ length (xor_vars x) = n /\ xor_rhs x = rhs
    /\ forall v, In v (xor_vars x) -> nth (var v) seen2 0 <> 0.
Proof.
  induction ws as [| w ws IH]; [discriminate |].
  cbn [find_xor_for_clause]. intros H.
  assert (Hrest : find_xor_for_clause seen2 xors n rhs ws = true ->
            exists i x,
              In (W_idx i) (w :: ws) /\ xors !! i = Some x
              /\ length (xor_vars x) = n /\ xor_rhs x = rhs
              /\ forall v, In v (xor_vars x) -> nth (var v) seen2 0 <> 0).
  { intros H'. destruct (IH H') as (i & x & Hin & Hrest). exists i, x.
    split; [now right | exact Hrest]. }
  destruct w as [i |]; [| now apply Hrest].
  destruct (xors !! i) as [x |] eqn:Hx; [| now apply Hrest].
  destruct (Nat.eqb_spec (length (xor_vars x)) n) as [Hn | _]; cbn [negb] in H;
    [| now apply Hrest].
  destruct (Bool.eqb (xor_rhs x) rhs) eqn:Hr; cbn [negb] in H; [| now apply Hrest].
  destruct (forallb (fun v => negb (nth (var v) seen2 0 =? 0)) (xor_vars x)) eqn:Hall;
    [| now apply Hrest].
  exists i, x. split; [now left |]. split; [exact Hx |]. split; [exact Hn |].
  split; [now apply Bool.eqb_prop |].
  intros v Hv. rewrite forallb_forall in Hall. specialize (Hall v Hv).
  apply negb_true_iff, Z.eqb_neq in Hall. exact Hall.
Qed.

Lemma parity_Permutation (a : nat -> bool) (xs ys : list nat) :
  Permutation xs ys ->
  fold_right xorb false (map a xs) = fold_right xorb false (map a ys).
Proof.
  induction 1 as [| x l l' _ IH | x y l | l l' l'' _ IH1 _ IH2]; cbn [map fold_right].
  - reflexivity.
  - now rewrite IH.
  - destruct (a x), (a y), (fold_right xorb false (map a l)); reflexivity.
  - congruence.
Qed.

Lemma clause_xor_rhs_signs (cl : list Lit) :
  clause_xor_rhs cl = negb (fold_right xorb false (map sign cl)).
Proof.
  unfold clause_xor_rhs.
  assert (H : forall b, fold_left (fun rhs l => xorb rhs (sign l)) cl b
                        = xorb b (fold_right xorb false (map sign cl))).
  { induction cl as [| l cl IH]; intros b; cbn [fold_left map fold_right].
    - now rewrite xorb_false_r.
    - rewrite IH. destruct b, (sign l), (fold_right xorb false (map sign cl)); reflexivity. }
  rewrite H. reflexivity.
Qed.

Lemma falsified_parity (a : nat -> bool) (cl : list Lit) :
  clause_holds a cl = false ->
  fold_right xorb false (map a (map var cl)) = fold_right xorb false (map sign cl).
Proof.
  unfold clause_holds. induction cl as [| l cl IH]; [reflexivity |].
  cbn [existsb map fold_right]. intros H. apply orb_false_iff in H as (Hl & Hcl).
  rewrite (IH Hcl). unfold lit_true in Hl.
  destruct (a (var l)), (sign l); try discriminate; reflexivity.
Qed.

(** X18. [check_clause_represented_by_xor] leaves [seen2] as it found
    it, all zero. When it answers [true], the watch list of the least
    literal of the clause names an XOR constraint of the solver with as
    many variables as the clause has literals, all of them variables of
    the clause, and with the parity of the clause as its right-hand
    side; if the variables of that constraint are pairwise distinct,
    every total assignment that satisfies the constraint satisfies the
    clause, so that the clause may go. *)
Theorem check_clause_represented_by_xor_sound (seen seen2 : list Z)
  (watches : Lit -> list Watched) (s : Solver) (cl : list Lit) :
  Forall (eq 0) seen2 ->
  (forall l, In l cl -> (var l < length seen2)%nat) ->
  snd (check_clause_represented_by_xor seen seen2 watches s cl) = seen2
  /\ (fst (check_clause_represented_by_xor seen seen2 watches s cl) = true ->
      exists i x,
        xorclauses s !! i = Some x
        /\ length (xor_vars x) = length cl
        /\ xor_rhs x = clause_xor_rhs cl
        /\ (forall v, In v (xor_vars x) -> exists l, In l cl /\ var l = var v)
        /\ (List.NoDup (map var (xor_vars x)) ->
            forall a, xor_constraint_holds a x = true -> clause_holds a cl = true)).
Proof.
  intros Hz Hlen. unfold check_clause_represented_by_xor.
  destruct (forallb (fun l => negb (nth (var l) seen 0 =? 0)) cl); cbn [negb fst snd].
  2: { split; [reflexivity | discriminate]. }
  split; [now apply mark_clear |].
  intros Hfound. apply find_xor_for_clause_true in Hfound
    as (i & x & _ & Hx & Hn & Hr & Hseen).
  assert (Hsub : forall v, In v (xor_vars x) -> exists l, In l cl /\ var l = var v).
  { intros v Hv. specialize (Hseen v Hv).
    destruct (Nat.lt_ge_cases (var v) (length seen2)) as [Hlt | Hge].
    - rewrite nth_mark in Hseen by exact Hlt.
      destruct (existsb (fun b => (var b =? var v)%nat) cl) eqn:Hex.
      + apply existsb_exists in Hex as (l & Hl & Hv'). apply Nat.eqb_eq in Hv'. eauto.
      + rewrite all_zero_nth in Hseen by exact Hz. contradiction.
    - rewrite nth_overflow in Hseen by (rewrite mark_length; exact Hge). contradiction. }
  exists i, x. split; [exact Hx |]. split; [exact Hn |]. split; [exact Hr |].
  split; [exact Hsub |].
  intros Hnd a Hxor.
  destruct (clause_holds a cl) eqn:Hcl; [reflexivity | exfalso].
  assert (Hincl : incl (map var (xor_vars x)) (map var cl)).
  { intros v Hv. apply in_map_iff in Hv as (l & <- & Hl).
    destruct (Hsub l Hl) as (l' & Hl' & Hv'). rewrite <- Hv'. now apply in_map. }
  assert (Hlen' : (length (map var cl) <= length (map var (xor_vars x)))%nat)
    by (rewrite !length_map; lia).
  assert (Hperm : Permutation (map var (xor_vars x)) (map var cl)).
  { apply NoDup_Permutation_bis; [exact Hnd | exact Hlen' | exact Hincl]. }
  unfold xor_constraint_holds in Hxor. apply Bool.eqb_prop in Hxor.
  rewrite <- (map_map var a), (parity_Permutation a _ _ Hperm) in Hxor.
  rewrite (falsified_parity a cl Hcl), Hr, clause_xor_rhs_signs in Hxor.
  destruct (fold_right xorb false (map sign cl)); discriminate.
Qed.

(** The clause [x1, x2, x3] is found to be represented by the XOR
    constraint [x1 + x2 + x3 = 1]; the clause [x1, x2, ~x3] is not. *)
Lemma check_clause_represented_by_xor_sound_witness :
  fst (check_clause_represented_by_xor [0; 1; 1; 1] [0; 0; 0; 0] watches_one_xor s_one_xor
         [mkLit 1 false; mkLit 2 false; mkLit 3 false]) = true
  /\ fst (check_clause_represented_by_xor [0; 1; 1; 1] [0; 0; 0; 0] watches_one_xor s_one_xor
            [mkLit 1 false; mkLit 2 false; mkLit 3 true]) = false
  /\ snd (check_clause_represented_by_xor [0; 1; 1; 1] [0; 0; 0; 0] watches_one_xor s_one_xor
            [mkLit 1 false; mkLit 2 false; mkLit 3 false]) = [0; 0; 0; 0].
Proof.
  split; [reflexivity |]. split; [reflexivity |].
  apply (check_clause_represented_by_xor_sound [0; 1; 1; 1] [0; 0; 0; 0] watches_one_xor
           s_one_xor [mkLit 1 false; mkLit 2 false; mkLit 3 false]).
  - repeat constructor.
  - intros l [<- | [<- | [<- | []]]]; vm_compute; lia.
Defined.

(** ** The conflict budget of one search iteration *)

(** X19. [calc_num_confl_to_do_this_iter] never hands out more than the
    budget has left: the number it returns, added to the conflicts seen
    so far, stays within [max_confl], and it is 0 once the budget is
    used up, whatever the growth factors say. With [never_stop_search]
    it is the smaller of 600,000,000 and what is left. *)
Theorem calc_num_confl_within_budget (pow : double -> double -> double)
  (to_uint64 : double -> Z) (c : SearchBudgetConf) (iteration_num : Z) (s : Solver) :
  0 <= sumConflicts s ->
  let n := calc_num_confl_to_do_this_iter pow to_uint64 c iteration_num s in
  0 <= n
  /\ (sumConflicts s <= max_confl (conf s) -> sumConflicts s + n <= max_confl (conf s))
  /\ (max_confl (conf s) <= sumConflicts s -> n = 0)
  /\ (never_stop_search c = true -> sumConflicts s <= max_confl (conf s) ->
      n = Z.min 600000000 (max_confl (conf s) - sumConflicts s)).
Proof.
  intros Hsum n. subst n. unfold calc_num_confl_to_do_this_iter.
  set (m := wrap64 (to_uint64 _)).
  assert (Hm : 0 <= m) by (subst m; unfold wrap64; apply Z.mod_pos_bound; lia).
  set (k := if never_stop_search c then 600 * 1000 * 1000 else m).
  assert (Hk : 0 <= k) by (subst k; destruct (never_stop_search c); lia).
  destruct (Z.leb_spec (sumConflicts s) (max_confl (conf s))) as [Hle | Hgt].
  - split; [lia |]. split; [lia |]. split; [lia |].
    intros Hnever _. subst k. rewrite Hnever. reflexivity.
  - split; [lia |]. split; [lia |]. split; [reflexivity |]. lia.
Qed.

(** A budget of 10 conflicts on the sample solver. *)
Lemma calc_num_confl_within_budget_witness :
  calc_num_confl_to_do_this_iter (fun x _ => x) (fun _ => 0)
    {| num_conflicts_of_search := 50000; num_conflicts_of_search_inc := d_of_Z 1;
       num_conflicts_of_search_inc_max := d_of_Z 3; never_stop_search := true |}
    1 (set_max_confl 10 s0) = 10.
Proof.
  pose proof (calc_num_confl_within_budget (fun x _ => x) (fun _ => 0)
                {| num_conflicts_of_search := 50000; num_conflicts_of_search_inc := d_of_Z 1;
                   num_conflicts_of_search_inc_max := d_of_Z 3; never_stop_search := true |}
                1 (set_max_confl 10 s0)) as H.
  cbv zeta in H. destruct H as (_ & _ & _ & H); [vm_compute; discriminate |].
  apply H; [reflexivity | vm_compute; discriminate].
Defined.

(** ** Renumbering the clauses *)

Lemma lit_true_getUpdatedLit (a : nat -> bool) (o2i : list nat) (l : Lit) :
  lit_true a (getUpdatedLit o2i l) = lit_true (fun v => a (nth v o2i 0%nat)) l.
Proof. unfold lit_true, getUpdatedLit. now rewrite var_mkLit, sign_mkLit. Qed.

Lemma fold_alter_lookup {A : Type} (f : A -> A) (offs : list nat) (arena : list A)
  (i : nat) :
  List.NoDup offs ->
  fold_left (fun a o => alter f o a) offs arena !! i
  = if existsb (Nat.eqb i) offs then f <$> arena !! i else arena !! i.
Proof.
  revert arena. induction offs as [| o offs IH]; intros arena Hnd; [reflexivity |].
  inversion Hnd as [| ? ? Hnin Hnd']; subst. cbn [fold_left existsb].
  rewrite IH by exact Hnd'.
  destruct (Nat.eqb_spec i o) as [-> | Hne]; cbn [orb].
  - assert (Hex : existsb (Nat.eqb o) offs = false).
    { apply not_true_is_false. intros Hex. apply existsb_exists in Hex as (x & Hx & Heq).
      apply Nat.eqb_eq in Heq. subst x. contradiction. }
    rewrite Hex. apply list_lookup_alter_eq.
  - rewrite list_lookup_alter_ne by congruence. reflexivity.
Qed.

Lemma fold_alter_tiers {A : Type} (f : A -> A) (tiers : list (list nat)) (arena : list A) :
  fold_left (fun a tier => fold_left (fun a o => alter f o a) tier a) tiers arena
  = fold_left (fun a o => alter f o a) (concat tiers) arena.
Proof.
  revert arena. induction tiers as [| t tiers IH]; intros arena; [reflexivity |].
  cbn [fold_left concat]. rewrite fold_left_app. apply IH.
Qed.

(** X20. On the long clauses and the XOR constraints,
    [renumber_clauses] renames and nothing more. It keeps the lists of
    clause handles and raises [xorclauses_updated]. Every XOR
    constraint it leaves holds under an assignment [a] of the new
    variables exactly when the constraint it was holds under the
    assignment that gives an old variable [v] the value of
    [outerToInter[v]]. When no handle is listed twice, the same is true
    of every long clause that is listed, which also keeps its length and
    its redundancy flag, and a clause that is not listed is left as it
    is. *)
Theorem renumber_clauses_spec (outerToInter : list nat) (s : Solver) (a : nat -> bool) :
  let s' := renumber_clauses outerToInter s in
  let a0 := fun v => a (nth v outerToInter 0%nat) in
  let listed := longIrredCls s ++ concat (longRedCls s) in
  xorclauses_updated s' = true
  /\ longIrredCls s' = longIrredCls s
  /\ longRedCls s' = longRedCls s
  /\ map (xor_constraint_holds a) (xorclauses s')
     = map (xor_constraint_holds a0) (xorclauses s)
  /\ (List.NoDup listed ->
      forall offs,
        cl_alloc s' !! offs
        = if existsb (Nat.eqb offs) listed
          then update_clause_lits outerToInter <$> cl_alloc s !! offs
          else cl_alloc s !! offs)
  /\ (forall c, clause_holds a (cl_lits (update_clause_lits outerToInter c))
                = clause_holds a0 (cl_lits c)
                /\ length (cl_lits (update_clause_lits outerToInter c)) = length (cl_lits c)
                /\ isRed (update_clause_lits outerToInter c) = isRed c).
Proof.
  intros s' a0 listed. subst s'. unfold renumber_clauses.
  cbn [xorclauses_updated longIrredCls longRedCls xorclauses cl_alloc
         upd_xorclauses upd_xorclauses_updated upd_cl_alloc].
  split; [reflexivity |]. split; [reflexivity |]. split; [reflexivity |].
  split; [| split].
  - rewrite map_map. apply map_ext. intros x. unfold xor_constraint_holds.
    cbn [xor_vars xor_rhs]. rewrite map_map. f_equal. f_equal.
    apply map_ext. intros v. unfold getUpdatedLit, a0. now rewrite var_mkLit.
  - intros Hnd offs. rewrite fold_alter_tiers, <- fold_left_app.
    apply (fold_alter_lookup (update_clause_lits outerToInter)). exact Hnd.
  - intros c. cbn [update_clause_lits cl_lits isRed]. rewrite length_map.
    split; [| split; reflexivity].
    unfold clause_holds. induction (cl_lits c) as [| l ls IH]; [reflexivity |].
    cbn [map existsb]. rewrite IH, lit_true_getUpdatedLit. reflexivity.
Qed.

(** ** Simplification called from outside *)

Lemma set_assumptions_not_ok (E : Env) (s : Solver) :
  assumption_helpers_frame E -> ok s = false ->
  exists s', set_assumptions E s = Returns tt s' /\ ok s' = false.
Proof.
  intros HE Hok. unfold set_assumptions.
  rewrite add_clause_helper_not_ok by exact Hok. cbn [bind].
  eexists. split; [reflexivity |].
  destruct (fill_assumptions_set_frame E HE (upd_conflict [] s)) as (-> & _). exact Hok.
Qed.

Lemma uneliminate_sampling_set_not_ok (E : Env) (s : Solver) :
  ok s = false -> uneliminate_sampling_set E s = Returns tt s.
Proof.
  intros Hok. unfold uneliminate_sampling_set.
  destruct (sampling_vars (conf s)); [| reflexivity].
  rewrite add_clause_helper_not_ok by exact Hok. reflexivity.
Qed.

(** X21. [simplify_problem_outside] leaves the assumptions cleared and
    [conf_needed] set whenever it returns. On a solver that is UNSAT
    already it returns [l_False] with [ok] still down, whatever the
    simplification would do and whatever the configuration is: neither
    the configuration checks nor the schedule are reached. *)
Theorem simplify_problem_outside_spec (E : Env) (strategy : option string) (s : Solver) :
  assumption_helpers_frame E ->
  (forall P status s',
     simplify_problem_outside E P strategy s = Returns status s' ->
     assumptions s' = [] /\ conf_needed (conf s') = true)
  /\ (ok s = false ->
      exists s', ok s' = false
                 /\ forall P, simplify_problem_outside E P strategy s = Returns l_False s').
Proof.
  intros HE. split.
  - intros P status s' H. unfold simplify_problem_outside in H. cbv zeta in H.
    apply bind_Returns_inv in H as (u1 & s1 & _ & H).
    apply bind_Returns_inv in H as (u2 & s2 & _ & H).
    apply bind_Returns_inv in H as (st & s3 & _ & H).
    injection H as _ <-. split; reflexivity.
  - intros Hok. unfold simplify_problem_outside. cbv zeta.
    match goal with |- context [set_assumptions E ?t] =>
      destruct (set_assumptions_not_ok E t HE) as (s1 & Hset & Hok1); [exact Hok |] end.
    eexists. split; [| intros P].
    2: { rewrite Hset. cbn [bind].
         rewrite uneliminate_sampling_set_not_ok by exact Hok1. cbn [bind].
         rewrite Hok1. cbn [negb bind]. reflexivity. }
    cbn [ok upd_conf upd_assumptions].
    destruct (unfill_assumptions_set_frame E HE s1) as (-> & _). exact Hok1.
Qed.

(** The sample solver with [ok] down. *)
Lemma simplify_problem_outside_spec_witness :
  exists s', ok s' = false
             /\ forall P, simplify_problem_outside E0 P None (upd_ok false s0)
                          = Returns l_False s'.
Proof.
  apply (simplify_problem_outside_spec E0 None (upd_ok false s0) E0_frame).
  reflexivity.
Defined.
